(** * StorytelReaderMods boot-image tools: a shallow embedding

    The development follows the Python sources under [tools/]:
    - [tools/utils/rockchip.py]: the KRNL container and its checksum,
    - [tools/utils/__init__.py]: [pad],
    - [tools/utils/cpiofile.py]: the cpio (SVR4 "newc") archive codec,
    - [tools/unpack.py], [tools/pack.py]: the descriptor and the attribute
      overrides.

    Python values are modelled as follows.  An [int] is a [Z]; [bytes] is a
    [list byte]; a [str] is the list of its code points ([pystr]); a [dict]
    is a [gmap]; an exception is a value of [exn] carried by [result].

    The first part holds the definitions, the second part the lemmas and the
    theorems about them. *)

From Stdlib Require Import ZArith List Lia Strings.String Strings.Byte Sorted Permutation.
From stdpp Require Import gmap strings list.
From Equations Require Import Equations.

Local Open Scope Z_scope.

(** ** Exceptions and results *)

(** The exception classes the modelled code raises.  [UnicodeDecodeError]
    and [UnicodeEncodeError] are subclasses of [ValueError] in Python; they
    are kept apart here, and [is_ValueError] says what an
    [except ValueError] clause catches.  [IOError] and [EnvironmentError]
    are other names of [OSError]; [StructError] is [struct.error]. *)
Inductive exn : Type :=
  | ValueError
  | UnicodeDecodeError
  | UnicodeEncodeError
  | StructError
  | OSError.

Definition is_ValueError (e : exn) : bool :=
  match e with
  | ValueError | UnicodeDecodeError | UnicodeEncodeError => true
  | _ => false
  end.

Inductive result (A : Type) : Type :=
  | Ok (a : A)
  | Raise (e : exn).
Arguments Ok {A} a.
Arguments Raise {A} e.

Definition bind {A B} (r : result A) (k : A -> result B) : result B :=
  match r with
  | Ok a => k a
  | Raise e => Raise e
  end.

Declare Scope py_scope.
Delimit Scope py_scope with py.
Notation "x <- r ;;; k" := (bind r (fun x => k))
  (at level 100, r at next level, right associativity) : py_scope.
Local Open Scope py_scope.

Definition succeeds {A} (r : result A) : Prop := exists a, r = Ok a.
Definition fails {A} (r : result A) : Prop := exists e, r = Raise e.

(** Case analysis on a computed value that keeps the equation, for
    definitions by well-founded recursion. *)
Definition inspect {A} (a : A) : {b : A | a = b} := exist _ a eq_refl.

(** ** Bytes and strings *)

Abbreviation bytes := (list byte).

#[global] Instance byte_eq_decision : EqDecision byte := Byte.byte_eq_dec.

(** A Python [str]: the list of its code points. *)
Abbreviation pystr := (list N).

(** A bytes literal [b"..."] and a [str] literal ["..."] of ASCII
    characters. *)
Definition b_lit (s : String.string) : bytes := list_byte_of_string s.
Definition s_lit (s : String.string) : pystr := map Byte.to_N (list_byte_of_string s).

Definition ord (b : byte) : Z := Z.of_N (Byte.to_N b).

(** [bytes([n])] for [n] below 256 (and [NUL] otherwise, a case no caller
    reaches). *)
Definition chr (n : N) : byte :=
  match Byte.of_N n with
  | Some b => b
  | None => x00
  end.

Definition NUL : byte := x00.

(** [buf[i:j]] for [0 <= i <= j]; like Python's, it is shorter than [j - i]
    when [buf] ends early. *)
Definition slice (i j : nat) (buf : bytes) : bytes :=
  firstn (j - i) (skipn i buf).

(** [buf.startswith(prefix)] *)
Fixpoint startswith (buf prefix : bytes) : bool :=
  match prefix, buf with
  | [], _ => true
  | p :: prefix', c :: buf' =>
      if decide (p = c) then startswith buf' prefix' else false
  | _ :: _, [] => false
  end.

(** A file opened for reading, at some position: the bytes not yet read.
    [f.read(n)] returns at most [n] bytes and advances past them. *)
Definition f_read (n : nat) (f : bytes) : bytes * bytes :=
  (firstn n f, skipn n f).

(** ** Text encoding: [six.ensure_binary] and [bytes.decode] *)

Section Utf8.
Local Open Scope N_scope.

(** The UTF-8 encoding of one code point; surrogates (and anything above
    U+10FFFF) cannot be encoded. *)
Definition utf8_encode_char (c : N) : option bytes :=
  if c <? 0x80 then Some [chr c]
  else if c <? 0x800 then
    Some [chr (0xC0 + c / 64); chr (0x80 + c mod 64)]
  else if c <? 0x10000 then
    if (0xD800 <=? c) && (c <=? 0xDFFF) then None
    else Some [chr (0xE0 + c / 4096); chr (0x80 + (c / 64) mod 64);
               chr (0x80 + c mod 64)]
  else if c <? 0x110000 then
    Some [chr (0xF0 + c / 262144); chr (0x80 + (c / 4096) mod 64);
          chr (0x80 + (c / 64) mod 64); chr (0x80 + c mod 64)]
  else None.

Fixpoint utf8_encode (s : pystr) : option bytes :=
  match s with
  | [] => Some []
  | c :: s' =>
      match utf8_encode_char c, utf8_encode s' with
      | Some bs, Some rest => Some (bs ++ rest)
      | _, _ => None
      end
  end.

(** A continuation byte in the range [lo..hi], as its six payload bits. *)
Definition cont (lo hi : N) (b : byte) : option N :=
  let v := Byte.to_N b in
  if (lo <=? v) && (v <=? hi) then Some (v - 0x80) else None.

(** The ranges of the second byte, by leading byte, of the well-formed
    sequences: no overlong forms, no surrogates, nothing above U+10FFFF. *)
Fixpoint utf8_decode (bs : bytes) : option pystr :=
  match bs with
  | [] => Some []
  | b1 :: r1 =>
      let c1 := Byte.to_N b1 in
      if c1 <? 0x80 then cons c1 <$> utf8_decode r1
      else if (0xC2 <=? c1) && (c1 <=? 0xDF) then
        match r1 with
        | b2 :: r2 =>
            match cont 0x80 0xBF b2 with
            | Some p2 => cons ((c1 - 0xC0) * 64 + p2) <$> utf8_decode r2
            | None => None
            end
        | _ => None
        end
      else if (0xE0 <=? c1) && (c1 <=? 0xEF) then
        match r1 with
        | b2 :: b3 :: r3 =>
            let lo := if c1 =? 0xE0 then 0xA0 else 0x80 in
            let hi := if c1 =? 0xED then 0x9F else 0xBF in
            match cont lo hi b2, cont 0x80 0xBF b3 with
            | Some p2, Some p3 =>
                cons ((c1 - 0xE0) * 4096 + p2 * 64 + p3) <$> utf8_decode r3
            | _, _ => None
            end
        | _ => None
        end
      else if (0xF0 <=? c1) && (c1 <=? 0xF4) then
        match r1 with
        | b2 :: b3 :: b4 :: r4 =>
            let lo := if c1 =? 0xF0 then 0x90 else 0x80 in
            let hi := if c1 =? 0xF4 then 0x8F else 0xBF in
            match cont lo hi b2, cont 0x80 0xBF b3, cont 0x80 0xBF b4 with
            | Some p2, Some p3, Some p4 =>
                cons ((c1 - 0xF0) * 262144 + p2 * 4096 + p3 * 64 + p4)
                  <$> utf8_decode r4
            | _, _, _ => None
            end
        | _ => None
        end
      else None
  end.

End Utf8.

(** [six.ensure_binary(s)] for a [str]: [s.encode("utf-8", "strict")]. *)
Definition ensure_binary (s : pystr) : result bytes :=
  match utf8_encode s with
  | Some bs => Ok bs
  | None => Raise UnicodeEncodeError
  end.

(** [b.decode()]: UTF-8, strict. *)
Definition decode (b : bytes) : result pystr :=
  match utf8_decode b with
  | Some s => Ok s
  | None => Raise UnicodeDecodeError
  end.

(** ** Numbers as text: ["%08X" % v], [oct(v)], [int(s, base)] *)

(** The digits of [n >= 0] in [base], most significant first.  The fuel is
    the number of binary digits of [n], which is never too small
    ([to_digits_fuel] below). *)
Fixpoint to_digits (base : Z) (fuel : nat) (n : Z) (acc : list Z) : list Z :=
  match fuel with
  | O => acc
  | S fuel' =>
      if n <? base then n :: acc
      else to_digits base fuel' (n / base) (n mod base :: acc)
  end.

Definition digits (base n : Z) : list Z :=
  to_digits base (S (Z.to_nat (Z.log2 n))) n [].

(** The character of one digit: ['0'..'9'], then letters. *)
Definition digit_char (upper : bool) (d : Z) : N :=
  Z.to_N (if d <? 10 then 48 + d else if upper then 55 + d else 87 + d).

(** The value of one character as a digit, for bases up to 36. *)
Definition digit_val (c : N) : option Z :=
  let c := Z.of_N c in
  if (48 <=? c) && (c <=? 57) then Some (c - 48)
  else if (65 <=? c) && (c <=? 90) then Some (c - 55)
  else if (97 <=? c) && (c <=? 122) then Some (c - 87)
  else None.

(** The text of [|v|] in [base], left-padded with zeros to [width]
    characters, a minus sign counting as one of them: what ["%0wX" % v] and
    ["%0wo" % v] print. *)
Definition fmt_digits (upper : bool) (base : Z) (width : nat) (v : Z) : pystr :=
  let ds := map (digit_char upper) (digits base (Z.abs v)) in
  if v <? 0
  then 45%N :: repeat 48%N (width - 1 - length ds) ++ ds
  else repeat 48%N (width - length ds) ++ ds.

(** [b"%08X" % v] and [b"%06X" % v] *)
Definition fmt_X (width : nat) (v : Z) : bytes :=
  map chr (fmt_digits true 16 width v).

(** [oct(v)] *)
Definition oct (v : Z) : pystr :=
  (if v <? 0 then [45%N] else []) ++ s_lit "0o" ++
  map (digit_char false) (digits 8 (Z.abs v)).

(** The value of a text of digits of the base, most significant first; the
    lemmas on [int(s, base)] are stated with it. *)
Fixpoint int_digits (base : Z) (cs : pystr) (acc : Z) : option Z :=
  match cs with
  | [] => Some acc
  | c :: cs' =>
      match digit_val c with
      | Some d => if d <? base then int_digits base cs' (acc * base + d) else None
      | None => None
      end
  end.

(** *** [int(s, base)] for [2 <= base <= 36]

    The text [int] accepts, as CPython reads it: blanks, an optional sign,
    for the bases 16, 8 and 2 an optional prefix [0x], [0o] or [0b] and one
    underscore after it, then digits of the base with single underscores
    between them, then blanks. *)

(** The blanks [int] skips around the number: space and the control
    characters from tab to carriage return. *)
Definition is_space (c : N) : bool :=
  ((c =? 32) || ((9 <=? c) && (c <=? 13)))%N.

Fixpoint skip_spaces (cs : pystr) : pystr :=
  match cs with
  | c :: cs' => if is_space c then skip_spaces cs' else cs
  | [] => []
  end.

(** The prefix of the base and the one underscore allowed after it. *)
Definition skip_prefix (base : Z) (cs : pystr) : pystr :=
  match cs with
  | c0 :: c1 :: r =>
      if (c0 =? 48)%N &&
         (((base =? 16) && ((c1 =? 120) || (c1 =? 88))%N) ||    (* 0x 0X *)
          ((base =? 8) && ((c1 =? 111) || (c1 =? 79))%N) ||     (* 0o 0O *)
          ((base =? 2) && ((c1 =? 98) || (c1 =? 66))%N))        (* 0b 0B *)
      then match r with
           | c2 :: r' => if (c2 =? 95)%N then r' else r
           | [] => r
           end
      else cs
  | _ => cs
  end.

(** The digits and the underscores between them: the value read and the
    text left, or [None] at a doubled or a trailing underscore.  [prev] is
    the character before [cs]. *)
Fixpoint scan_digits (base : Z) (cs : pystr) (prev : N) (acc : Z)
  : option (Z * pystr) :=
  let stop := if (prev =? 95)%N then None else Some (acc, cs) in
  match cs with
  | [] => stop
  | c :: cs' =>
      if (c =? 95)%N then
        if (prev =? 95)%N then None else scan_digits base cs' c acc
      else
        match digit_val c with
        | Some d =>
            if d <? base then scan_digits base cs' c (acc * base + d) else stop
        | None => stop
        end
  end.

(** The number after the sign: no underscore in front, at least one
    character read, nothing but blanks after it. *)
Definition int_unsigned (base : Z) (s : pystr) : result Z :=
  let s := skip_prefix base s in
  match s with
  | [] => Raise ValueError
  | c :: _ =>
      if (c =? 95)%N then Raise ValueError
      else
        match scan_digits base s 0 0 with
        | Some (v, rest) =>
            if (length rest =? length s)%nat then Raise ValueError
            else match skip_spaces rest with
                 | [] => Ok v
                 | _ :: _ => Raise ValueError
                 end
        | None => Raise ValueError
        end
  end.

(** The text of ASCII characters that [int] reads; any other character,
    NUL among them, is no part of a number. *)
Definition int_literal (base : Z) (s : pystr) : result Z :=
  match skip_spaces s with
  | c :: r =>
      if (c =? 43)%N then int_unsigned base r
      else if (c =? 45)%N then v <- int_unsigned base r ;;; Ok (- v)
      else int_unsigned base (c :: r)
  | [] => Raise ValueError
  end.

(** For a [str], [int] first turns every blank beyond ASCII into a space
    and every decimal digit of another script into its ASCII digit.  The
    two tables are those of Unicode 14.0 (CPython 3.11): the blanks, and
    the digit zero of each script, whose nine successors are its digits 1
    to 9. *)
Definition unicode_spaces : list N :=
  [
   0x85; 0xA0; 0x1680; 0x2000; 0x2001; 0x2002; 0x2003; 0x2004;
   0x2005; 0x2006; 0x2007; 0x2008; 0x2009; 0x200A; 0x2028; 0x2029;
   0x202F; 0x205F; 0x3000
  ]%N.

Definition unicode_zeros : list N :=
  [
   0x660; 0x6F0; 0x7C0; 0x966; 0x9E6; 0xA66; 0xAE6; 0xB66;
   0xBE6; 0xC66; 0xCE6; 0xD66; 0xDE6; 0xE50; 0xED0; 0xF20;
   0x1040; 0x1090; 0x17E0; 0x1810; 0x1946; 0x19D0; 0x1A80; 0x1A90;
   0x1B50; 0x1BB0; 0x1C40; 0x1C50; 0xA620; 0xA8D0; 0xA900; 0xA9D0;
   0xA9F0; 0xAA50; 0xABF0; 0xFF10; 0x104A0; 0x10D30; 0x11066; 0x110F0;
   0x11136; 0x111D0; 0x112F0; 0x11450; 0x114D0; 0x11650; 0x116C0; 0x11730;
   0x118E0; 0x11950; 0x11C50; 0x11D50; 0x11DA0; 0x16A60; 0x16AC0; 0x16B50;
   0x1D7CE; 0x1D7D8; 0x1D7E2; 0x1D7EC; 0x1D7F6; 0x1E140; 0x1E2F0; 0x1E950;
   0x1FBF0
  ]%N.

Definition to_ascii (c : N) : N :=
  if (c <? 127)%N then c
  else if existsb (N.eqb c) unicode_spaces then 32%N
  else match find (fun z => (z <=? c) && (c <? z + 10))%N unicode_zeros with
       | Some z => (48 + (c - z))%N
       | None => 63%N (* no part of a number *)
       end.

(** [int(s, base)] on a [str] *)
Definition py_int (base : Z) (s : pystr) : result Z :=
  int_literal base (map to_ascii s).

(** [int(b, base)] on [bytes]: ASCII only. *)
Definition py_int_b (base : Z) (b : bytes) : result Z :=
  int_literal base (map Byte.to_N b).

(** [struct.unpack("<I", b)[0]] *)
Definition unpack_le32 (b : bytes) : result Z :=
  match b with
  | [b0; b1; b2; b3] =>
      Ok (ord b0 + 256 * ord b1 + 65536 * ord b2 + 16777216 * ord b3)
  | _ => Raise StructError
  end.

(** [struct.pack("<I", v)] *)
Definition pack_le32 (v : Z) : result bytes :=
  if (0 <=? v) && (v <? 2 ^ 32)
  then Ok [chr (Z.to_N (v mod 256)); chr (Z.to_N (v / 256 mod 256));
           chr (Z.to_N (v / 65536 mod 256)); chr (Z.to_N (v / 16777216 mod 256))]
  else Raise StructError.

(** [struct.unpack("%ds" % n, b)[0]] *)
Definition unpack_s (n : nat) (b : bytes) : result bytes :=
  if decide (length b = n) then Ok b else Raise StructError.

(** ** utils/__init__.py *)

(** [pad(path, size)], on the content of the file at [path]: NUL bytes are
    appended, at most 8192 at a time, while the file is shorter than
    [size]. *)
Equations? pad (content : bytes) (size : Z) : bytes
  by wf (Z.to_nat (size - Z.of_nat (length content))) lt :=
  pad content size with inspect (Z.of_nat (length content) <? size) := {
    | exist _ true Hlt :=
        let n := Z.min (size - Z.of_nat (length content)) 8192 in
        pad (content ++ repeat NUL (Z.to_nat n)) size
    | exist _ false _ := content }.
Proof.
  apply Z.ltb_lt in Hlt. rewrite length_app, repeat_length. lia.
Qed.

(** ** utils/rockchip.py *)

Module Rockchip.

(** One pass of the body of [for i in range(0, 8)]. *)
Definition crc_shift (crc : Z) : Z :=
  if negb (Z.land crc 0x80000000 =? 0)
  then Z.lxor (Z.land (Z.shiftl crc 1) 0xffffffff) 0x04c10db7
  else Z.land (Z.shiftl crc 1) 0xffffffff.

(** The body of [for b in data]. *)
Definition crc_byte (crc : Z) (b : byte) : Z :=
  let crc := Z.lxor crc (Z.land (Z.shiftl (ord b) 24) 0xffffffff) in
  Nat.iter 8 crc_shift crc.

(** The size of one [f.read(8192)]. *)
Definition READ_SIZE : nat := Z.to_nat 8192.

Lemma READ_SIZE_pos : (0 < READ_SIZE)%nat.
Proof. unfold READ_SIZE. lia. Qed.

(** A read that returns something leaves less to read. *)
Lemma read_shrinks (n : nat) (f : bytes) (b : byte) (data : bytes) :
  (0 < n)%nat -> firstn n f = b :: data ->
  (length (skipn n f) < length f)%nat.
Proof.
  intros Hn Hd. destruct f as [|c f].
  - rewrite firstn_nil in Hd. discriminate Hd.
  - rewrite length_skipn. simpl length. lia.
Qed.

#[local] Opaque READ_SIZE.

(** The [while True] loop of [rkcrc32]: read at most 8192 bytes, return at
    the first empty read. *)
Equations? rkcrc32_loop (f : bytes) (crc : Z) : Z by wf (length f) lt :=
  rkcrc32_loop f crc with inspect (f_read READ_SIZE f) := {
    | exist _ ([], _) _ := crc
    | exist _ (b :: data, rest) Hread :=
        rkcrc32_loop rest (fold_left crc_byte (b :: data) crc) }.
Proof.
  eapply read_shrinks; [apply READ_SIZE_pos|eassumption].
Qed.

#[local] Transparent READ_SIZE.

(** [rkcrc32(p)], on the content of the file [p]. *)
Definition rkcrc32 (content : bytes) : Z := rkcrc32_loop content 0.

(** The dictionary [unpack_rockchip_krnl_bootimg] returns. *)
Record krnl_info : Type := {
  boot_magic : pystr;
  image_dir : pystr;
}.

(** [check_krnl_initrd_img(image_file_path)], on the content of the image.
    The [raise] at its end is reached when either [if] fails. *)
Definition check_krnl_initrd_img (image : bytes) : result unit :=
  m4 <- unpack_s 4 (fst (f_read 4 image)) ;;;
  magic <- decode m4 ;;;
  if decide (magic = s_lit "KRNL") then
    gzip_magic <- unpack_s 2 (fst (f_read 2 (skipn 8 image))) ;;;
    if decide (gzip_magic = [x1f; x8b]) then Ok tt
    else Raise ValueError
  else Raise ValueError.

(** [unpack_rockchip_krnl_bootimg(boot_img, output_dir)]: the returned
    dictionary and the content written to [output_dir/ramdisk]. *)
Definition unpack_rockchip_krnl_bootimg (image : bytes) (output_dir : pystr)
  : result (krnl_info * bytes) :=
  _ <- check_krnl_initrd_img image ;;;
  size <- unpack_le32 (fst (f_read 4 (skipn 4 image))) ;;;
  let ramdisk := fst (f_read (Z.to_nat size) (skipn 8 image)) in
  Ok ({| boot_magic := s_lit "KRNL"; image_dir := output_dir |}, ramdisk).

(** The two files of the image directory [pack_rockchip_krnl_bootimg]
    looks at; [None] for a file that does not exist. *)
Record image_files : Type := {
  ramdisk_patched : option bytes;
  ramdisk : option bytes;
}.

(** [pack_rockchip_krnl_bootimg(boot_img, info)]: the content of [boot_img]
    afterwards.  [ramdisk.patched] is preferred when it exists; the
    [stat()] of a missing file raises. *)
Definition pack_rockchip_krnl_bootimg (files : image_files) (image_size : Z)
  : result bytes :=
  rd <- match ramdisk_patched files, ramdisk files with
        | Some rd, _ => Ok rd
        | None, Some rd => Ok rd
        | None, None => Raise OSError
        end ;;;
  size <- pack_le32 (Z.of_nat (length rd)) ;;;
  let crc := rkcrc32 rd in
  crc4 <- pack_le32 crc ;;;
  Ok (pad (b_lit "KRNL" ++ size ++ rd ++ crc4) image_size).

End Rockchip.

(** ** The checksum as the specification words it

    This second definition follows the text of the specification, not the
    code; [rkcrc32] above is compared with it. *)

Module RkcrcSpec.

Definition trunc32 (x : Z) : Z := x mod 2 ^ 32.

(** One round: if bit 31 is set, shift left one bit and XOR with the
    polynomial, else shift left one bit; truncated to 32 bits. *)
Definition round (acc : Z) : Z :=
  if Z.testbit acc 31
  then trunc32 (Z.lxor (Z.shiftl acc 1) 0x04C10DB7)
  else trunc32 (Z.shiftl acc 1).

(** One input byte: XOR it, shifted left 24 bits, into the accumulator,
    then 8 rounds. *)
Definition step (acc : Z) (b : byte) : Z :=
  Nat.iter 8 round (trunc32 (Z.lxor acc (Z.shiftl (ord b) 24))).

(** The accumulator starts at 0. *)
Definition checksum (data : bytes) : Z := fold_left step data 0.

End RkcrcSpec.

(** ** utils/cpiofile.py: constants and [CpioInfo] *)

Module Cpio.

Definition MAGIC_NEWC : Z := 0x070701.
Definition TRAILER_NAME : bytes := b_lit "TRAILER!!!".
Definition WORDSIZE : Z := 4.
Definition BLOCKSIZE : nat := 512.
Definition HEADERSIZE_SVR4 : nat := 110.

Definition S_IFLNK : Z := 0xA000 (* 0o120000 *).
Definition S_IFREG : Z := 0x8000 (* 0o100000 *).
Definition S_IFBLK : Z := 0x6000 (* 0o060000 *).
Definition S_IFDIR : Z := 0x4000 (* 0o040000 *).
Definition S_IFCHR : Z := 0x2000 (* 0o020000 *).
Definition S_IFIFO : Z := 0x1000 (* 0o010000 *).

(** [stat.S_IFMT(mode)]: the entry-type bits. *)
Definition S_IFMT (mode : Z) : Z := Z.land mode 0xF000 (* 0o170000 *).

(** A [CpioInfo] object.  [mtime] is kept integral: [tobuf] prints
    [int(self.mtime)]. *)
Record CpioInfo : Type := {
  ino : Z;
  mode : Z;
  uid : Z;
  gid : Z;
  nlink : Z;
  mtime : Z;
  size : Z;
  devmajor : Z;
  devminor : Z;
  rdevmajor : Z;
  rdevminor : Z;
  namesize : Z;
  check : Z;
  name : pystr;
  linkname : pystr;
  offset : Z;
  offset_data : Z;
  buf : option bytes;
}.

(** [CpioInfo(name)] *)
Definition CpioInfo_init (name : pystr) : CpioInfo := {|
  ino := 0; mode := Z.lor S_IFREG 0x124 (* 0o444 *); uid := 0; gid := 0; nlink := 1;
  mtime := 0; size := 0; devmajor := 0; devminor := 0; rdevmajor := 0;
  rdevminor := 0; namesize := 0; check := 0; name := name; linkname := [];
  offset := 0; offset_data := 0; buf := None |}.

(** Assignments to single attributes. *)
Definition set_size (v : Z) (m : CpioInfo) : CpioInfo := {|
  ino := ino m; mode := mode m; uid := uid m; gid := gid m; nlink := nlink m;
  mtime := mtime m; size := v; devmajor := devmajor m;
  devminor := devminor m; rdevmajor := rdevmajor m; rdevminor := rdevminor m;
  namesize := namesize m; check := check m; name := name m;
  linkname := linkname m; offset := offset m; offset_data := offset_data m;
  buf := buf m |}.

Definition set_mode (v : Z) (m : CpioInfo) : CpioInfo := {|
  ino := ino m; mode := v; uid := uid m; gid := gid m; nlink := nlink m;
  mtime := mtime m; size := size m; devmajor := devmajor m;
  devminor := devminor m; rdevmajor := rdevmajor m; rdevminor := rdevminor m;
  namesize := namesize m; check := check m; name := name m;
  linkname := linkname m; offset := offset m; offset_data := offset_data m;
  buf := buf m |}.

Definition set_uid (v : Z) (m : CpioInfo) : CpioInfo := {|
  ino := ino m; mode := mode m; uid := v; gid := gid m; nlink := nlink m;
  mtime := mtime m; size := size m; devmajor := devmajor m;
  devminor := devminor m; rdevmajor := rdevmajor m; rdevminor := rdevminor m;
  namesize := namesize m; check := check m; name := name m;
  linkname := linkname m; offset := offset m; offset_data := offset_data m;
  buf := buf m |}.

Definition set_gid (v : Z) (m : CpioInfo) : CpioInfo := {|
  ino := ino m; mode := mode m; uid := uid m; gid := v; nlink := nlink m;
  mtime := mtime m; size := size m; devmajor := devmajor m;
  devminor := devminor m; rdevmajor := rdevmajor m; rdevminor := rdevminor m;
  namesize := namesize m; check := check m; name := name m;
  linkname := linkname m; offset := offset m; offset_data := offset_data m;
  buf := buf m |}.

Definition set_mtime (v : Z) (m : CpioInfo) : CpioInfo := {|
  ino := ino m; mode := mode m; uid := uid m; gid := gid m; nlink := nlink m;
  mtime := v; size := size m; devmajor := devmajor m;
  devminor := devminor m; rdevmajor := rdevmajor m; rdevminor := rdevminor m;
  namesize := namesize m; check := check m; name := name m;
  linkname := linkname m; offset := offset m; offset_data := offset_data m;
  buf := buf m |}.

Definition set_buf (v : option bytes) (m : CpioInfo) : CpioInfo := {|
  ino := ino m; mode := mode m; uid := uid m; gid := gid m; nlink := nlink m;
  mtime := mtime m; size := size m; devmajor := devmajor m;
  devminor := devminor m; rdevmajor := rdevmajor m; rdevminor := rdevminor m;
  namesize := namesize m; check := check m; name := name m;
  linkname := linkname m; offset := offset m; offset_data := offset_data m;
  buf := v |}.

(** [isreg], [isdir], [issym] *)
Definition isreg (m : CpioInfo) : bool := bool_decide (S_IFMT (mode m) = S_IFREG).
Definition isdir (m : CpioInfo) : bool := bool_decide (S_IFMT (mode m) = S_IFDIR).
Definition issym (m : CpioInfo) : bool := bool_decide (S_IFMT (mode m) = S_IFLNK).

(** [CpioInfo.frombuf(buf)]: thirteen fields at fixed offsets; the magic
    at [buf[0:6]] is not looked at. *)
Definition frombuf (b : bytes) : result CpioInfo :=
  v_ino <- py_int_b 16 (slice 6 14 b) ;;;
  v_mode <- py_int_b 16 (slice 14 22 b) ;;;
  v_uid <- py_int_b 16 (slice 22 30 b) ;;;
  v_gid <- py_int_b 16 (slice 30 38 b) ;;;
  v_nlink <- py_int_b 16 (slice 38 46 b) ;;;
  v_mtime <- py_int_b 16 (slice 46 54 b) ;;;
  v_size <- py_int_b 16 (slice 54 62 b) ;;;
  v_devmajor <- py_int_b 16 (slice 62 70 b) ;;;
  v_devminor <- py_int_b 16 (slice 70 78 b) ;;;
  v_rdevmajor <- py_int_b 16 (slice 78 86 b) ;;;
  v_rdevminor <- py_int_b 16 (slice 86 94 b) ;;;
  v_namesize <- py_int_b 16 (slice 94 102 b) ;;;
  v_check <- py_int_b 16 (slice 102 110 b) ;;;
  Ok {| ino := v_ino; mode := v_mode; uid := v_uid; gid := v_gid;
        nlink := v_nlink; mtime := v_mtime; size := v_size;
        devmajor := v_devmajor; devminor := v_devminor;
        rdevmajor := v_rdevmajor; rdevminor := v_rdevminor;
        namesize := v_namesize; check := v_check; name := [];
        linkname := []; offset := 0; offset_data := 0; buf := Some b |}.

(** [buf += (WORDSIZE - remainder) * NUL] when [len(buf)] is not a multiple
    of [WORDSIZE]. *)
Definition pad_to_word (b : bytes) : bytes :=
  let remainder := Z.of_nat (length b) mod WORDSIZE in
  if remainder =? 0 then b
  else b ++ repeat NUL (Z.to_nat (WORDSIZE - remainder)).

(** The size field [tobuf] prints:
    [self.linkname == '' and self.size or len(self.linkname)]. *)
Definition size_field (m : CpioInfo) : Z :=
  if decide (linkname m = [])
  then (if size m =? 0 then Z.of_nat (length (linkname m)) else size m)
  else Z.of_nat (length (linkname m)).

(** The fixed part of the header, before the name. *)
Definition header_fields (m : CpioInfo) : bytes :=
  fmt_X 6 MAGIC_NEWC ++ fmt_X 8 (ino m) ++ fmt_X 8 (mode m) ++
  fmt_X 8 (uid m) ++ fmt_X 8 (gid m) ++ fmt_X 8 (nlink m) ++
  fmt_X 8 (mtime m) ++ fmt_X 8 (size_field m) ++ fmt_X 8 (devmajor m) ++
  fmt_X 8 (devminor m) ++ fmt_X 8 (rdevmajor m) ++ fmt_X 8 (rdevminor m) ++
  fmt_X 8 (Z.of_nat (length (name m)) + 1) ++ fmt_X 8 (check m).

(** [m.tobuf()]: the header, the NUL-terminated name, padding to a word
    boundary and, for a link name, its bytes and padding again.  The method
    also stores the result in [self.buf]; [addfile] below records that. *)
Definition tobuf (m : CpioInfo) : result bytes :=
  name_b <- ensure_binary (name m) ;;;
  let b := pad_to_word (header_fields m ++ name_b ++ [NUL]) in
  if decide (linkname m = []) then Ok b
  else
    link_b <- ensure_binary (linkname m) ;;;
    Ok (pad_to_word (b ++ link_b)).

(** [CpioFile._word(count)] *)
Definition _word (count : Z) : Z :=
  let words := count / WORDSIZE in
  let remainder := count mod WORDSIZE in
  (if remainder =? 0 then words else words + 1) * WORDSIZE.

(** [_StreamProxy(fileobj)]: the first block read from the stream. *)
Definition StreamProxy_init (stream : bytes) : bytes :=
  fst (f_read BLOCKSIZE stream).

(** The compression types [getcomptype] tells apart. *)
Inductive comptype : Type := Gz | Bz2 | Xz | PlainCpio.

(** [_StreamProxy.getcomptype()], on [self.buf] *)
Definition getcomptype (buf : bytes) : comptype :=
  if startswith buf [x1f; x8b; x08] then Gz
  else if startswith buf (b_lit "BZh91") then Bz2
  else if startswith buf (xfd :: b_lit "7zXZ" ++ [x00]) then Xz
  else PlainCpio.

(** ** utils/cpiofile.py: [copyfileobj] and [CpioFile] *)

(** The [for b in range(blocks)] loop of [copyfileobj]: what is written and
    what is left of the source. *)
Fixpoint copy_blocks (blocks bufsize : nat) (src : bytes) : result (bytes * bytes) :=
  match blocks with
  | O => Ok ([], src)
  | S k =>
      let '(block, rest) := f_read bufsize src in
      if (length block <? bufsize)%nat then Raise OSError
      else
        r <- copy_blocks k bufsize rest ;;;
        Ok (block ++ fst r, snd r)
  end.

(** [copyfileobj(src, dst, length)] for an integer [length]: the bytes
    written to [dst]. *)
Definition copyfileobj (src : bytes) (length : Z) : result bytes :=
  if length =? 0 then Ok []
  else
    let bufsize := 16 * 1024 in
    let blocks := length / bufsize in
    let remainder := length mod bufsize in
    r <- copy_blocks (Z.to_nat blocks) (Z.to_nat bufsize) src ;;;
    if remainder =? 0 then Ok (fst r)
    else
      let block := fst (f_read (Z.to_nat remainder) (snd r)) in
      if Z.of_nat (List.length block) <? remainder then Raise OSError
      else Ok (fst r ++ block).

Inductive open_mode : Type := ModeR | ModeA | ModeW.

#[global] Instance open_mode_eq_dec : EqDecision open_mode.
Proof. intros x y. unfold Decision. decide equality. Defined.

(** A [CpioFile] object: [f_mode] is [self._mode], [f_offset] is
    [self.offset], and so on; [f_out] is what has been written to
    [self.fileobj] so far (before compression, when the file object
    compresses). *)
Record CpioFile : Type := {
  f_mode : open_mode;
  f_closed : bool;
  f_members : list CpioInfo;
  f_loaded : bool;
  f_offset : Z;
  f_inodes : gmap Z (list pystr);
  f_hardlinks : bool;
  f_out : bytes;
}.

(** [CpioFile(name, "w")]: a fresh archive, opened for writing, with the
    class default [hardlinks = True]. *)
Definition CpioFile_init_w : CpioFile := {|
  f_mode := ModeW; f_closed := false; f_members := []; f_loaded := true;
  f_offset := 0; f_inodes := ∅; f_hardlinks := true; f_out := [] |}.

(** [self._check(mode)] *)
Definition _check (modes : list open_mode) (t : CpioFile) : result unit :=
  if f_closed t then Raise OSError
  else if bool_decide (f_mode t ∈ modes) then Ok tt
  else Raise OSError.

(** The hardlink bookkeeping at the head of [addfile]: the member as it
    will be written and the new [self.inodes]. *)
Definition track_hardlink (t : CpioFile) (cpioinfo : CpioInfo)
  : CpioInfo * gmap Z (list pystr) :=
  if 1 <? nlink cpioinfo then
    match (if f_hardlinks t then f_inodes t !! ino cpioinfo else None) with
    | Some names =>
        (set_size 0 cpioinfo,
         <[ino cpioinfo := names ++ [name cpioinfo]]> (f_inodes t))
    | None =>
        (cpioinfo, <[ino cpioinfo := [name cpioinfo]]> (f_inodes t))
    end
  else (cpioinfo, f_inodes t).

(** The payload part of [addfile], run when a [fileobj] is given: the data
    and the padding written, and the offset afterwards. *)
Definition add_payload (src : bytes) (size offset : Z) : result (bytes * Z) :=
  data <- copyfileobj src size ;;;
  let offset := offset + size in
  let remainder := offset mod WORDSIZE in
  if 0 <? remainder
  then Ok (data ++ repeat NUL (Z.to_nat (WORDSIZE - remainder)),
           offset + (WORDSIZE - remainder))
  else Ok (data, offset).

(** [self.addfile(cpioinfo, fileobj)].  [fileobj] is the content an open
    file has left to read.  When the method raises, what it had written
    by then is not kept by the model. *)
Definition addfile (t : CpioFile) (cpioinfo : CpioInfo) (fileobj : option bytes)
  : result CpioFile :=
  _ <- _check [ModeA; ModeW] t ;;;
  let '(cpioinfo, inodes) := track_hardlink t cpioinfo in
  b <- tobuf cpioinfo ;;;
  let cpioinfo := set_buf (Some b) cpioinfo in
  let offset := f_offset t + Z.of_nat (length b) in
  payload <- match fileobj with
             | Some src => add_payload src (size cpioinfo) offset
             | None => Ok ([], offset)
             end ;;;
  Ok {| f_mode := f_mode t; f_closed := f_closed t;
        f_members := f_members t ++ [cpioinfo]; f_loaded := f_loaded t;
        f_offset := snd payload; f_inodes := inodes;
        f_hardlinks := f_hardlinks t;
        f_out := f_out t ++ b ++ fst payload |}.

(** A sequence of [addfile] calls on one archive, each with its member
    and its file object. *)
Fixpoint addfiles (t : CpioFile) (calls : list (CpioInfo * option bytes))
  : result CpioFile :=
  match calls with
  | [] => Ok t
  | (cpioinfo, fileobj) :: rest =>
      t' <- addfile t cpioinfo fileobj ;;;
      addfiles t' rest
  end.

(** The trailer record [close] writes.  [TRAILER_NAME] is a [bytes]
    object of ASCII characters: its length and its bytes are those of the
    text. *)
Definition trailer : CpioInfo :=
  set_mode 0 (CpioInfo_init (map Byte.to_N TRAILER_NAME)).

(** [self.close()] *)
Definition close (t : CpioFile) : result CpioFile :=
  if f_closed t then Ok t
  else
    w <- (if bool_decide (f_mode t ∈ [ModeA; ModeW])
          then tobuf trailer else Ok []) ;;;
    Ok {| f_mode := f_mode t; f_closed := true; f_members := f_members t;
          f_loaded := f_loaded t;
          f_offset := f_offset t + Z.of_nat (length w);
          f_inodes := f_inodes t; f_hardlinks := f_hardlinks t;
          f_out := f_out t ++ w |}.

(** ** utils/cpiofile.py: [extractall] *)

(** [os.path.join(a, b)] on POSIX *)
Definition path_join (a b : pystr) : pystr :=
  match b with
  | 47%N :: _ => b
  | _ =>
      match List.last a 47%N with
      | 47%N => a ++ b
      | _ => a ++ 47%N :: b
      end
  end.

(** [a < b] on [str]: lexicographic, by code point. *)
Fixpoint str_lt (a b : pystr) : bool :=
  match a, b with
  | _, [] => false
  | [], _ :: _ => true
  | x :: a', y :: b' =>
      if (x <? y)%N then true else if (y <? x)%N then false else str_lt a' b'
  end.

(** [directories.sort(key=lambda x: x.name)]: a stable sort; a member goes
    behind the members whose name is not greater. *)
Fixpoint insert_by_name (x : CpioInfo) (l : list CpioInfo) : list CpioInfo :=
  match l with
  | [] => [x]
  | y :: l' =>
      if str_lt (name x) (name y) then x :: y :: l'
      else y :: insert_by_name x l'
  end.

Definition sort_by_name (l : list CpioInfo) : list CpioInfo :=
  fold_left (fun acc x => insert_by_name x acc) l [].

(** What [extractall] asks of the file system, in order.  [SetDirAttrs m p]
    is the [try] block [self.chown(m, p); self.utime(m, p);
    self.chmod(m, p)]. *)
Inductive fs_request : Type :=
  | Makedirs (p : pystr) (mode : Z)
  | ExtractMember (m : CpioInfo) (root : pystr)
  | SetDirAttrs (m : CpioInfo) (p : pystr).

(** The first loop of [extractall]: the requests and the list
    [directories]. *)
Fixpoint extract_members (path : pystr) (members : list CpioInfo)
  : list fs_request * list CpioInfo :=
  match members with
  | [] => ([], [])
  | cpioinfo :: rest =>
      let '(reqs, directories) := extract_members path rest in
      if isdir cpioinfo
      then (Makedirs (path_join path (name cpioinfo)) 0x1FF (* 0o777 *) :: reqs,
            cpioinfo :: directories)
      else (ExtractMember cpioinfo path :: reqs, directories)
  end.

(** The last loop of [extractall]; its first statement assigns to [path],
    the variable the next iteration joins with. *)
Fixpoint set_directory_attrs (path : pystr) (directories : list CpioInfo)
  : list fs_request :=
  match directories with
  | [] => []
  | cpioinfo :: rest =>
      let path := path_join path (name cpioinfo) in
      SetDirAttrs cpioinfo path :: set_directory_attrs path rest
  end.

(** [self.extractall(path, members)] with the class default
    [errorlevel = 0], under which no failure of a request ends the loops. *)
Definition extractall (path : pystr) (members : list CpioInfo) : list fs_request :=
  let '(reqs, directories) := extract_members path members in
  let directories := rev (sort_by_name directories) in
  reqs ++ set_directory_attrs path directories.

End Cpio.

(** ** unpack.py and pack.py: the descriptor's attribute table *)

Module Pipeline.
Import Cpio.

(** One value of the dictionary [ramdisk_files]: [mode] is a [str], the
    text that [pack] reads with [int(mode, 8)]. *)
Record file_attr : Type := {
  a_uid : Z;
  a_gid : Z;
  a_mode : pystr;
  a_mtime : Z;
}.

(** [cpio_info_to_dict(ci)] *)
Definition cpio_info_to_dict (ci : CpioInfo) : pystr * file_attr :=
  (name ci,
   {| a_uid := uid ci; a_gid := gid ci;
      a_mode := skipn 2 (oct (Z.land (mode ci) 0x1FF (* 0o777 *)));
      a_mtime := mtime ci |}).

(** [dict(pairs)]: a later pair replaces an earlier one with its key. *)
Definition py_dict {V} (pairs : list (pystr * V)) : gmap pystr V :=
  fold_left (fun d kv => <[kv.1 := kv.2]> d) pairs ∅.

(** [info["ramdisk_files"]] as [unpack] computes it from
    [f.getmembers()]. *)
Definition ramdisk_files_of (members : list CpioInfo) : gmap pystr file_attr :=
  py_dict (map cpio_info_to_dict members).

Definition default_file_attr : file_attr :=
  {| a_uid := 0; a_gid := 0; a_mode := s_lit "644"; a_mtime := 0 |}.
Definition default_dir_attr : file_attr :=
  {| a_uid := 0; a_gid := 0; a_mode := s_lit "755"; a_mtime := 0 |}.

(** [{**ramdisk_files, **extra_ramdisk_files}], or [ramdisk_files] alone
    when there are no extra attributes. *)
Definition merge_attrs (ramdisk_files : gmap pystr file_attr)
    (extra_ramdisk_files : option (gmap pystr file_attr)) : gmap pystr file_attr :=
  match extra_ramdisk_files with
  | Some extra => extra ∪ ramdisk_files
  | None => ramdisk_files
  end.

(** What [os.lstat] tells [getcpioinfo] about a file; device numbers are
    split as [os.major] and [os.minor] split them, and [st_mtime] is kept
    integral. *)
Record stat_result : Type := {
  st_mode : Z;
  st_ino : Z;
  st_dev_major : Z;
  st_dev_minor : Z;
  st_nlink : Z;
  st_uid : Z;
  st_gid : Z;
  st_size : Z;
  st_mtime : Z;
  st_rdev_major : Z;
  st_rdev_minor : Z;
}.

(** One entry of the work tree as [pack] meets it: the archive name (a
    relative path, already normal: [getcpioinfo]'s [normpath] and its
    stripping of leading slashes leave it as it is), the [lstat] result,
    the link target [os.readlink] gives for a symbolic link, and the
    content [open(file, "rb")] reads for a regular file. *)
Record tree_entry : Type := {
  e_arcname : pystr;
  e_stat : stat_result;
  e_readlink : pystr;
  e_content : bytes;
}.

(** [f.getcpioinfo(file, arcname)] *)
Definition getcpioinfo (e : tree_entry) : CpioInfo :=
  let statres := e_stat e in
  let stmd := st_mode statres in
  let is_dev := bool_decide (S_IFMT stmd = S_IFCHR) || bool_decide (S_IFMT stmd = S_IFBLK) in
  {| ino := st_ino statres;
     mode := stmd;
     uid := st_uid statres;
     gid := st_gid statres;
     nlink := st_nlink statres;
     mtime := st_mtime statres;
     size := if bool_decide (S_IFMT stmd = S_IFREG) then st_size statres else 0;
     devmajor := st_dev_major statres;
     devminor := st_dev_minor statres;
     rdevmajor := if is_dev then st_rdev_major statres else 0;
     rdevminor := if is_dev then st_rdev_minor statres else 0;
     namesize := Z.of_nat (length (e_arcname e));
     check := 0;
     name := e_arcname e;
     linkname := if bool_decide (S_IFMT stmd = S_IFLNK) then e_readlink e else [];
     offset := 0; offset_data := 0; buf := None |}.

(** The member [pack] hands to [addfile] for one entry: lines 46 to 51 of
    pack.py. *)
Definition pack_member (ramdisk_files : gmap pystr file_attr) (e : tree_entry)
  : result CpioInfo :=
  let cpioinfo := getcpioinfo e in
  let file_attr :=
    default (if isdir cpioinfo then default_dir_attr else default_file_attr)
            (ramdisk_files !! e_arcname e) in
  let cpioinfo := set_uid (a_uid file_attr) cpioinfo in
  let cpioinfo := set_gid (a_gid file_attr) cpioinfo in
  m <- py_int 8 (a_mode file_attr) ;;;
  let cpioinfo := set_mode (Z.lor m (Z.land (mode cpioinfo) 0xFE00 (* 0o177000 *))) cpioinfo in
  Ok (set_mtime (a_mtime file_attr) cpioinfo).

(** One pass of the body of [for file in files]. *)
Definition pack_entry (ramdisk_files : gmap pystr file_attr) (t : CpioFile)
    (e : tree_entry) : result CpioFile :=
  cpioinfo <- pack_member ramdisk_files e ;;;
  if isreg cpioinfo then addfile t cpioinfo (Some (e_content e))
  else addfile t cpioinfo None.

Fixpoint pack_entries (ramdisk_files : gmap pystr file_attr) (t : CpioFile)
    (files : list tree_entry) : result CpioFile :=
  match files with
  | [] => Ok t
  | e :: rest =>
      t' <- pack_entry ramdisk_files t e ;;;
      pack_entries ramdisk_files t' rest
  end.

(** The [with cpiofile.open(ramdisk_patched, mode=open_mode) as f] block of
    [pack]: the archive object after [close], whose [f_out] is the cpio
    stream handed to the file object. *)
Definition pack_ramdisk (ramdisk_files : gmap pystr file_attr)
    (extra_ramdisk_files : option (gmap pystr file_attr))
    (files : list tree_entry) : result CpioFile :=
  let ramdisk_files := merge_attrs ramdisk_files extra_ramdisk_files in
  t <- pack_entries ramdisk_files CpioFile_init_w files ;;;
  close t.

End Pipeline.

(** ** unpack.py then pack.py, on a KRNL image *)

Module Roundtrip.
Import Cpio Pipeline Rockchip.

(** What the two scripts get from outside the repository when they run on
    a KRNL image.  Nothing is assumed about these answers but their
    types, except for the first four bytes of a gzip member (below). *)
Record host : Type := {
  (** [f.getmembers()] for the ramdisk that [unpack] opens *)
  h_members : list CpioInfo;
  (** [isinstance(f.fileobj, gzip.GzipFile)]: the ramdisk opened as gzip *)
  h_gzip : bool;
  (** the work tree as [glob], [lstat], [readlink] and [open] show it to
      [pack] *)
  h_files : list tree_entry;
  (** what [gzip.GzipFile] writes behind the first four bytes: time stamp,
      flags of the coder, file name, deflate data, trailer *)
  h_gzip_rest : bytes -> bytes;
}.

(** The file that [cpiofile.open(ramdisk_patched, "w:gz")] leaves, for the
    cpio stream [data].  It is written by the library class
    [gzip.GzipFile(name, "wb", 9)], which begins a member with the magic
    1F 8B, the method 08 and a flag byte, and sets the flag FNAME (08)
    because the file was opened by name; the name, [ramdisk.patched],
    follows the ten bytes of the header. *)
Definition GzipFile_write (h : host) (data : bytes) : bytes :=
  [x1f; x8b; x08; x08] ++ h_gzip_rest h data.

(** [unpack(boot_img, work_dir)] and then [pack(out_img, work_dir)] with no
    extra attributes, for an image that is not an Android image (so that
    [unpack] turns to the KRNL format): the content of [out_img]. *)
Definition unpack_then_pack (h : host) (image : bytes) (work_dir : pystr)
  : result bytes :=
  r <- unpack_rockchip_krnl_bootimg image work_dir ;;;
  let image_size := Z.of_nat (length image) in
  let ramdisk_files := ramdisk_files_of (h_members h) in
  t <- pack_ramdisk ramdisk_files None (h_files h) ;;;
  let ramdisk_patched :=
    if h_gzip h then GzipFile_write h (f_out t) else f_out t in
  pack_rockchip_krnl_bootimg
    {| ramdisk_patched := Some ramdisk_patched; ramdisk := Some (snd r) |}
    image_size.

(** A ramdisk as [cpio -o -H newc | gzip -9] makes it (no name, no time
    stamp in the header): one file [init] with the content ["hi\n"], and
    the trailer. *)
Definition sample_ramdisk : bytes :=
  [x1f; x8b; x08; x00; x00; x00; x00; x00; x02; x03; x33; x30;
   x37; x30; x37; x30; x34; x80; x00; x30; x6d; x61; xe8; xea;
   x62; x80; x1d; x18; xa2; xf1; x8d; x0d; x88; x03; xa6; x30;
   x46; x66; x5e; x66; x09; x03; x43; x46; x26; x17; x83; x01;
   xb2; xbd; x84; x00; xb1; xea; xd0; x81; x13; x8c; x11; x12;
   xe4; xe8; xe9; xe3; x1a; xa4; xa8; xa8; xc8; x00; x04; x00;
   x30; xcb; x47; xa4; xf4; x00; x00; x00].

(** The KRNL image of that ramdisk, as [pack_rockchip_krnl_bootimg] frames
    it, padded to 128 bytes. *)
Definition sample_image : bytes :=
  match pack_rockchip_krnl_bootimg
          {| ramdisk_patched := None; ramdisk := Some sample_ramdisk |} 128 with
  | Ok b => b
  | Raise _ => []
  end.

(** A host for that image: the member read from the ramdisk, and the work
    tree after extraction, with the inode and the device numbers the file
    system gave. *)
Definition sample_host : host := {|
  h_members :=
    [{| ino := 1; mode := 0x81ED (* 0o100755 *); uid := 0; gid := 0; nlink := 1;
        mtime := 0; size := 3; devmajor := 0; devminor := 0; rdevmajor := 0;
        rdevminor := 0; namesize := 5; check := 0; name := s_lit "init";
        linkname := []; offset := 0; offset_data := 116; buf := None |}];
  h_gzip := true;
  h_files :=
    [{| e_arcname := s_lit "init";
        e_stat := {| st_mode := 0x81ED; st_ino := 262145; st_dev_major := 8;
                     st_dev_minor := 1; st_nlink := 1; st_uid := 0; st_gid := 0;
                     st_size := 3; st_mtime := 0; st_rdev_major := 0;
                     st_rdev_minor := 0 |};
        e_readlink := [];
        e_content := b_lit "hi" ++ [x0a] |}];
  h_gzip_rest := fun data => [];
|}.

End Roundtrip.

(** ** utils/cpiofile.py: reading an archive *)

Module Reader.
Import Cpio.

(** [cpioinfo.name = v] and the other assignments [__next__] and
    [proc_member] make. *)
Definition set_name (v : pystr) (m : CpioInfo) : CpioInfo := {|
  ino := ino m; mode := mode m; uid := uid m; gid := gid m; nlink := nlink m;
  mtime := mtime m; size := size m; devmajor := devmajor m;
  devminor := devminor m; rdevmajor := rdevmajor m; rdevminor := rdevminor m;
  namesize := namesize m; check := check m; name := v;
  linkname := linkname m; offset := offset m; offset_data := offset_data m;
  buf := buf m |}.

Definition set_linkname (v : pystr) (m : CpioInfo) : CpioInfo := {|
  ino := ino m; mode := mode m; uid := uid m; gid := gid m; nlink := nlink m;
  mtime := mtime m; size := size m; devmajor := devmajor m;
  devminor := devminor m; rdevmajor := rdevmajor m; rdevminor := rdevminor m;
  namesize := namesize m; check := check m; name := name m;
  linkname := v; offset := offset m; offset_data := offset_data m;
  buf := buf m |}.

Definition set_offset (v : Z) (m : CpioInfo) : CpioInfo := {|
  ino := ino m; mode := mode m; uid := uid m; gid := gid m; nlink := nlink m;
  mtime := mtime m; size := size m; devmajor := devmajor m;
  devminor := devminor m; rdevmajor := rdevmajor m; rdevminor := rdevminor m;
  namesize := namesize m; check := check m; name := name m;
  linkname := linkname m; offset := v; offset_data := offset_data m;
  buf := buf m |}.

Definition set_offset_data (v : Z) (m : CpioInfo) : CpioInfo := {|
  ino := ino m; mode := mode m; uid := uid m; gid := gid m; nlink := nlink m;
  mtime := mtime m; size := size m; devmajor := devmajor m;
  devminor := devminor m; rdevmajor := rdevmajor m; rdevminor := rdevminor m;
  namesize := namesize m; check := check m; name := name m;
  linkname := linkname m; offset := offset m; offset_data := v;
  buf := buf m |}.

(** [fileobj.read(n)] on a file with [content], at position [pos]: at most
    [n] bytes, and all that is left when [n] is negative. *)
Definition read_at (content : bytes) (pos n : Z) : bytes :=
  let rest := skipn (Z.to_nat pos) content in
  if n <? 0 then rest else firstn (Z.to_nat n) rest.

(** [b.rstrip(NUL)] *)
Fixpoint rstrip_NUL (b : bytes) : bytes :=
  match b with
  | [] => []
  | c :: r =>
      match rstrip_NUL r with
      | [] => if decide (c = NUL) then [] else [c]
      | r' => c :: r'
      end
  end.

(** The errors of the reading side: [ReadError], a class of this module,
    and the exceptions of Python. *)
Inductive cpio_error : Type :=
  | ReadError
  | PyError (e : exn).

Inductive outcome (A : Type) : Type :=
  | Done (a : A)
  | Failed (e : cpio_error).
Arguments Done {A} a.
Arguments Failed {A} e.

(** A [CpioFile] object opened with mode ["r"]: [r_fileobj] is the content
    of [self.fileobj], a file that can seek. *)
Record CpioReader : Type := {
  r_fileobj : bytes;
  r_closed : bool;
  r_members : list CpioInfo;
  r_loaded : bool;
  r_offset : Z;
  r_firstmember : option CpioInfo;
}.

(** [self.proc_member(cpioinfo)]: the member and [self.offset]
    afterwards. *)
Definition proc_member (offset : Z) (cpioinfo : CpioInfo) : CpioInfo * Z :=
  let cpioinfo := set_offset_data offset cpioinfo in
  if 0 <? size cpioinfo then (cpioinfo, offset + _word (size cpioinfo))
  else (cpioinfo, offset).

(** The [try] block of [__next__], entered with the header [buf] read at
    [self.offset]: the value of [self.offset] when the block is left, and
    what it returns ([None] at the trailer) or raises.  The reads follow
    one another in the file, from the end of [buf] on. *)
Definition read_member (content : bytes) (offset : Z) (buf : bytes)
  : Z * result (option CpioInfo) :=
  match frombuf buf with
  | Raise e => (offset, Raise e)
  | Ok cpioinfo =>
      let total_header_len :=
        _word (Z.of_nat HEADERSIZE_SVR4 + namesize cpioinfo) in
      let pos := offset + Z.of_nat (length buf) in
      let name_buf :=
        read_at content pos (total_header_len - Z.of_nat HEADERSIZE_SVR4) in
      let pos := pos + Z.of_nat (length name_buf) in
      let name := rstrip_NUL name_buf in
      if decide (name = TRAILER_NAME) then (offset + total_header_len, Ok None)
      else
        match decode name with
        | Raise e => (offset, Raise e)
        | Ok name =>
            let cpioinfo := set_name name cpioinfo in
            let cpioinfo := set_offset offset cpioinfo in
            let offset := offset + total_header_len in
            if issym cpioinfo then
              let linkname_buf := read_at content pos (_word (size cpioinfo)) in
              match decode (rstrip_NUL linkname_buf) with
              | Raise e => (offset, Raise e)
              | Ok linkname =>
                  let cpioinfo := set_linkname linkname cpioinfo in
                  let offset := offset + _word (size cpioinfo) in
                  let cpioinfo := set_size 0 cpioinfo in
                  let '(cpioinfo, offset) := proc_member offset cpioinfo in
                  (offset, Ok (Some cpioinfo))
              end
            else
              let '(cpioinfo, offset) := proc_member offset cpioinfo in
              (offset, Ok (Some cpioinfo))
        end
  end.

Definition with_offset (offset : Z) (t : CpioReader) : CpioReader :=
  {| r_fileobj := r_fileobj t; r_closed := r_closed t;
     r_members := r_members t; r_loaded := r_loaded t;
     r_offset := offset; r_firstmember := r_firstmember t |}.

(** [next(self)]: the member returned, or [None], and the object
    afterwards.  A seek to a negative offset fails, as it does on a file
    opened by name. *)
Definition next (t : CpioReader) : outcome (option CpioInfo * CpioReader) :=
  if r_closed t then Failed (PyError OSError)
  else
    match r_firstmember t with
    | Some m =>
        Done (Some m,
              {| r_fileobj := r_fileobj t; r_closed := r_closed t;
                 r_members := r_members t; r_loaded := r_loaded t;
                 r_offset := r_offset t; r_firstmember := None |})
    | None =>
        if r_offset t <? 0 then Failed (PyError OSError)
        else
          let buf := read_at (r_fileobj t) (r_offset t)
                             (Z.of_nat HEADERSIZE_SVR4) in
          match buf with
          | [] => Done (None, t)
          | _ :: _ =>
              match read_member (r_fileobj t) (r_offset t) buf with
              | (offset, Ok (Some cpioinfo)) =>
                  Done (Some cpioinfo,
                        {| r_fileobj := r_fileobj t; r_closed := r_closed t;
                           r_members := r_members t ++ [cpioinfo];
                           r_loaded := r_loaded t;
                           r_offset := offset; r_firstmember := None |})
              | (offset, Ok None) => Done (None, with_offset offset t)
              | (offset, Raise e) =>
                  if is_ValueError e then
                    if offset =? 0 then Failed ReadError
                    else Done (None, with_offset offset t)
                  else Failed (PyError e)
              end
          end
    end.

(** [CpioFile(name, "r")] on a file with [content]: the first member is
    read at once and kept in [self.firstmember]. *)
Definition CpioFile_init_r (content : bytes) : outcome CpioReader :=
  let t := {| r_fileobj := content; r_closed := false; r_members := [];
              r_loaded := false; r_offset := 0; r_firstmember := None |} in
  match next t with
  | Done (m, t) =>
      Done {| r_fileobj := r_fileobj t; r_closed := r_closed t;
              r_members := r_members t; r_loaded := r_loaded t;
              r_offset := r_offset t; r_firstmember := m |}
  | Failed e => Failed e
  end.

(** [self._load()]: the [while True] loop, run for at most [fuel] calls of
    [next]; [None] when that is not enough. *)
Fixpoint _load (fuel : nat) (t : CpioReader) : option (outcome CpioReader) :=
  match fuel with
  | O => None
  | S fuel' =>
      match next t with
      | Done (Some _, t) => _load fuel' t
      | Done (None, t) =>
          Some (Done {| r_fileobj := r_fileobj t; r_closed := r_closed t;
                        r_members := r_members t; r_loaded := true;
                        r_offset := r_offset t;
                        r_firstmember := r_firstmember t |})
      | Failed e => Some (Failed e)
      end
  end.

(** [self.getmembers()]: the list returned and the object afterwards. *)
Definition getmembers (fuel : nat) (t : CpioReader)
  : option (outcome (list CpioInfo * CpioReader)) :=
  if r_closed t then Some (Failed (PyError OSError))
  else if r_loaded t then Some (Done (r_members t, t))
  else
    match _load fuel t with
    | Some (Done t) => Some (Done (r_members t, t))
    | Some (Failed e) => Some (Failed e)
    | None => None
    end.

(** The loop of [self._getmember(name)], on the list [getmembers]
    returned: from the last member to the first. *)
Definition _getmember (name_ : pystr) (members : list CpioInfo)
  : option CpioInfo :=
  List.find (fun m => bool_decide (name_ = name m)) (rev members).

End Reader.

(** * Lemmas and theorems *)

Example fmt_X_255 : fmt_X 8 255 = b_lit "000000FF".
Proof. reflexivity. Qed.
Example fmt_X_neg : fmt_X 8 (-255) = b_lit "-00000FF".
Proof. reflexivity. Qed.
Example fmt_X_big : fmt_X 8 (2 ^ 32) = b_lit "100000000".
Proof. reflexivity. Qed.
Example fmt_X_magic : fmt_X 6 0x070701 = b_lit "070701".
Proof. reflexivity. Qed.
Example oct_420 : oct 420 = s_lit "0o644".
Proof. reflexivity. Qed.
Example oct_0 : oct 0 = s_lit "0o0".
Proof. reflexivity. Qed.
Example int_644 : py_int 8 (s_lit "644") = Ok 420.
Proof. reflexivity. Qed.
Example int_ff : py_int_b 16 (b_lit "000000fF") = Ok 255.
Proof. reflexivity. Qed.
Example int_8 : py_int 8 (s_lit "8") = Raise ValueError.
Proof. reflexivity. Qed.
Example int_prefix : py_int 8 (s_lit "0o755") = Ok 493.
Proof. reflexivity. Qed.
Example int_blanks : py_int 8 (s_lit " -7_5_5 ") = Ok (-493).
Proof. reflexivity. Qed.
Example int_underscores : py_int 8 (s_lit "7__55") = Raise ValueError.
Proof. reflexivity. Qed.
Example int_arabic_indic : py_int 8 [0x667; 0x665; 0x665]%N = Ok 493.
Proof. reflexivity. Qed.
Example int_b_nbsp : py_int_b 16 (xa0 :: b_lit "1f") = Raise ValueError.
Proof. reflexivity. Qed.
Example pack_le32_ex : pack_le32 0x12345678 = Ok [x78; x56; x34; x12].
Proof. reflexivity. Qed.

(** ** The checksum *)

Section RkcrcFacts.
Import Rockchip RkcrcSpec.

Lemma land_lxor_distr (a b m : Z) :
  Z.land (Z.lxor a b) m = Z.lxor (Z.land a m) (Z.land b m).
Proof.
  apply Z.bits_inj'. intros n Hn.
  rewrite Z.land_spec, !Z.lxor_spec, !Z.land_spec.
  destruct (Z.testbit a n), (Z.testbit b n), (Z.testbit m n); reflexivity.
Qed.

Lemma land_mask32 (x : Z) : Z.land x 0xffffffff = trunc32 x.
Proof. change 0xffffffff with (Z.ones 32). apply Z.land_ones. lia. Qed.

Lemma trunc32_range (x : Z) : 0 <= trunc32 x < 2 ^ 32.
Proof. unfold trunc32. apply Z.mod_pos_bound. lia. Qed.

Lemma trunc32_small (x : Z) : 0 <= x < 2 ^ 32 -> trunc32 x = x.
Proof. intros H. unfold trunc32. now apply Z.mod_small. Qed.

(** [crc & 0x80000000] is nonzero exactly when bit 31 is set. *)
Lemma top_bit_test (crc : Z) :
  negb (Z.land crc 0x80000000 =? 0) = Z.testbit crc 31.
Proof.
  change 0x80000000 with (Z.shiftl 1 31).
  destruct (Z.testbit crc 31) eqn:Hb.
  - apply negb_true_iff, Z.eqb_neq. intros Hz.
    apply (f_equal (fun v => Z.testbit v 31)) in Hz.
    rewrite Z.land_spec, Hb, Z.shiftl_spec, Z.bits_0 in Hz by lia.
    discriminate.
  - apply negb_false_iff, Z.eqb_eq. apply Z.bits_inj'. intros n Hn.
    rewrite Z.land_spec, Z.bits_0, Z.shiftl_spec by lia.
    destruct (Z.eq_dec n 31) as [->|Hne]; [now rewrite Hb|].
    destruct (Z.lt_ge_cases n 31).
    + rewrite (Z.testbit_neg_r 1) by lia. apply andb_false_r.
    + rewrite (Z.bits_above_log2 1) by (simpl; lia). apply andb_false_r.
Qed.

Lemma crc_shift_round (crc : Z) : crc_shift crc = round crc.
Proof.
  unfold crc_shift, round. rewrite top_bit_test.
  destruct (Z.testbit crc 31).
  - rewrite <- land_mask32, land_lxor_distr. reflexivity.
  - apply land_mask32.
Qed.

Lemma iter_crc_shift_round (n : nat) (crc : Z) :
  Nat.iter n crc_shift crc = Nat.iter n round crc.
Proof.
  induction n as [|n IH]; simpl; [reflexivity|].
  now rewrite IH, crc_shift_round.
Qed.

Lemma round_range (acc : Z) : 0 <= round acc < 2 ^ 32.
Proof. unfold round. destruct (Z.testbit acc 31); apply trunc32_range. Qed.

Lemma step_range (acc : Z) (b : byte) : 0 <= step acc b < 2 ^ 32.
Proof. unfold step. simpl. apply round_range. Qed.

Lemma ord_range (b : byte) : 0 <= ord b < 256.
Proof. unfold ord. pose proof (Byte.to_N_bounded b). lia. Qed.

Lemma crc_byte_step (crc : Z) (b : byte) :
  0 <= crc < 2 ^ 32 -> crc_byte crc b = step crc b.
Proof.
  intros Hc. unfold crc_byte, step. rewrite iter_crc_shift_round. f_equal.
  rewrite <- land_mask32, land_lxor_distr, !land_mask32.
  now rewrite (trunc32_small crc).
Qed.

Lemma fold_crc_byte_step (data : bytes) (crc : Z) :
  0 <= crc < 2 ^ 32 -> fold_left crc_byte data crc = fold_left step data crc.
Proof.
  revert crc. induction data as [|b data IH]; intros crc Hc; simpl; [reflexivity|].
  rewrite crc_byte_step by assumption. apply IH, step_range.
Qed.

(** Reading in chunks of 8192 bytes visits every byte once, in order. *)
Lemma rkcrc32_loop_fold (f : bytes) (crc : Z) :
  rkcrc32_loop f crc = fold_left crc_byte f crc.
Proof.
  funelim (rkcrc32_loop f crc).
  - destruct f as [|c f]; [reflexivity|].
    match goal with H : firstn READ_SIZE _ = [] |- _ =>
      pose proof READ_SIZE_pos as Hpos;
      destruct READ_SIZE; [lia|discriminate H] end.
  - match goal with IH : rkcrc32_loop _ _ = fold_left _ _ _ |- _ => rewrite IH end.
    match goal with H : firstn READ_SIZE _ = _ :: _ |- _ => rewrite <- H end.
    rewrite <- fold_left_app, firstn_skipn. reflexivity.
Qed.


Lemma rkcrc32_checksum (content : bytes) : rkcrc32 content = checksum content.
Proof.
  unfold rkcrc32, checksum. rewrite rkcrc32_loop_fold.
  apply fold_crc_byte_step. lia.
Qed.


Example rkcrc32_one_zero_byte : rkcrc32 [x00] = 0.
Proof. reflexivity. Qed.

Example rkcrc32_one_byte : rkcrc32 [x01] = 0x04c10db7.
Proof. reflexivity. Qed.

(** C2.  [rkcrc32] computes, over the bytes of the file, the checksum the
    specification defines: the accumulator starts at 0; each byte is XORed
    in, shifted left 24 bits, and 8 rounds follow, each shifting left one
    bit and XORing with 0x04C10DB7 when bit 31 was set, all truncated to 32
    bits.  For the empty input the result is 0. *)
Theorem rkcrc32_is_spec_checksum :
  (forall content : bytes, rkcrc32 content = checksum content) /\
  rkcrc32 [] = 0.
Proof. split; [apply rkcrc32_checksum | reflexivity]. Qed.

End RkcrcFacts.

(** ** Numbers as text *)

Section NumberFacts.

(** The value of a list of digits, most significant first. *)
Definition digits_val (base : Z) (ds : list Z) (acc : Z) : Z :=
  fold_left (fun a d => a * base + d) ds acc.

Definition digits_ok (base : Z) (ds : list Z) : Prop :=
  Forall (fun d => 0 <= d < base) ds.

Lemma to_digits_acc base fuel n acc :
  to_digits base fuel n acc = to_digits base fuel n [] ++ acc.
Proof.
  revert n acc. induction fuel as [|fuel IH]; intros n acc; simpl; [reflexivity|].
  destruct (n <? base); [reflexivity|].
  rewrite (IH _ (_ :: acc)), (IH _ [_]), <- app_assoc. reflexivity.
Qed.

Lemma digits_val_app base ds1 ds2 acc :
  digits_val base (ds1 ++ ds2) acc = digits_val base ds2 (digits_val base ds1 acc).
Proof. apply fold_left_app. Qed.

(** With fuel for every binary digit of [n], [to_digits] gives digits of the
    base whose value is [n], and at most [k] of them when [n < base ^ k]. *)
Lemma to_digits_spec base fuel n :
  2 <= base -> 0 <= n < 2 ^ Z.of_nat fuel -> (0 < fuel)%nat ->
  let ds := to_digits base fuel n [] in
  digits_val base ds 0 = n /\ digits_ok base ds /\ ds <> [] /\
  forall k, (0 < k)%nat -> n < base ^ Z.of_nat k -> (length ds <= k)%nat.
Proof.
  intros Hb. revert n. induction fuel as [|fuel IH]; intros n Hn Hf; [lia|].
  simpl. destruct (n <? base) eqn:Hlt.
  - apply Z.ltb_lt in Hlt. split; [|split; [|split]].
    + unfold digits_val. simpl. lia.
    + constructor; [lia|constructor].
    + discriminate.
    + intros k Hk _. simpl. lia.
  - apply Z.ltb_ge in Hlt.
    assert (Hq : 0 <= n / base < 2 ^ Z.of_nat fuel).
    { split; [apply Z.div_pos; lia|].
      apply Z.div_lt_upper_bound; [lia|].
      rewrite Nat2Z.inj_succ, Z.pow_succ_r in Hn by lia. nia. }
    assert (Hfuel : (0 < fuel)%nat).
    { destruct fuel; [|lia]. simpl in Hq.
      assert (1 <= n / base) by (apply Z.div_le_lower_bound; lia). lia. }
    destruct (IH (n / base) Hq Hfuel) as (Hv & Hok & Hne & Hlen).
    rewrite to_digits_acc. split; [|split; [|split]].
    + rewrite digits_val_app, Hv. unfold digits_val. simpl.
      pose proof (Z.div_mod n base). lia.
    + apply Forall_app. split; [exact Hok|].
      constructor; [apply Z.mod_pos_bound; lia|constructor].
    + intros Heq. apply app_eq_nil in Heq. destruct Heq; discriminate.
    + intros k Hk Hnk. rewrite length_app. simpl.
      destruct k as [|k]; [lia|].
      destruct k as [|k].
      { simpl in Hnk. lia. }
      assert (Hdiv : n / base < base ^ Z.of_nat (S k)).
      { apply Z.div_lt_upper_bound; [lia|].
        rewrite (Nat2Z.inj_succ (S k)), Z.pow_succ_r in Hnk by lia. lia. }
      specialize (Hlen (S k) ltac:(lia) Hdiv). lia.
Qed.

Lemma digits_spec base n :
  2 <= base -> 0 <= n ->
  digits_val base (digits base n) 0 = n /\ digits_ok base (digits base n) /\
  digits base n <> [] /\
  forall k, (0 < k)%nat -> n < base ^ Z.of_nat k -> (length (digits base n) <= k)%nat.
Proof.
  intros Hb Hn. unfold digits. apply to_digits_spec; [exact Hb| |lia].
  split; [exact Hn|].
  rewrite Nat2Z.inj_succ, Z2Nat.id by apply Z.log2_nonneg.
  destruct (Z.eq_dec n 0) as [->|Hnz]; [reflexivity|].
  apply Z.log2_spec. lia.
Qed.

Lemma digit_val_char upper d :
  0 <= d < 36 -> digit_val (digit_char upper d) = Some d.
Proof.
  intros Hd. unfold digit_val, digit_char.
  destruct (d <? 10) eqn:H10; [apply Z.ltb_lt in H10 | apply Z.ltb_ge in H10];
    [|destruct upper]; rewrite Z2N.id by lia.
  - replace ((48 <=? 48 + d) && (48 + d <=? 57)) with true
      by (symmetry; apply andb_true_iff; split; apply Z.leb_le; lia).
    f_equal. lia.
  - replace ((48 <=? 55 + d) && (55 + d <=? 57)) with false
      by (symmetry; apply andb_false_iff; right; apply Z.leb_gt; lia).
    replace ((65 <=? 55 + d) && (55 + d <=? 90)) with true
      by (symmetry; apply andb_true_iff; split; apply Z.leb_le; lia).
    f_equal. lia.
  - replace ((48 <=? 87 + d) && (87 + d <=? 57)) with false
      by (symmetry; apply andb_false_iff; right; apply Z.leb_gt; lia).
    replace ((65 <=? 87 + d) && (87 + d <=? 90)) with false
      by (symmetry; apply andb_false_iff; right; apply Z.leb_gt; lia).
    replace ((97 <=? 87 + d) && (87 + d <=? 122)) with true
      by (symmetry; apply andb_true_iff; split; apply Z.leb_le; lia).
    f_equal. lia.
Qed.

Lemma digit_char_small upper d : 0 <= d < 36 -> (digit_char upper d < 128)%N.
Proof.
  intros Hd. unfold digit_char.
  destruct (d <? 10) eqn:H10; [apply Z.ltb_lt in H10 | apply Z.ltb_ge in H10];
    [|destruct upper]; lia.
Qed.

(** Reading back the characters of a digit list gives its value. *)
Lemma int_digits_chars upper base ds acc :
  base <= 36 -> digits_ok base ds ->
  int_digits base (map (digit_char upper) ds) acc = Some (digits_val base ds acc).
Proof.
  intros Hb Hok. revert acc. induction Hok as [|d ds Hd Hok IH]; intros acc; simpl.
  - reflexivity.
  - rewrite digit_val_char by lia.
    replace (d <? base) with true by (symmetry; apply Z.ltb_lt; lia).
    apply IH.
Qed.

(** Leading zeros do not change the value. *)
Lemma int_digits_zeros base k cs :
  0 < base -> int_digits base (repeat 48%N k ++ cs) 0 = int_digits base cs 0.
Proof.
  intros Hb. induction k as [|k IH]; [reflexivity|].
  cbn [repeat app int_digits].
  change (digit_val 48%N) with (Some 0). cbv beta iota.
  destruct (0 <? base) eqn:E; [|apply Z.ltb_ge in E; lia].
  rewrite Z.mul_0_l, Z.add_0_l. exact IH.
Qed.

(** What a character read as a digit is not: a blank, a sign, an
    underscore, a character beyond ASCII. *)
Lemma digit_val_class c d :
  digit_val c = Some d ->
  is_space c = false /\ (c =? 43)%N = false /\ (c =? 45)%N = false /\
  (c =? 95)%N = false /\ (c < 127)%N.
Proof.
  unfold digit_val, is_space. intros H.
  assert (Hr : 48 <= Z.of_N c <= 122).
  { destruct ((48 <=? Z.of_N c) && (Z.of_N c <=? 57)) eqn:E1;
      [apply andb_true_iff in E1; lia|].
    destruct ((65 <=? Z.of_N c) && (Z.of_N c <=? 90)) eqn:E2;
      [apply andb_true_iff in E2; lia|].
    destruct ((97 <=? Z.of_N c) && (Z.of_N c <=? 122)) eqn:E3;
      [apply andb_true_iff in E3; lia|discriminate]. }
  assert (Hne : c <> 95%N) by (intros ->; discriminate H).
  repeat split; try (apply N.eqb_neq; lia); [|lia].
  apply orb_false_iff. split; [apply N.eqb_neq; lia|].
  apply andb_false_iff. right. apply N.leb_gt. lia.
Qed.

Lemma int_digits_head base c cs acc v :
  int_digits base (c :: cs) acc = Some v ->
  exists d, digit_val c = Some d /\ (d <? base) = true /\
            int_digits base cs (acc * base + d) = Some v.
Proof.
  cbn [int_digits]. destruct (digit_val c) as [d|]; [|discriminate].
  destruct (d <? base) eqn:E; [|discriminate]. eauto.
Qed.

Lemma int_digits_ascii base cs acc v :
  int_digits base cs acc = Some v -> Forall (fun c => (c < 127)%N) cs.
Proof.
  revert acc. induction cs as [|c cs IH]; intros acc H; [constructor|].
  apply int_digits_head in H. destruct H as (d & Hd & _ & H).
  constructor; [apply (digit_val_class c d Hd)|apply (IH _ H)].
Qed.

Lemma to_ascii_id (s : pystr) :
  Forall (fun c => (c < 127)%N) s -> map to_ascii s = s.
Proof.
  induction 1 as [|c s Hc _ IH]; [reflexivity|].
  cbn [map]. rewrite IH. unfold to_ascii.
  now replace (c <? 127)%N with true by (symmetry; apply N.ltb_lt; exact Hc).
Qed.

(** On a text of ASCII characters, [int] of a [str] reads as [int] of
    [bytes] does. *)
Lemma py_int_ascii base s :
  Forall (fun c => (c < 127)%N) s -> py_int base s = int_literal base s.
Proof. intros H. unfold py_int. now rewrite to_ascii_id. Qed.

(** A text of digits is read to its end. *)
Lemma scan_digits_all base cs prev acc v :
  int_digits base cs acc = Some v -> (cs = [] -> prev <> 95%N) ->
  scan_digits base cs prev acc = Some (v, []).
Proof.
  revert prev acc. induction cs as [|c cs IH]; intros prev acc H Hprev.
  - cbn in H |- *. injection H as <-.
    now replace (prev =? 95)%N with false
      by (symmetry; apply N.eqb_neq; auto).
  - apply int_digits_head in H. destruct H as (d & Hd & Hlt & H).
    destruct (digit_val_class c d Hd) as (_ & _ & _ & Hus & _).
    cbn [scan_digits]. rewrite Hus, Hd, Hlt.
    apply IH; [exact H|]. intros _. now apply N.eqb_neq.
Qed.

(** A text of digits has no prefix of the base: the letter of a prefix is
    no digit of its base. *)
Lemma skip_prefix_digits base cs acc v :
  int_digits base cs acc = Some v -> skip_prefix base cs = cs.
Proof.
  intros H. destruct cs as [|c0 [|c1 r]]; [reflexivity..|].
  apply int_digits_head in H. destruct H as (d0 & _ & _ & H).
  apply int_digits_head in H. destruct H as (d & Hd & Hlt & _).
  apply Z.ltb_lt in Hlt. unfold skip_prefix.
  assert (Hno : forall k dk, digit_val k = Some dk -> base <= dk ->
                  (c1 =? k)%N = true -> False).
  { intros k dk Hk Hb Hc. apply N.eqb_eq in Hc. subst c1.
    rewrite Hk in Hd. injection Hd as <-. lia. }
  destruct (c0 =? 48)%N; [|reflexivity]. cbn [andb].
  destruct (base =? 16) eqn:E16; [apply Z.eqb_eq in E16|];
    [|destruct (base =? 8) eqn:E8; [apply Z.eqb_eq in E8|];
      [|destruct (base =? 2) eqn:E2; [apply Z.eqb_eq in E2|]]]; cbn [andb orb].
  - destruct (c1 =? 120)%N eqn:Ea;
      [exfalso; apply (Hno 120%N 33 eq_refl); [lia|exact Ea]|].
    destruct (c1 =? 88)%N eqn:Eb;
      [exfalso; apply (Hno 88%N 33 eq_refl); [lia|exact Eb]|].
    replace (base =? 8) with false by (symmetry; apply Z.eqb_neq; lia).
    replace (base =? 2) with false by (symmetry; apply Z.eqb_neq; lia).
    reflexivity.
  - destruct (c1 =? 111)%N eqn:Ea;
      [exfalso; apply (Hno 111%N 24 eq_refl); [lia|exact Ea]|].
    destruct (c1 =? 79)%N eqn:Eb;
      [exfalso; apply (Hno 79%N 24 eq_refl); [lia|exact Eb]|].
    replace (base =? 2) with false by (symmetry; apply Z.eqb_neq; lia).
    reflexivity.
  - destruct (c1 =? 98)%N eqn:Ea;
      [exfalso; apply (Hno 98%N 11 eq_refl); [lia|exact Ea]|].
    destruct (c1 =? 66)%N eqn:Eb;
      [exfalso; apply (Hno 66%N 11 eq_refl); [lia|exact Eb]|].
    reflexivity.
  - reflexivity.
Qed.

Lemma int_unsigned_digits base cs v :
  int_digits base cs 0 = Some v -> cs <> [] -> int_unsigned base cs = Ok v.
Proof.
  intros Hv Hne. unfold int_unsigned.
  rewrite (skip_prefix_digits base cs 0 v Hv).
  destruct cs as [|c cs']; [contradiction|].
  destruct (int_digits_head _ _ _ _ _ Hv) as (d & Hd & _ & _).
  destruct (digit_val_class c d Hd) as (_ & _ & _ & -> & _).
  rewrite (scan_digits_all base (c :: cs') 0 0 v Hv) by discriminate.
  reflexivity.
Qed.

(** [int] on a text of digits, and on one with a minus sign in front. *)
Lemma int_literal_digits base cs v :
  int_digits base cs 0 = Some v -> cs <> [] -> int_literal base cs = Ok v.
Proof.
  intros Hv Hne. unfold int_literal.
  destruct cs as [|c cs'] eqn:Ecs; [contradiction|].
  destruct (int_digits_head _ _ _ _ _ Hv) as (d & Hd & _ & _).
  destruct (digit_val_class c d Hd) as (Hsp & Hp & Hm & _ & _).
  cbn [skip_spaces]. rewrite Hsp, Hp, Hm.
  apply int_unsigned_digits; [exact Hv|discriminate].
Qed.

Lemma int_literal_minus base cs v :
  int_digits base cs 0 = Some v -> cs <> [] ->
  int_literal base (45%N :: cs) = Ok (- v).
Proof.
  intros Hv Hne. unfold int_literal. cbn [skip_spaces].
  change (is_space 45) with false. cbv beta iota.
  change (45 =? 43)%N with false. change (45 =? 45)%N with true. cbv beta iota.
  now rewrite (int_unsigned_digits base cs v Hv Hne).
Qed.

Lemma py_int_digits base cs v :
  int_digits base cs 0 = Some v -> cs <> [] -> py_int base cs = Ok v.
Proof.
  intros Hv Hne. rewrite py_int_ascii by exact (int_digits_ascii _ _ _ _ Hv).
  now apply int_literal_digits.
Qed.

(** The digits that the formatting printed have the value printed. *)
Lemma fmt_digits_value upper base width v :
  2 <= base <= 36 -> 0 <= v ->
  int_digits base (fmt_digits upper base width v) 0 = Some v /\
  fmt_digits upper base width v <> [].
Proof.
  intros Hb Hv. unfold fmt_digits.
  replace (v <? 0) with false by (symmetry; apply Z.ltb_ge; lia).
  rewrite Z.abs_eq by lia.
  destruct (digits_spec base v) as (Hval & Hok & Hne & _); [lia..|].
  split.
  - rewrite int_digits_zeros by lia.
    rewrite (int_digits_chars upper base) by (assumption || lia).
    now rewrite Hval.
  - intros Heq. apply app_eq_nil in Heq. destruct Heq as [_ Heq].
    apply map_eq_nil in Heq. contradiction.
Qed.

(** [int(s, base)] reads back what the formatting printed. *)
Lemma py_int_fmt upper base width v :
  2 <= base <= 36 -> 0 <= v -> py_int base (fmt_digits upper base width v) = Ok v.
Proof.
  intros Hb Hv. destruct (fmt_digits_value upper base width v Hb Hv).
  now apply py_int_digits.
Qed.

Lemma int_literal_fmt upper base width v :
  2 <= base <= 36 -> 0 <= v ->
  int_literal base (fmt_digits upper base width v) = Ok v.
Proof.
  intros Hb Hv. destruct (fmt_digits_value upper base width v Hb Hv).
  now apply int_literal_digits.
Qed.

Lemma to_N_chr (n : N) : (n < 256)%N -> Byte.to_N (chr n) = n.
Proof.
  intros Hn. unfold chr. destruct (Byte.of_N n) as [b|] eqn:Hb.
  - now apply Byte.to_of_N.
  - apply Byte.of_N_None_iff in Hb. lia.
Qed.

Lemma map_to_N_chr (l : pystr) :
  Forall (fun c => (c < 256)%N) l -> map Byte.to_N (map chr l) = l.
Proof.
  induction 1 as [|c l Hc Hl IH]; simpl; [reflexivity|].
  now rewrite to_N_chr, IH.
Qed.

Lemma fmt_digits_small upper base width v :
  2 <= base <= 36 -> Forall (fun c => (c < 256)%N) (fmt_digits upper base width v).
Proof.
  intros Hb. unfold fmt_digits.
  destruct (digits_spec base (Z.abs v)) as (_ & Hok & _); [lia..|].
  assert (Hds : Forall (fun c => (c < 256)%N)
                  (map (digit_char upper) (digits base (Z.abs v)))).
  { apply List.Forall_map. eapply List.Forall_impl; [|exact Hok].
    intros d Hd. cbv beta in Hd |- *.
    pose proof (digit_char_small upper d ltac:(lia)). lia. }
  assert (Hz : forall k, Forall (fun c => (c < 256)%N) (repeat 48%N k)).
  { intros k. apply Forall_forall. intros c Hc.
    apply list_elem_of_In, repeat_spec in Hc. subst. lia. }
  destruct (v <? 0).
  - constructor; [lia|]. apply Forall_app. split; [apply Hz|exact Hds].
  - apply Forall_app. split; [apply Hz|exact Hds].
Qed.

(** [int(b"%0wX" % v, 16) == v] *)
Lemma py_int_fmt_X width v : 0 <= v -> py_int_b 16 (fmt_X width v) = Ok v.
Proof.
  intros Hv. unfold py_int_b, fmt_X.
  rewrite map_to_N_chr by (apply fmt_digits_small; lia).
  apply int_literal_fmt; lia.
Qed.

(** A field of [width] characters holds every value below [16 ^ width]. *)
Lemma length_fmt_X width v :
  (0 < width)%nat -> 0 <= v < 16 ^ Z.of_nat width -> length (fmt_X width v) = width.
Proof.
  intros Hw Hv. unfold fmt_X, fmt_digits.
  replace (v <? 0) with false by (symmetry; apply Z.ltb_ge; lia).
  rewrite Z.abs_eq by lia.
  destruct (digits_spec 16 v) as (_ & _ & _ & Hlen); [lia..|].
  specialize (Hlen width Hw ltac:(lia)).
  rewrite length_map, length_app, repeat_length, length_map. lia.
Qed.

(** Whatever the value, the field is at least [width] characters long. *)
Lemma length_fmt_X_ge width v : (width <= length (fmt_X width v))%nat.
Proof.
  unfold fmt_X, fmt_digits. destruct (v <? 0);
    rewrite length_map; simpl; rewrite ?length_app, ?repeat_length, ?length_map; lia.
Qed.

End NumberFacts.

(** ** The cpio header: [tobuf] and [frombuf] *)

Section HeaderFacts.
Import Cpio.

(** A value that fits a field of eight hex digits. *)
Definition fits32 (v : Z) : Prop := 0 <= v < 2 ^ 32.

Lemma length_fmt_X_8 v : fits32 v -> length (fmt_X 8 v) = 8%nat.
Proof. intros Hv. apply length_fmt_X; [lia|]. exact Hv. Qed.

(** [pad_to_word] appends NUL bytes, fewer than four, up to a multiple of
    four. *)
Lemma pad_to_word_spec (b : bytes) :
  exists k : nat,
    pad_to_word b = b ++ repeat NUL k /\ (k < 4)%nat /\
    (Z.of_nat (length b) + Z.of_nat k) mod 4 = 0 /\
    (Z.of_nat (length b) mod 4 = 0 -> k = 0%nat).
Proof.
  unfold pad_to_word, WORDSIZE.
  pose proof (Z.mod_pos_bound (Z.of_nat (length b)) 4 ltac:(lia)) as Hr.
  pose proof (Z.div_mod (Z.of_nat (length b)) 4 ltac:(lia)) as Hdm.
  destruct (Z.of_nat (length b) mod 4 =? 0) eqn:He.
  - apply Z.eqb_eq in He. exists 0%nat. simpl. rewrite app_nil_r, Z.add_0_r.
    repeat split; (lia || assumption || reflexivity).
  - apply Z.eqb_neq in He.
    exists (Z.to_nat (4 - Z.of_nat (length b) mod 4)).
    split; [reflexivity|]. split; [lia|]. split; [|intros; lia].
    rewrite Z2Nat.id by lia.
    replace (Z.of_nat (length b) + (4 - Z.of_nat (length b) mod 4))
      with (4 * (Z.of_nat (length b) / 4 + 1)) by lia.
    rewrite Z.mul_comm. apply Z.mod_mul. lia.
Qed.

Lemma length_pad_to_word (b : bytes) :
  Z.of_nat (length (pad_to_word b)) mod 4 = 0.
Proof.
  destruct (pad_to_word_spec b) as (k & -> & _ & Hk & _).
  rewrite length_app, repeat_length, Nat2Z.inj_add. exact Hk.
Qed.

Ltac explode_list H :=
  repeat match type of H with
         | length ?l = _ =>
             destruct l; simpl in H; try discriminate H; try injection H as H
         end.

(** The slices [frombuf] takes, on a buffer made of a magic of six bytes
    and twelve fields of eight. *)
Lemma slices_of_fields (f0 f1 f2 f3 f4 f5 f6 f7 f8 f9 f10 f11 f12 rest : bytes) :
  length f0 = 6%nat -> length f1 = 8%nat -> length f2 = 8%nat ->
  length f3 = 8%nat -> length f4 = 8%nat -> length f5 = 8%nat ->
  length f6 = 8%nat -> length f7 = 8%nat -> length f8 = 8%nat ->
  length f9 = 8%nat -> length f10 = 8%nat -> length f11 = 8%nat ->
  length f12 = 8%nat ->
  let b := firstn 110 (f0 ++ f1 ++ f2 ++ f3 ++ f4 ++ f5 ++ f6 ++ f7 ++ f8 ++
                       f9 ++ f10 ++ f11 ++ f12 ++ rest) in
  slice 6 14 b = f1 /\ slice 14 22 b = f2 /\ slice 22 30 b = f3 /\
  slice 30 38 b = f4 /\ slice 38 46 b = f5 /\ slice 46 54 b = f6 /\
  slice 54 62 b = f7 /\ slice 62 70 b = f8 /\ slice 70 78 b = f9 /\
  slice 78 86 b = f10 /\ slice 86 94 b = f11 /\ slice 94 102 b = f12 /\
  slice 102 110 b = firstn 8 rest /\ firstn 6 b = f0.
Proof.
  intros H0 H1 H2 H3 H4 H5 H6 H7 H8 H9 H10 H11 H12.
  explode_list H0. explode_list H1. explode_list H2. explode_list H3.
  explode_list H4. explode_list H5. explode_list H6. explode_list H7.
  explode_list H8. explode_list H9. explode_list H10. explode_list H11.
  explode_list H12.
  cbv zeta. unfold slice. cbn [app firstn skipn Nat.sub].
  repeat split; try reflexivity.
  rewrite skipn_O, firstn_firstn. reflexivity.
Qed.

(** A character that [int(s, base)] accepts as a digit. *)
Definition is_digit (base : Z) (c : N) : Prop :=
  exists d, digit_val c = Some d /\ d < base.

Lemma int_digits_total base cs acc :
  Forall (is_digit base) cs -> exists v, int_digits base cs acc = Some v.
Proof.
  intros Hcs. revert acc.
  induction Hcs as [|c cs (d & Hd & Hlt) Hcs IH]; intros acc; simpl.
  - eauto.
  - rewrite Hd. replace (d <? base) with true by (symmetry; apply Z.ltb_lt; lia).
    apply IH.
Qed.

Lemma int_literal_total base cs :
  Forall (is_digit base) cs -> cs <> [] -> exists v, int_literal base cs = Ok v.
Proof.
  intros Hcs Hne. destruct (int_digits_total base cs 0 Hcs) as [v Hv].
  exists v. now apply int_literal_digits.
Qed.

Lemma int_literal_minus_total base cs :
  Forall (is_digit base) cs -> cs <> [] ->
  exists v, int_literal base (45%N :: cs) = Ok v.
Proof.
  intros Hcs Hne. destruct (int_digits_total base cs 0 Hcs) as [v Hv].
  exists (- v). now apply int_literal_minus.
Qed.

Lemma fmt_digits_chars upper base v :
  2 <= base <= 36 ->
  let ds := map (digit_char upper) (digits base (Z.abs v)) in
  Forall (is_digit base) ds /\ ds <> [].
Proof.
  intros Hb. destruct (digits_spec base (Z.abs v)) as (_ & Hok & Hne & _); [lia..|].
  split.
  - apply List.Forall_map. eapply List.Forall_impl; [|exact Hok].
    intros d Hd. cbv beta in Hd. exists d.
    split; [apply digit_val_char|]; lia.
  - intros Heq. apply map_eq_nil in Heq. contradiction.
Qed.

Lemma zeros_digits base k : 0 < base -> Forall (is_digit base) (repeat 48%N k).
Proof.
  intros Hb. apply Forall_forall. intros c Hc.
  apply list_elem_of_In, repeat_spec in Hc. subst.
  exists 0. split; [reflexivity|lia].
Qed.

(** The first eight characters of a printed field can always be read
    back, whatever the value, even when it overflows the field. *)
Lemma py_int_b_fmt_X_prefix (v : Z) :
  exists r, py_int_b 16 (firstn 8 (fmt_X 8 v)) = Ok r.
Proof.
  unfold py_int_b, fmt_X. rewrite <- !firstn_map.
  rewrite map_to_N_chr by (apply fmt_digits_small; lia).
  unfold fmt_digits.
  destruct (fmt_digits_chars true 16 v ltac:(lia)) as [Hds Hne].
  set (ds := map (digit_char true) (digits 16 (Z.abs v))) in *.
  destruct (v <? 0).
  - cbn [firstn]. apply int_literal_minus_total.
    + apply Forall_take, Forall_app. split; [apply zeros_digits; lia|exact Hds].
    + intros Heq. apply (f_equal (@length N)) in Heq.
      rewrite length_firstn, length_app, repeat_length in Heq.
      assert (0 < length ds)%nat by (destruct ds; [contradiction|simpl; lia]).
      change (length (@nil N)) with 0%nat in Heq. lia.
  - apply int_literal_total.
    + apply Forall_take, Forall_app. split; [apply zeros_digits; lia|exact Hds].
    + intros Heq. apply (f_equal (@length N)) in Heq.
      rewrite length_firstn, length_app, repeat_length in Heq.
      assert (0 < length ds)%nat by (destruct ds; [contradiction|simpl; lia]).
      change (length (@nil N)) with 0%nat in Heq. lia.
Qed.

Lemma ensure_binary_Ok (s : pystr) (b : bytes) :
  ensure_binary s = Ok b -> utf8_encode s = Some b.
Proof. unfold ensure_binary. destruct (utf8_encode s); congruence. Qed.

(** [tobuf] without a link name: the fields, the encoded name, a NUL and
    the padding. *)
Lemma tobuf_no_link (m : CpioInfo) (b : bytes) :
  linkname m = [] -> tobuf m = Ok b ->
  exists name_b k,
    ensure_binary (name m) = Ok name_b /\ (k < 4)%nat /\
    b = header_fields m ++ name_b ++ [NUL] ++ repeat NUL k /\
    (Z.of_nat (length (header_fields m ++ name_b ++ [NUL])) mod 4 = 0 -> k = 0%nat).
Proof.
  intros Hl Hb. unfold tobuf in Hb.
  destruct (ensure_binary (name m)) as [name_b|e] eqn:Hn; [|discriminate].
  cbn [bind] in Hb. rewrite decide_True in Hb by exact Hl.
  assert (Heq : b = pad_to_word (header_fields m ++ name_b ++ [NUL]))
    by congruence.
  clear Hb. subst b.
  destruct (pad_to_word_spec (header_fields m ++ name_b ++ [NUL]))
    as (k & Hp & Hk & _ & Hz).
  exists name_b, k. split; [reflexivity|]. split; [exact Hk|]. split; [|exact Hz].
  rewrite Hp, <- !app_assoc. reflexivity.
Qed.

(** C3.  Header round trip: for a member with an empty link name whose
    ino, mode, uid, gid, nlink, mtime, size, devmajor, devminor, rdevmajor
    and rdevminor each fit in eight hex digits (and whose name is short
    enough for its length field to fit, too), [frombuf] on the first 110
    bytes of [tobuf]'s result returns a member with the same eleven fields
    and with [namesize] equal to [len(name) + 1]; and the header begins
    with the six hex digits 070701. *)
Theorem frombuf_tobuf_roundtrip (m : CpioInfo) (b : bytes) :
  linkname m = [] ->
  fits32 (ino m) -> fits32 (mode m) -> fits32 (uid m) -> fits32 (gid m) ->
  fits32 (nlink m) -> fits32 (mtime m) -> fits32 (size m) ->
  fits32 (devmajor m) -> fits32 (devminor m) ->
  fits32 (rdevmajor m) -> fits32 (rdevminor m) ->
  fits32 (Z.of_nat (length (name m)) + 1) ->
  tobuf m = Ok b ->
  exists m',
    frombuf (firstn HEADERSIZE_SVR4 b) = Ok m' /\
    ino m' = ino m /\ mode m' = mode m /\ uid m' = uid m /\ gid m' = gid m /\
    nlink m' = nlink m /\ mtime m' = mtime m /\ size m' = size m /\
    devmajor m' = devmajor m /\ devminor m' = devminor m /\
    rdevmajor m' = rdevmajor m /\ rdevminor m' = rdevminor m /\
    namesize m' = Z.of_nat (length (name m)) + 1 /\
    firstn 6 b = b_lit "070701".
Proof.
  intros Hl Hino Hmode Huid Hgid Hnlink Hmtime Hsize Hdmaj Hdmin Hrmaj Hrmin
    Hname Hb.
  destruct (tobuf_no_link m b Hl Hb) as (name_b & k & _ & _ & -> & _).
  assert (Hsf : size_field m = size m).
  { unfold size_field. rewrite decide_True by exact Hl. rewrite Hl.
    destruct (size m =? 0) eqn:E; [apply Z.eqb_eq in E; simpl; lia|reflexivity]. }
  unfold header_fields. rewrite Hsf, <- !app_assoc.
  destruct (slices_of_fields
              (fmt_X 6 MAGIC_NEWC) (fmt_X 8 (ino m)) (fmt_X 8 (mode m))
              (fmt_X 8 (uid m)) (fmt_X 8 (gid m)) (fmt_X 8 (nlink m))
              (fmt_X 8 (mtime m)) (fmt_X 8 (size m)) (fmt_X 8 (devmajor m))
              (fmt_X 8 (devminor m)) (fmt_X 8 (rdevmajor m))
              (fmt_X 8 (rdevminor m))
              (fmt_X 8 (Z.of_nat (length (name m)) + 1))
              (fmt_X 8 (check m) ++ name_b ++ [NUL] ++ repeat NUL k))
    as (S1 & S2 & S3 & S4 & S5 & S6 & S7 & S8 & S9 & S10 & S11 & S12 & S13 & S0);
    try (apply length_fmt_X_8; assumption); [reflexivity|].
  destruct (py_int_b_fmt_X_prefix (check m)) as [c Hc].
  assert (S13' : slice 102 110
                   (firstn 110
                      (fmt_X 6 MAGIC_NEWC ++ fmt_X 8 (ino m) ++ fmt_X 8 (mode m) ++
                       fmt_X 8 (uid m) ++ fmt_X 8 (gid m) ++ fmt_X 8 (nlink m) ++
                       fmt_X 8 (mtime m) ++ fmt_X 8 (size m) ++
                       fmt_X 8 (devmajor m) ++ fmt_X 8 (devminor m) ++
                       fmt_X 8 (rdevmajor m) ++ fmt_X 8 (rdevminor m) ++
                       fmt_X 8 (Z.of_nat (length (name m)) + 1) ++
                       fmt_X 8 (check m) ++ name_b ++ [NUL] ++ repeat NUL k))
                 = firstn 8 (fmt_X 8 (check m))).
  { rewrite S13, firstn_app.
    pose proof (length_fmt_X_ge 8 (check m)) as Hge.
    replace (8 - length (fmt_X 8 (check m)))%nat with 0%nat by lia.
    cbn [firstn]. apply app_nil_r. }
  unfold frombuf, HEADERSIZE_SVR4.
  rewrite S1, S2, S3, S4, S5, S6, S7, S8, S9, S10, S11, S12, S13', Hc.
  rewrite !py_int_fmt_X by (unfold fits32 in *; lia).
  cbn [bind]. eexists. split; [reflexivity|]. cbn.
  repeat split; reflexivity.
Qed.

End HeaderFacts.

(** ** A sample member *)

Definition sample_member : Cpio.CpioInfo :=
  Cpio.set_size 5 (Cpio.set_mtime 1700000000 (Cpio.set_gid 1000
    (Cpio.set_uid 1000 (Cpio.set_mode 0x81A4 (Cpio.CpioInfo_init (s_lit "a.txt")))))).

Definition sample_buf : bytes :=
  match Cpio.tobuf sample_member with
  | Ok b => b
  | Raise _ => []
  end.

Lemma frombuf_tobuf_roundtrip_witness :
  Cpio.tobuf sample_member = Ok sample_buf /\
  exists m',
    Cpio.frombuf (firstn Cpio.HEADERSIZE_SVR4 sample_buf) = Ok m' /\
    Cpio.ino m' = 0 /\ Cpio.mode m' = 0x81A4 /\ Cpio.uid m' = 1000 /\
    Cpio.gid m' = 1000 /\ Cpio.nlink m' = 1 /\ Cpio.mtime m' = 1700000000 /\
    Cpio.size m' = 5 /\ Cpio.devmajor m' = 0 /\ Cpio.devminor m' = 0 /\
    Cpio.rdevmajor m' = 0 /\ Cpio.rdevminor m' = 0 /\
    Cpio.namesize m' = 6 /\
    firstn 6 sample_buf = b_lit "070701".
Proof.
  split; [reflexivity|].
  apply (frombuf_tobuf_roundtrip sample_member sample_buf);
    try (unfold fits32; simpl; lia); reflexivity.
Defined.

(** ** Alignment: [tobuf] and [addfile] *)

Section AlignmentFacts.
Import Cpio.

Lemma bind_Ok {A B} (r : result A) (k : A -> result B) (b : B) :
  bind r k = Ok b -> exists a, r = Ok a /\ k a = Ok b.
Proof. destruct r as [a|e]; simpl; [eauto|discriminate]. Qed.

(** Whatever the member, the block [tobuf] returns is a whole number of
    words. *)
Lemma tobuf_aligned (m : CpioInfo) (b : bytes) :
  tobuf m = Ok b -> Z.of_nat (length b) mod 4 = 0.
Proof.
  unfold tobuf. intros Hb.
  apply bind_Ok in Hb. destruct Hb as (name_b & _ & Hb).
  destruct (decide (linkname m = [])).
  - injection Hb as <-. apply length_pad_to_word.
  - apply bind_Ok in Hb. destruct Hb as (link_b & _ & Hb).
    injection Hb as <-. apply length_pad_to_word.
Qed.

(** ASCII text is encoded character by character. *)
Lemma utf8_encode_ascii (s : pystr) :
  Forall (fun c => (c < 128)%N) s -> utf8_encode s = Some (map chr s).
Proof.
  induction 1 as [|c s Hc Hs IH]; [reflexivity|].
  cbn [utf8_encode map]. rewrite IH. unfold utf8_encode_char.
  replace (c <? 128)%N with true by (symmetry; apply N.ltb_lt; exact Hc).
  reflexivity.
Qed.

(** Every printed field of the header fits its width. *)
Definition header_fits (m : CpioInfo) : Prop :=
  fits32 (ino m) /\ fits32 (mode m) /\ fits32 (uid m) /\ fits32 (gid m) /\
  fits32 (nlink m) /\ fits32 (mtime m) /\ fits32 (size_field m) /\
  fits32 (devmajor m) /\ fits32 (devminor m) /\ fits32 (rdevmajor m) /\
  fits32 (rdevminor m) /\ fits32 (Z.of_nat (length (name m)) + 1) /\
  fits32 (check m).

Lemma length_header_fields (m : CpioInfo) :
  header_fits m -> length (header_fields m) = HEADERSIZE_SVR4.
Proof.
  intros (H1 & H2 & H3 & H4 & H5 & H6 & H7 & H8 & H9 & H10 & H11 & H12 & H13).
  unfold header_fields. rewrite !length_app.
  rewrite !length_fmt_X_8 by assumption. reflexivity.
Qed.

(** With fields that fit and an ASCII name of [n] characters, the header
    and name block is [110 + n + 1] bytes and the padding that brings it to
    the next multiple of four. *)
Lemma tobuf_ascii_name (m : CpioInfo) (b : bytes) :
  linkname m = [] -> header_fits m ->
  Forall (fun c => (c < 128)%N) (name m) ->
  tobuf m = Ok b ->
  exists k : nat,
    b = header_fields m ++ map chr (name m) ++ [NUL] ++ repeat NUL k /\
    (k < 4)%nat /\
    (110 + Z.of_nat (length (name m)) + 1 + Z.of_nat k) mod 4 = 0.
Proof.
  intros Hl Hfits Hascii Hb.
  pose proof (tobuf_aligned m b Hb) as Hal.
  destruct (tobuf_no_link m b Hl Hb) as (name_b & k & Hn & Hk & -> & _).
  apply ensure_binary_Ok in Hn. rewrite utf8_encode_ascii in Hn by exact Hascii.
  injection Hn as <-. exists k. split; [reflexivity|]. split; [exact Hk|].
  rewrite !length_app, length_header_fields, length_map, repeat_length in Hal
    by exact Hfits.
  unfold HEADERSIZE_SVR4 in Hal. simpl length in Hal.
  rewrite <- Hal. f_equal. lia.
Qed.

(** The payload part of [addfile] always ends on a word boundary. *)
Lemma add_payload_aligned (src : bytes) (size offset : Z) (data : bytes) (off' : Z) :
  add_payload src size offset = Ok (data, off') -> off' mod 4 = 0.
Proof.
  unfold add_payload, WORDSIZE. intros H.
  apply bind_Ok in H. destruct H as (d & _ & H).
  pose proof (Z.mod_pos_bound (offset + size) 4 ltac:(lia)) as Hr.
  pose proof (Z.div_mod (offset + size) 4 ltac:(lia)) as Hdm.
  destruct (0 <? (offset + size) mod 4) eqn:E; injection H as _ <-.
  - replace (offset + size + (4 - (offset + size) mod 4))
      with (((offset + size) / 4 + 1) * 4) by lia.
    apply Z.mod_mul. lia.
  - apply Z.ltb_ge in E. lia.
Qed.

(** What a successful [addfile] did. *)
Lemma addfile_Ok (t : CpioFile) (m : CpioInfo) (fileobj : option bytes) (t' : CpioFile) :
  addfile t m fileobj = Ok t' ->
  f_closed t = false /\ (f_mode t = ModeA \/ f_mode t = ModeW) /\
  exists b payload off,
    tobuf (track_hardlink t m).1 = Ok b /\
    match fileobj with
    | Some src =>
        add_payload src (size (track_hardlink t m).1)
          (f_offset t + Z.of_nat (length b)) = Ok (payload, off)
    | None => payload = [] /\ off = f_offset t + Z.of_nat (length b)
    end /\
    t' = {| f_mode := f_mode t; f_closed := false;
            f_members := f_members t ++ [set_buf (Some b) (track_hardlink t m).1];
            f_loaded := f_loaded t; f_offset := off;
            f_inodes := (track_hardlink t m).2;
            f_hardlinks := f_hardlinks t;
            f_out := f_out t ++ b ++ payload |}.
Proof.
  unfold addfile, _check. intros H.
  destruct (f_closed t) eqn:Hc; [discriminate|].
  destruct (bool_decide (f_mode t ∈ [ModeA; ModeW])) eqn:Hm; [|discriminate].
  apply bool_decide_eq_true in Hm.
  split; [reflexivity|]. split.
  { apply elem_of_cons in Hm. destruct Hm as [Hm|Hm]; [now left|].
    apply elem_of_cons in Hm. destruct Hm as [Hm|Hm]; [now right|].
    inversion Hm. }
  cbn [bind] in H.
  destruct (track_hardlink t m) as [m' inodes'] eqn:Ht. cbn [fst snd].
  apply bind_Ok in H. destruct H as (b & Hb & H).
  apply bind_Ok in H. destruct H as ([payload off] & Hp & H).
  exists b, payload, off. split; [exact Hb|]. split.
  - destruct fileobj as [src|]; [exact Hp|]. injection Hp as <- <-. auto.
  - injection H as <-. reflexivity.
Qed.

(** [addfile] keeps the offset on a word boundary. *)
Lemma addfile_offset_aligned (t : CpioFile) (m : CpioInfo) (fileobj : option bytes)
    (t' : CpioFile) :
  f_offset t mod 4 = 0 -> addfile t m fileobj = Ok t' -> f_offset t' mod 4 = 0.
Proof.
  intros Hal H. apply addfile_Ok in H.
  destruct H as (_ & _ & b & payload & off & Hb & Hp & ->). cbn [f_offset].
  destruct fileobj as [src|].
  - eapply add_payload_aligned. exact Hp.
  - destruct Hp as [_ ->]. apply tobuf_aligned in Hb.
    rewrite Z.add_mod, Hal, Hb by lia. reflexivity.
Qed.

Lemma addfiles_offset_aligned (calls : list (CpioInfo * option bytes))
    (t t' : CpioFile) :
  f_offset t mod 4 = 0 -> addfiles t calls = Ok t' -> f_offset t' mod 4 = 0.
Proof.
  revert t. induction calls as [|[m fileobj] calls IH]; intros t Hal H.
  - injection H as <-. exact Hal.
  - cbn [addfiles] in H. apply bind_Ok in H. destruct H as (t1 & H1 & H).
    eapply IH; [|exact H]. eapply addfile_offset_aligned; eassumption.
Qed.

Lemma firstn_plus {A} (a b : nat) (l : list A) :
  firstn (a + b) l = firstn a l ++ firstn b (skipn a l).
Proof.
  revert l. induction a as [|a IH]; intros l; [reflexivity|].
  destruct l as [|x l]; simpl.
  - now rewrite firstn_nil.
  - now rewrite IH.
Qed.

Lemma copy_blocks_spec (k bs : nat) (src w rest : bytes) :
  copy_blocks k bs src = Ok (w, rest) ->
  w = firstn (k * bs) src /\ rest = skipn (k * bs) src /\
  length w = (k * bs)%nat.
Proof.
  revert src w rest. induction k as [|k IH]; intros src w rest H.
  - injection H as <- <-. auto.
  - cbn [copy_blocks f_read] in H.
    destruct (length (firstn bs src) <? bs)%nat eqn:E; [discriminate|].
    apply Nat.ltb_ge in E.
    apply bind_Ok in H. destruct H as ([w1 r1] & H1 & H).
    injection H as <- <-. cbn [fst snd].
    destruct (IH _ _ _ H1) as (-> & -> & Hlen).
    rewrite length_firstn in E.
    replace (S k * bs)%nat with (bs + k * bs)%nat by lia.
    split; [now rewrite firstn_plus|]. split.
    + rewrite skipn_skipn. f_equal. lia.
    + rewrite length_app, Hlen, length_firstn. lia.
Qed.

(** [copyfileobj] with a length that is not negative copies exactly that
    many bytes, the first ones of the source. *)
Lemma copyfileobj_spec (src : bytes) (n : Z) (data : bytes) :
  0 <= n -> copyfileobj src n = Ok data ->
  data = firstn (Z.to_nat n) src /\ Z.of_nat (length data) = n.
Proof.
  intros Hn. unfold copyfileobj.
  destruct (n =? 0) eqn:E0.
  { apply Z.eqb_eq in E0. subst n. intros H. injection H as <-. auto. }
  intros H. apply bind_Ok in H. destruct H as ([w rest] & Hblocks & H).
  apply copy_blocks_spec in Hblocks. destruct Hblocks as (-> & -> & Hlen).
  cbn [fst snd] in H.
  pose proof (Z.mod_pos_bound n (16 * 1024) ltac:(lia)) as Hr.
  pose proof (Z.div_mod n (16 * 1024) ltac:(lia)) as Hdm.
  assert (Hq : 0 <= n / (16 * 1024)) by (apply Z.div_pos; lia).
  set (q := Z.to_nat (n / (16 * 1024))) in *.
  set (bs := Z.to_nat (16 * 1024)) in *.
  assert (Hqb : Z.of_nat (q * bs) = 16 * 1024 * (n / (16 * 1024))).
  { unfold q, bs. rewrite Nat2Z.inj_mul, !Z2Nat.id by lia. lia. }
  destruct (n mod (16 * 1024) =? 0) eqn:Er.
  - apply Z.eqb_eq in Er. injection H as <-.
    replace (Z.to_nat n) with (q * bs)%nat by lia.
    split; [reflexivity|]. lia.
  - apply Z.eqb_neq in Er. cbn [f_read fst] in H.
    destruct (Z.of_nat (length (firstn (Z.to_nat (n mod (16 * 1024)))
                                  (skipn (q * bs) src)))
              <? n mod (16 * 1024)) eqn:El; [discriminate|].
    apply Z.ltb_ge in El. injection H as <-.
    replace (Z.to_nat n) with (q * bs + Z.to_nat (n mod (16 * 1024)))%nat by lia.
    split; [now rewrite firstn_plus|].
    rewrite length_app, Hlen. rewrite length_firstn in El |- *. lia.
Qed.

Lemma add_payload_spec (src : bytes) (n offset : Z) (data : bytes) (off' : Z) :
  0 <= n -> add_payload src n offset = Ok (data, off') ->
  exists k : nat,
    data = firstn (Z.to_nat n) src ++ repeat NUL k /\
    Z.of_nat (length (firstn (Z.to_nat n) src)) = n /\
    (k < 4)%nat /\ off' = offset + n + Z.of_nat k.
Proof.
  intros Hn. unfold add_payload, WORDSIZE. intros H.
  apply bind_Ok in H. destruct H as (d & Hd & H).
  apply copyfileobj_spec in Hd; [|exact Hn]. destruct Hd as [-> Hlen].
  pose proof (Z.mod_pos_bound (offset + n) 4 ltac:(lia)) as Hr.
  destruct (0 <? (offset + n) mod 4) eqn:E; injection H as <- <-.
  - exists (Z.to_nat (4 - (offset + n) mod 4)).
    split; [reflexivity|]. split; [exact Hlen|]. lia.
  - exists 0%nat. rewrite app_nil_r. split; [reflexivity|].
    split; [exact Hlen|]. lia.
Qed.

Lemma track_hardlink_size (t : CpioFile) (m : CpioInfo) :
  size (track_hardlink t m).1 = size m \/ size (track_hardlink t m).1 = 0.
Proof.
  unfold track_hardlink. destruct (1 <? nlink m); [|now left].
  destruct (if f_hardlinks t then f_inodes t !! ino m else None);
    [now right|now left].
Qed.

(** When payload sizes are not negative, the offset of a written archive
    is the number of bytes written. *)
Lemma addfile_offset_written (t : CpioFile) (m : CpioInfo) (fileobj : option bytes)
    (t' : CpioFile) :
  0 <= size m -> f_offset t = Z.of_nat (length (f_out t)) ->
  addfile t m fileobj = Ok t' -> f_offset t' = Z.of_nat (length (f_out t')).
Proof.
  intros Hs Hoff H. apply addfile_Ok in H.
  destruct H as (_ & _ & b & payload & off & Hb & Hp & ->).
  cbn [f_offset f_out]. rewrite !length_app, !Nat2Z.inj_add, <- Hoff.
  destruct fileobj as [src|].
  - apply add_payload_spec in Hp.
    + destruct Hp as (k & -> & Hlen & _ & ->).
      rewrite length_app, repeat_length, Nat2Z.inj_add, Hlen. lia.
    + destruct (track_hardlink_size t m) as [-> | ->]; lia.
  - destruct Hp as [-> ->]. simpl. lia.
Qed.

Lemma addfiles_offset_written (calls : list (CpioInfo * option bytes))
    (t t' : CpioFile) :
  Forall (fun c => 0 <= size c.1) calls ->
  f_offset t = Z.of_nat (length (f_out t)) ->
  addfiles t calls = Ok t' -> f_offset t' = Z.of_nat (length (f_out t')).
Proof.
  intros Hsizes. revert t.
  induction Hsizes as [|[m fileobj] calls Hs Hsizes IH]; intros t Hoff H.
  - injection H as <-. exact Hoff.
  - cbn [addfiles] in H. apply bind_Ok in H. destruct H as (t1 & H1 & H).
    eapply IH; [|exact H]. eapply addfile_offset_written; eassumption.
Qed.

(** C4.  Alignment: whatever the name, the header and name block [tobuf]
    returns is a multiple of 4 bytes long; with fields that fit their
    eight digits, a 5-character (ASCII) name gives 110 + 6 = 116 bytes and
    no padding, a 4-character name 110 + 5 = 115 bytes and one NUL of
    padding; and after [addfile] the archive's offset, where the next
    header goes, is a multiple of 4 whatever the payload length: one call
    keeps it so, and so does any sequence of calls on a fresh archive,
    where the offset is also the number of bytes written when no size is
    negative. *)
Theorem tobuf_addfile_word_aligned :
  (forall (m : CpioInfo) (b : bytes),
     tobuf m = Ok b -> Z.of_nat (length b) mod 4 = 0) /\
  (forall (m : CpioInfo) (b : bytes),
     linkname m = [] -> header_fits m ->
     Forall (fun c => (c < 128)%N) (name m) -> tobuf m = Ok b ->
     length (header_fields m) = 110%nat /\
     (length (name m) = 5%nat ->
      b = header_fields m ++ map chr (name m) ++ [NUL] /\ length b = 116%nat) /\
     (length (name m) = 4%nat ->
      b = header_fields m ++ map chr (name m) ++ [NUL] ++ [NUL] /\
      length b = 116%nat)) /\
  (forall (t : CpioFile) (m : CpioInfo) (fileobj : option bytes) (t' : CpioFile),
     f_offset t mod 4 = 0 -> addfile t m fileobj = Ok t' ->
     f_offset t' mod 4 = 0) /\
  (forall (calls : list (CpioInfo * option bytes)) (t : CpioFile),
     addfiles CpioFile_init_w calls = Ok t ->
     f_offset t mod 4 = 0 /\
     (Forall (fun c => 0 <= size c.1) calls ->
      f_offset t = Z.of_nat (length (f_out t)))).
Proof.
  split; [exact tobuf_aligned|]. split; [|split].
  - intros m b Hl Hfits Hascii Hb.
    pose proof (length_header_fields m Hfits) as Hlen.
    destruct (tobuf_ascii_name m b Hl Hfits Hascii Hb) as (k & -> & Hk & Hmod).
    split; [exact Hlen|]. split; intros Hn; rewrite Hn in Hmod;
      match type of Hmod with ?x mod 4 = 0 =>
        pose proof (Z.div_mod x 4 ltac:(lia)) as Hdm end.
    + assert (k = 0%nat) as -> by lia. simpl repeat. rewrite app_nil_r.
      split; [reflexivity|].
      rewrite !length_app, Hlen, length_map, Hn. reflexivity.
    + assert (k = 1%nat) as -> by lia. split; [reflexivity|].
      rewrite !length_app, Hlen, length_map, Hn. reflexivity.
  - exact addfile_offset_aligned.
  - intros calls t H. split.
    + eapply addfiles_offset_aligned; [|exact H]. reflexivity.
    + intros Hs. eapply addfiles_offset_written; [exact Hs| |exact H]. reflexivity.
Qed.

End AlignmentFacts.

Lemma tobuf_addfile_word_aligned_witness :
  Z.of_nat (length sample_buf) mod 4 = 0 /\
  length sample_buf = 116%nat /\
  forall t, Cpio.addfiles Cpio.CpioFile_init_w
              [(sample_member, Some (b_lit "hello"))] = Ok t ->
            Cpio.f_offset t mod 4 = 0.
Proof.
  destruct tobuf_addfile_word_aligned as (H1 & H2 & _ & H4).
  split; [apply (H1 sample_member); reflexivity|].
  split.
  - refine (proj2 (proj1 (proj2 (H2 sample_member sample_buf _ _ _ _)) _));
      try reflexivity.
    + unfold header_fits, fits32. repeat split; vm_compute; easy.
    + repeat constructor.
  - intros t Ht. exact (proj1 (H4 _ t Ht)).
Defined.

(** ** Hardlink bookkeeping in [addfile] *)

Section HardlinkFacts.
Import Cpio.

(** The names [addfile] has recorded for inode [i] after the given calls:
    those of the members with that inode and a link count above 1, in
    order. *)
Definition linked_names (i : Z) (ms : list CpioInfo) : list pystr :=
  map name (filter (fun m => ino m = i /\ 1 < nlink m) ms).

Lemma addfile_fields (t : CpioFile) (m : CpioInfo) (fileobj : option bytes)
    (t' : CpioFile) :
  addfile t m fileobj = Ok t' ->
  f_hardlinks t' = f_hardlinks t /\ f_mode t' = f_mode t /\
  f_inodes t' = (track_hardlink t m).2.
Proof.
  intros H. apply addfile_Ok in H.
  destruct H as (_ & _ & b & payload & off & _ & _ & ->). auto.
Qed.

(** One call: what becomes of the table of inodes. *)
Lemma track_hardlink_inodes (t : CpioFile) (m : CpioInfo) (i : Z) (ms : list CpioInfo) :
  f_hardlinks t = true ->
  (forall j, f_inodes t !! j =
             match linked_names j ms with [] => None | names => Some names end) ->
  (track_hardlink t m).2 !! i =
  match linked_names i (ms ++ [m]) with [] => None | names => Some names end.
Proof.
  intros Hh Hinv. unfold track_hardlink, linked_names in *.
  rewrite filter_app, map_app. rewrite Hh.
  destruct (1 <? nlink m) eqn:Hn; [apply Z.ltb_lt in Hn | apply Z.ltb_ge in Hn].
  - destruct (decide (ino m = i)) as [<-|Hne].
    + rewrite (filter_cons_True _ m) by (split; [reflexivity|exact Hn]).
      rewrite filter_nil. cbn [map].
      rewrite (Hinv (ino m)).
      destruct (map name (filter (λ m0, ino m0 = ino m ∧ 1 < nlink m0) ms))
        as [|n ns]; cbn [fst snd]; rewrite lookup_insert_eq; reflexivity.
    + rewrite (filter_cons_False _ m) by (intros [? _]; contradiction).
      rewrite filter_nil. cbn [map]. rewrite app_nil_r.
      rewrite <- (Hinv i).
      destruct (f_inodes t !! ino m); cbn [fst snd];
        rewrite lookup_insert_ne by exact Hne; reflexivity.
  - rewrite (filter_cons_False _ m) by (intros [_ ?]; lia).
    rewrite filter_nil. cbn [map snd]. rewrite app_nil_r. apply Hinv.
Qed.

(** After any sequence of calls on a fresh archive, the table of inodes
    holds, for each inode, the names of the members added with it and a
    link count above 1, the first occurrence first. *)
Lemma addfiles_inodes (calls : list (CpioInfo * option bytes)) (t t' : CpioFile)
    (ms : list CpioInfo) :
  f_hardlinks t = true ->
  (forall j, f_inodes t !! j =
             match linked_names j ms with [] => None | names => Some names end) ->
  addfiles t calls = Ok t' ->
  f_hardlinks t' = true /\
  forall j, f_inodes t' !! j =
            match linked_names j (ms ++ map fst calls) with
            | [] => None
            | names => Some names
            end.
Proof.
  revert t ms. induction calls as [|[m fileobj] calls IH]; intros t ms Hh Hinv H.
  - injection H as <-. rewrite app_nil_r. auto.
  - cbn [addfiles] in H. apply bind_Ok in H. destruct H as (t1 & H1 & H).
    destruct (addfile_fields _ _ _ _ H1) as (Hh1 & _ & Hi1).
    cbn [map fst]. replace (ms ++ m :: map fst calls)
      with ((ms ++ [m]) ++ map fst calls) by now rewrite <- app_assoc.
    apply (IH t1); [congruence| |exact H].
    intros j. rewrite Hi1. now apply track_hardlink_inodes.
Qed.

(** C6.  Hardlink bookkeeping: with hardlink tracking enabled, when
    [addfile] is called with a member whose link count is above 1, then, if
    its inode was already added, the entry is written with its size forced
    to 0 (and so without payload) and its name is recorded behind those of
    the earlier occurrences; otherwise it is recorded as the first
    occurrence and written with its own size and its full payload.  On a
    fresh archive the table of inodes knows exactly the inodes added with
    a link count above 1; hence two members with the same inode and link
    count 2 give an archive whose first entry keeps its size and whose
    second entry has size 0. *)
Theorem addfile_hardlink_bookkeeping :
  (forall (t : CpioFile) (m : CpioInfo) (fileobj : option bytes) (t' : CpioFile),
     f_hardlinks t = true -> 1 < nlink m -> addfile t m fileobj = Ok t' ->
     match f_inodes t !! ino m with
     | Some names =>
         exists b (k : nat),
           tobuf (set_size 0 m) = Ok b /\
           f_members t' = f_members t ++ [set_buf (Some b) (set_size 0 m)] /\
           f_inodes t' = <[ino m := names ++ [name m]]> (f_inodes t) /\
           f_out t' = f_out t ++ b ++ repeat NUL k /\
           (fileobj = None \/ f_offset t mod 4 = 0 -> k = 0%nat)
     | None =>
         exists b,
           tobuf m = Ok b /\
           f_members t' = f_members t ++ [set_buf (Some b) m] /\
           f_inodes t' = <[ino m := [name m]]> (f_inodes t) /\
           forall src, fileobj = Some src -> 0 <= size m ->
             exists k : nat,
               Z.of_nat (length (firstn (Z.to_nat (size m)) src)) = size m /\
               f_out t' = f_out t ++ b ++
                          firstn (Z.to_nat (size m)) src ++ repeat NUL k
     end) /\
  (forall (calls : list (CpioInfo * option bytes)) (t : CpioFile) (i : Z),
     addfiles CpioFile_init_w calls = Ok t ->
     f_inodes t !! i =
     match linked_names i (map fst calls) with
     | [] => None
     | names => Some names
     end) /\
  (forall (m1 m2 : CpioInfo) (src1 src2 : bytes) (t : CpioFile),
     ino m1 = ino m2 -> nlink m1 = 2 -> nlink m2 = 2 ->
     addfiles CpioFile_init_w [(m1, Some src1); (m2, Some src2)] = Ok t ->
     exists b1 b2,
       tobuf m1 = Ok b1 /\ tobuf (set_size 0 m2) = Ok b2 /\
       f_members t = [set_buf (Some b1) m1; set_buf (Some b2) (set_size 0 m2)] /\
       map size (f_members t) = [size m1; 0] /\
       f_inodes t !! ino m1 = Some [name m1; name m2]).
Proof.
  split; [|split].
  - intros t m fileobj t' Hh Hn H. apply addfile_Ok in H.
    destruct H as (_ & _ & b & payload & off & Hb & Hp & ->).
    unfold track_hardlink in *. rewrite Hh in *.
    replace (1 <? nlink m) with true in * by (symmetry; apply Z.ltb_lt; exact Hn).
    destruct (f_inodes t !! ino m) as [names|]; cbn [fst snd] in *.
    + destruct fileobj as [src|].
      * apply add_payload_spec in Hp as Hp'; [|cbn; lia].
        destruct Hp' as (k & -> & _ & Hk & Hoff).
        exists b, k. cbn [f_members f_inodes f_out f_offset].
        repeat split; try assumption; try reflexivity.
        intros [Hf|Hal]; [discriminate|].
        apply add_payload_aligned in Hp. apply tobuf_aligned in Hb.
        cbn [size set_size] in Hoff.
        assert (Hz : (f_offset t + Z.of_nat (length b)) mod 4 = 0)
          by (rewrite Z.add_mod, Hal, Hb by lia; reflexivity).
        pose proof (Z.div_mod (f_offset t + Z.of_nat (length b)) 4 ltac:(lia)).
        pose proof (Z.div_mod off 4 ltac:(lia)). lia.
      * destruct Hp as [-> ->]. exists b, 0%nat.
        cbn [f_members f_inodes f_out f_offset repeat].
        repeat split; try assumption; reflexivity.
    + exists b. cbn [f_members f_inodes f_out f_offset].
      repeat split; try assumption; try reflexivity.
      intros src -> Hs. apply add_payload_spec in Hp; [|exact Hs].
      destruct Hp as (k & -> & Hlen & _ & _). exists k. split; [exact Hlen|].
      reflexivity.
  - intros calls t i H.
    destruct (addfiles_inodes calls CpioFile_init_w t [] eq_refl) as [_ Hi];
      [|exact H|exact (Hi i)].
    intros j. cbn. apply lookup_empty.
  - intros m1 m2 src1 src2 t Hino Hn1 Hn2 H.
    cbn [addfiles] in H. apply bind_Ok in H. destruct H as (t1 & H1 & H).
    apply bind_Ok in H. destruct H as (t2 & H2 & H). injection H as <-.
    apply addfile_Ok in H1.
    destruct H1 as (_ & _ & b1 & p1 & off1 & Hb1 & _ & ->).
    apply addfile_Ok in H2.
    destruct H2 as (_ & _ & b2 & p2 & off2 & Hb2 & _ & ->).
    unfold track_hardlink in *. cbn [f_hardlinks f_inodes CpioFile_init_w] in *.
    rewrite Hn1 in *. rewrite Hn2 in *. cbn [Z.ltb Z.compare Pos.compare Pos.compare_cont] in *.
    rewrite lookup_empty in *. cbn [fst snd] in *.
    rewrite <- Hino in *. rewrite lookup_insert_eq in *. cbn [fst snd] in *.
    exists b1, b2. cbn [f_members f_inodes app].
    repeat split; try assumption; try reflexivity.
    rewrite lookup_insert_eq. reflexivity.
Qed.

End HardlinkFacts.

(** Two names of one file: same inode, link count 2. *)
Definition link_member (n : String.string) : Cpio.CpioInfo := {|
  Cpio.ino := 7; Cpio.mode := 0x81A4; Cpio.uid := 0; Cpio.gid := 0;
  Cpio.nlink := 2; Cpio.mtime := 0; Cpio.size := 5; Cpio.devmajor := 0;
  Cpio.devminor := 0; Cpio.rdevmajor := 0; Cpio.rdevminor := 0;
  Cpio.namesize := 0; Cpio.check := 0; Cpio.name := s_lit n;
  Cpio.linkname := []; Cpio.offset := 0; Cpio.offset_data := 0;
  Cpio.buf := None |}.

Definition two_links : list (Cpio.CpioInfo * option bytes) :=
  [(link_member "a", Some (b_lit "hello"));
   (link_member "b", Some (b_lit "hello"))].

Definition two_links_archive : Cpio.CpioFile :=
  match Cpio.addfiles Cpio.CpioFile_init_w two_links with
  | Ok t => t
  | Raise _ => Cpio.CpioFile_init_w
  end.

Lemma addfile_hardlink_bookkeeping_witness :
  Cpio.addfiles Cpio.CpioFile_init_w two_links = Ok two_links_archive /\
  map Cpio.size (Cpio.f_members two_links_archive) = [5; 0] /\
  Cpio.f_inodes two_links_archive !! 7 = Some [s_lit "a"; s_lit "b"].
Proof.
  assert (H : Cpio.addfiles Cpio.CpioFile_init_w two_links = Ok two_links_archive)
    by (vm_compute; reflexivity).
  split; [exact H|].
  destruct (proj2 (proj2 addfile_hardlink_bookkeeping)
              (link_member "a") (link_member "b") _ _ _
              eq_refl eq_refl eq_refl H)
    as (b1 & b2 & _ & _ & _ & Hsizes & Hinodes).
  split; [exact Hsizes|exact Hinodes].
Defined.

(** ** Compression detection *)

Section DetectFacts.
Import Cpio.

Definition GZ_MAGIC : bytes := [x1f; x8b; x08].
Definition BZ2_MAGIC : bytes := b_lit "BZh91".
Definition XZ_MAGIC : bytes := xfd :: b_lit "7zXZ" ++ [x00].

(** Looking at the first block of a stream is looking at the stream, for a
    prefix no longer than the block. *)
Lemma startswith_firstn (n : nat) (buf prefix : bytes) :
  (length prefix <= n)%nat ->
  startswith (firstn n buf) prefix = startswith buf prefix.
Proof.
  revert n buf. induction prefix as [|p prefix IH]; intros n buf Hn.
  - destruct (firstn n buf), buf; reflexivity.
  - destruct n as [|n]; [simpl in Hn; lia|].
    destruct buf as [|c buf]; [reflexivity|].
    cbn [firstn startswith]. destruct (decide (p = c)); [|reflexivity].
    apply IH. simpl in Hn. lia.
Qed.

Lemma startswith_head (buf prefix : bytes) (p c : byte) :
  startswith (c :: buf) (p :: prefix) = true -> p = c.
Proof. cbn [startswith]. destruct (decide (p = c)); [auto|discriminate]. Qed.

(** The type detected for a stream read through [_StreamProxy]. *)
Definition detect (stream : bytes) : comptype :=
  getcomptype (StreamProxy_init stream).

Lemma detect_unfold (stream : bytes) :
  detect stream =
  if startswith stream GZ_MAGIC then Gz
  else if startswith stream BZ2_MAGIC then Bz2
  else if startswith stream XZ_MAGIC then Xz
  else PlainCpio.
Proof.
  unfold detect, getcomptype, StreamProxy_init, f_read, BLOCKSIZE. cbn [fst].
  rewrite !startswith_firstn by (simpl; lia). reflexivity.
Qed.

(** The empty file as [bzip2 -9] writes it: the stream header [BZh9] and
    the end-of-stream record. *)
Definition bz2_empty : bytes :=
  b_lit "BZh9" ++ [x17; x72; x45; x38; x50; x90; x00; x00; x00; x00].

(** C9, as stated, fails: a stream that begins with [BZh9] is taken for
    plain cpio data when its fifth byte is not ['1']. *)
Lemma getcomptype_BZh9_counterexample :
  startswith bz2_empty (b_lit "BZh9") = true /\
  getcomptype (StreamProxy_init bz2_empty) = PlainCpio /\
  getcomptype (StreamProxy_init bz2_empty) <> Bz2.
Proof. split; [reflexivity|]. split; [reflexivity|discriminate]. Qed.

(** C9, amended.  For every input stream, the detector selects gzip when
    the stream begins with the bytes 1F 8B 08, bzip2 when it begins with
    the five ASCII characters [BZh91], xz when it begins with the six-byte
    XZ magic, and plain cpio when it begins with none of these. *)
Theorem getcomptype_by_magic (stream : bytes) :
  (startswith stream [x1f; x8b; x08] = true -> detect stream = Gz) /\
  (startswith stream (b_lit "BZh91") = true -> detect stream = Bz2) /\
  (startswith stream (xfd :: b_lit "7zXZ" ++ [x00]) = true -> detect stream = Xz) /\
  (startswith stream [x1f; x8b; x08] = false ->
   startswith stream (b_lit "BZh91") = false ->
   startswith stream (xfd :: b_lit "7zXZ" ++ [x00]) = false ->
   detect stream = PlainCpio).
Proof.
  rewrite detect_unfold. unfold GZ_MAGIC, BZ2_MAGIC, XZ_MAGIC.
  split; [|split; [|split]].
  - intros ->. reflexivity.
  - intros Hb. rewrite Hb.
    destruct stream as [|c stream]; [discriminate|].
    apply startswith_head in Hb. subst c. reflexivity.
  - intros Hx. rewrite Hx.
    destruct stream as [|c stream]; [discriminate|].
    apply startswith_head in Hx. subst c. reflexivity.
  - intros -> -> ->. reflexivity.
Qed.

Lemma getcomptype_by_magic_witness :
  detect [x1f; x8b; x08; x00] = Gz /\
  detect (b_lit "BZh91AY&SY") = Bz2 /\
  detect (xfd :: b_lit "7zXZ" ++ [x00; x00]) = Xz /\
  detect (b_lit "070701") = PlainCpio.
Proof.
  split; [|split; [|split]].
  - apply (proj1 (getcomptype_by_magic _)). reflexivity.
  - apply (proj1 (proj2 (getcomptype_by_magic _))). reflexivity.
  - apply (proj1 (proj2 (proj2 (getcomptype_by_magic _)))). reflexivity.
  - apply (proj2 (proj2 (proj2 (getcomptype_by_magic _)))); reflexivity.
Defined.

End DetectFacts.

(** ** The KRNL container: unpacking *)

Section KrnlUnpackFacts.
Import Rockchip.

Lemma chr_to_N (b : byte) : chr (Byte.to_N b) = b.
Proof. unfold chr. now rewrite Byte.of_to_N. Qed.

Lemma fmap_cons_Some (c : N) (o : option pystr) (cs : pystr) :
  cons c <$> o = Some cs -> exists cs', o = Some cs' /\ cs = c :: cs'.
Proof. destruct o as [cs'|]; simpl; [|discriminate]. intros H. injection H as <-. eauto. Qed.

Lemma cont_Some (lo hi : N) (b : byte) (p : N) :
  cont lo hi b = Some p ->
  (lo <= Byte.to_N b <= hi)%N /\ p = (Byte.to_N b - 0x80)%N.
Proof.
  unfold cont.
  destruct ((lo <=? Byte.to_N b)%N && (Byte.to_N b <=? hi)%N) eqn:E; [|discriminate].
  apply andb_true_iff in E. destruct E as [E1 E2].
  apply N.leb_le in E1, E2. intros H. injection H as <-. auto.
Qed.

(** Text of ASCII characters only can only come from the bytes of these
    characters: a longer sequence decodes to a code point above 127. *)
Lemma utf8_decode_ascii_inv (n : nat) (bs : bytes) (cs : pystr) :
  (length bs <= n)%nat ->
  utf8_decode bs = Some cs -> Forall (fun c => (c < 128)%N) cs ->
  bs = map chr cs.
Proof.
  revert bs cs. induction n as [|n IH]; intros bs cs Hlen Hd Hcs.
  - destruct bs; [|simpl in Hlen; lia]. injection Hd as <-. reflexivity.
  - destruct bs as [|b1 r1]; [injection Hd as <-; reflexivity|].
    cbn [utf8_decode] in Hd. simpl in Hlen.
    destruct (Byte.to_N b1 <? 128)%N eqn:E1.
    + apply fmap_cons_Some in Hd. destruct Hd as (cs' & Hd & ->).
      inversion Hcs; subst. cbn [map]. rewrite chr_to_N. f_equal.
      apply IH; [lia|assumption|assumption].
    + apply N.ltb_ge in E1. exfalso.
      destruct ((194 <=? Byte.to_N b1)%N && (Byte.to_N b1 <=? 223)%N) eqn:E2.
      { apply andb_true_iff in E2. destruct E2 as [E2 _]. apply N.leb_le in E2.
        destruct r1 as [|b2 r2]; [discriminate|].
        destruct (cont 128 191 b2) as [p2|] eqn:C2; [|discriminate].
        apply fmap_cons_Some in Hd. destruct Hd as (cs' & _ & ->).
        inversion Hcs; subst. lia. }
      destruct ((224 <=? Byte.to_N b1)%N && (Byte.to_N b1 <=? 239)%N) eqn:E3.
      { apply andb_true_iff in E3. destruct E3 as [E3 _]. apply N.leb_le in E3.
        destruct r1 as [|b2 [|b3 r3]]; try discriminate.
        destruct (cont _ _ b2) as [p2|] eqn:C2; [|discriminate].
        destruct (cont 128 191 b3) as [p3|] eqn:C3; [|discriminate].
        apply fmap_cons_Some in Hd. destruct Hd as (cs' & _ & ->).
        apply cont_Some in C2. destruct C2 as [C2 ->].
        inversion Hcs; subst.
        destruct (Byte.to_N b1 =? 224)%N eqn:E0;
          [apply N.eqb_eq in E0 | apply N.eqb_neq in E0]; lia. }
      destruct ((240 <=? Byte.to_N b1)%N && (Byte.to_N b1 <=? 244)%N) eqn:E4;
        [|discriminate].
      apply andb_true_iff in E4. destruct E4 as [E4 _]. apply N.leb_le in E4.
      destruct r1 as [|b2 [|b3 [|b4 r4]]]; try discriminate.
      destruct (cont _ _ b2) as [p2|] eqn:C2; [|discriminate].
      destruct (cont 128 191 b3) as [p3|] eqn:C3; [|discriminate].
      destruct (cont 128 191 b4) as [p4|] eqn:C4; [|discriminate].
      apply fmap_cons_Some in Hd. destruct Hd as (cs' & _ & ->).
      apply cont_Some in C2. destruct C2 as [C2 ->].
      inversion Hcs; subst.
      destruct (Byte.to_N b1 =? 240)%N eqn:E0;
        [apply N.eqb_eq in E0 | apply N.eqb_neq in E0]; lia.
Qed.

(** The decoded magic is the text [KRNL] exactly when the four bytes are
    [b"KRNL"]. *)
Lemma decode_KRNL (m4 : bytes) :
  decode m4 = Ok (s_lit "KRNL") <-> m4 = b_lit "KRNL".
Proof.
  split.
  - unfold decode. destruct (utf8_decode m4) as [s|] eqn:Hd; [|discriminate].
    intros H. injection H as ->.
    apply (utf8_decode_ascii_inv (length m4)) in Hd; [exact Hd|lia|].
    repeat constructor.
  - intros ->. reflexivity.
Qed.

Lemma unpack_s_Ok (n : nat) (b r : bytes) :
  unpack_s n b = Ok r <-> r = b /\ length b = n.
Proof.
  unfold unpack_s. destruct (decide (length b = n)); split.
  - intros H. injection H as <-. auto.
  - intros [-> _]. reflexivity.
  - discriminate.
  - intros [_ ?]. contradiction.
Qed.

(** The check passes exactly on the two magics. *)
Lemma check_krnl_initrd_img_Ok (image : bytes) :
  check_krnl_initrd_img image = Ok tt <->
  firstn 4 image = b_lit "KRNL" /\ slice 8 10 image = [x1f; x8b].
Proof.
  unfold check_krnl_initrd_img, slice, f_read. cbn [fst Nat.sub]. split.
  - intros H. apply bind_Ok in H. destruct H as (m4 & H4 & H).
    apply unpack_s_Ok in H4. destruct H4 as [-> _].
    apply bind_Ok in H. destruct H as (magic & Hm & H).
    destruct (decide (magic = s_lit "KRNL")) as [->|]; [|discriminate].
    apply decode_KRNL in Hm. split; [exact Hm|].
    apply bind_Ok in H. destruct H as (g & Hg & H).
    apply unpack_s_Ok in Hg. destruct Hg as [-> _].
    destruct (decide (firstn 2 (skipn 8 image) = [x1f; x8b])); [assumption|discriminate].
  - intros [Hm Hg]. rewrite Hm. cbn [unpack_s bind]. rewrite Hg. reflexivity.
Qed.

Lemma result_cases {A} (r : result A) : succeeds r \/ fails r.
Proof. destruct r as [a|e]; [left|right]; eexists; reflexivity. Qed.

Lemma fails_not_succeeds {A} (r : result A) : fails r <-> ~ succeeds r.
Proof.
  split.
  - intros [e ->] [a H]. discriminate.
  - intros H. destruct r as [a|e]; [|eexists; reflexivity].
    exfalso. apply H. eexists. reflexivity.
Qed.

Lemma ord_chr (n : N) : (n < 256)%N -> ord (chr n) = Z.of_N n.
Proof. intros Hn. unfold ord. now rewrite to_N_chr. Qed.

(** [struct.unpack("<I", struct.pack("<I", v))[0] == v] *)
Lemma unpack_pack_le32 (v : Z) (b : bytes) :
  pack_le32 v = Ok b -> unpack_le32 b = Ok v /\ length b = 4%nat /\ 0 <= v < 2 ^ 32.
Proof.
  unfold pack_le32.
  destruct ((0 <=? v) && (v <? 2 ^ 32)) eqn:E; [|discriminate].
  apply andb_true_iff in E. destruct E as [E1 E2].
  apply Z.leb_le in E1. apply Z.ltb_lt in E2.
  intros H. injection H as <-. split; [|split; [reflexivity|lia]].
  cbn [unpack_le32].
  pose proof (Z.mod_pos_bound v 256 ltac:(lia)).
  pose proof (Z.mod_pos_bound (v / 256) 256 ltac:(lia)).
  pose proof (Z.mod_pos_bound (v / 65536) 256 ltac:(lia)).
  pose proof (Z.mod_pos_bound (v / 16777216) 256 ltac:(lia)).
  rewrite !ord_chr by lia. rewrite !Z2N.id by lia. f_equal.
  pose proof (Z.div_mod v 256 ltac:(lia)).
  pose proof (Z.div_mod (v / 256) 256 ltac:(lia)).
  pose proof (Z.div_mod (v / 65536) 256 ltac:(lia)).
  pose proof (Z.div_mod (v / 16777216) 256 ltac:(lia)).
  assert (v / 65536 = v / 256 / 256) by (rewrite Z.div_div by lia; reflexivity).
  assert (v / 16777216 = v / 65536 / 256) by (rewrite Z.div_div by lia; reflexivity).
  assert (v / 16777216 < 256) by (apply Z.div_lt_upper_bound; lia).
  assert (0 <= v / 16777216) by (apply Z.div_pos; lia).
  rewrite (Z.mod_small (v / 16777216)) in * by lia.
  lia.
Qed.

Lemma unpack_le32_range (b : bytes) (v : Z) :
  unpack_le32 b = Ok v -> 0 <= v < 2 ^ 32.
Proof.
  destruct b as [|b0 [|b1 [|b2 [|b3 [|]]]]]; try discriminate.
  intros H. injection H as <-.
  pose proof (ord_range b0). pose proof (ord_range b1).
  pose proof (ord_range b2). pose proof (ord_range b3). lia.
Qed.

(** An image on which the check passes has a size field. *)
Lemma check_Ok_size (image : bytes) :
  check_krnl_initrd_img image = Ok tt ->
  exists size, unpack_le32 (fst (f_read 4 (skipn 4 image))) = Ok size.
Proof.
  intros H. apply check_krnl_initrd_img_Ok in H. destruct H as [_ Hg].
  unfold slice in Hg.
  do 9 (destruct image as [|? image]; [discriminate Hg|]).
  cbn. eauto.
Qed.

Lemma unpack_krnl_succeeds (image : bytes) (out : pystr) :
  succeeds (unpack_rockchip_krnl_bootimg image out) <->
  firstn 4 image = b_lit "KRNL" /\ slice 8 10 image = [x1f; x8b].
Proof.
  rewrite <- check_krnl_initrd_img_Ok. unfold unpack_rockchip_krnl_bootimg. split.
  - intros [r H]. apply bind_Ok in H. destruct H as ([] & Hc & _). exact Hc.
  - intros Hc. destruct (check_Ok_size image Hc) as [size Hs].
    rewrite Hc, Hs. eexists. reflexivity.
Qed.

(** An image whose payload is not gzip data: [b"abcd"] framed, with its
    checksum, by [pack_rockchip_krnl_bootimg]. *)
Definition krnl_plain : bytes :=
  match pack_rockchip_krnl_bootimg
          {| ramdisk_patched := None; ramdisk := Some (b_lit "abcd") |} 16 with
  | Ok b => b
  | Raise _ => []
  end.

(** A truncated image: the size field says 100, two bytes follow. *)
Definition krnl_short : bytes :=
  b_lit "KRNL" ++ [x64; x00; x00; x00] ++ [x1f; x8b].

Example unpack_krnl_short :
  unpack_rockchip_krnl_bootimg krnl_short (s_lit "out") =
  Ok ({| boot_magic := s_lit "KRNL"; image_dir := s_lit "out" |}, [x1f; x8b]).
Proof. reflexivity. Qed.

(** C5, as stated, fails: the magic of this image is [KRNL], and unpacking
    it fails all the same. *)
Lemma unpack_krnl_counterexample :
  firstn 4 krnl_plain = b_lit "KRNL" /\
  unpack_rockchip_krnl_bootimg krnl_plain (s_lit "out") = Raise ValueError /\
  ~ (fails (unpack_rockchip_krnl_bootimg krnl_plain (s_lit "out")) <->
     firstn 4 krnl_plain <> b_lit "KRNL").
Proof.
  split; [reflexivity|]. split; [reflexivity|].
  intros [H _]. apply H; [|reflexivity]. exists ValueError. reflexivity.
Qed.

(** An image made of the magic, the size, a gzip payload of that size and
    any bytes behind it is unpacked to the payload. *)
Lemma unpack_krnl_framed (payload size4 trailer : bytes) (out : pystr) :
  pack_le32 (Z.of_nat (length payload)) = Ok size4 ->
  startswith payload [x1f; x8b] = true ->
  unpack_rockchip_krnl_bootimg (b_lit "KRNL" ++ size4 ++ payload ++ trailer) out =
  Ok ({| boot_magic := s_lit "KRNL"; image_dir := out |}, payload).
Proof.
  intros Hp Hg.
  apply unpack_pack_le32 in Hp. destruct Hp as (Hu & Hl4 & _).
  destruct size4 as [|s0 [|s1 [|s2 [|s3 [|]]]]]; try discriminate Hl4.
  destruct payload as [|g0 payload]; [discriminate Hg|].
  apply startswith_head in Hg as Hg0. subst g0.
  cbn [startswith] in Hg. rewrite decide_True in Hg by reflexivity.
  destruct payload as [|g1 payload]; [discriminate Hg|].
  apply startswith_head in Hg as Hg1. subst g1. clear Hg.
  set (pl := x1f :: x8b :: payload) in *.
  assert (Hc : check_krnl_initrd_img
                 (b_lit "KRNL" ++ [s0; s1; s2; s3] ++ pl ++ trailer) = Ok tt).
  { apply check_krnl_initrd_img_Ok. split; reflexivity. }
  unfold unpack_rockchip_krnl_bootimg. rewrite Hc. cbn [bind].
  change (fst (f_read 4 (skipn 4 (b_lit "KRNL" ++ [s0; s1; s2; s3] ++ pl ++ trailer))))
    with [s0; s1; s2; s3].
  rewrite Hu. cbn [bind].
  change (skipn 8 (b_lit "KRNL" ++ [s0; s1; s2; s3] ++ pl ++ trailer))
    with (pl ++ trailer).
  unfold f_read. cbn [fst].
  rewrite Nat2Z.id, firstn_app, firstn_all, Nat.sub_diag. cbn [firstn].
  rewrite app_nil_r. reflexivity.
Qed.

(** C5, amended.  KRNL unpack validates the four-byte magic [KRNL] and the
    two-byte gzip magic 1F 8B at offset 8, and nothing else (not the
    trailing checksum): it succeeds exactly when both are there, and fails
    exactly when one of them is not.  On success it extracts, as the
    ramdisk, the bytes from offset 8 on, as many as the 32-bit
    little-endian field at offset 4 says, or all that is left when the
    image is shorter: exactly [size] bytes whenever the image holds them.
    So an image made of the magic, the size, a gzip payload of that size
    and any bytes at all behind it yields that payload. *)
Theorem unpack_krnl_checks_two_magics :
  (forall (image : bytes) (out : pystr),
     succeeds (unpack_rockchip_krnl_bootimg image out) <->
     firstn 4 image = b_lit "KRNL" /\ slice 8 10 image = [x1f; x8b]) /\
  (forall (image : bytes) (out : pystr),
     fails (unpack_rockchip_krnl_bootimg image out) <->
     firstn 4 image <> b_lit "KRNL" \/ slice 8 10 image <> [x1f; x8b]) /\
  (forall (image : bytes) (out : pystr) (info : krnl_info) (rd : bytes),
     unpack_rockchip_krnl_bootimg image out = Ok (info, rd) ->
     info = {| boot_magic := s_lit "KRNL"; image_dir := out |} /\
     exists size,
       unpack_le32 (slice 4 8 image) = Ok size /\
       rd = firstn (Z.to_nat size) (skipn 8 image) /\
       (8 + size <= Z.of_nat (length image) -> Z.of_nat (length rd) = size)) /\
  (forall (payload size4 trailer : bytes) (out : pystr),
     pack_le32 (Z.of_nat (length payload)) = Ok size4 ->
     startswith payload [x1f; x8b] = true ->
     unpack_rockchip_krnl_bootimg (b_lit "KRNL" ++ size4 ++ payload ++ trailer) out =
     Ok ({| boot_magic := s_lit "KRNL"; image_dir := out |}, payload)).
Proof.
  split; [exact unpack_krnl_succeeds|]. split; [|split].
  - intros image out. rewrite fails_not_succeeds, unpack_krnl_succeeds.
    destruct (decide (firstn 4 image = b_lit "KRNL")) as [Hm|Hm];
      destruct (decide (slice 8 10 image = [x1f; x8b])) as [Hg|Hg]; tauto.
  - intros image out info rd H. unfold unpack_rockchip_krnl_bootimg in H.
    apply bind_Ok in H. destruct H as ([] & _ & H).
    apply bind_Ok in H. destruct H as (size & Hs & H).
    injection H as <- <-. split; [reflexivity|].
    exists size. split; [exact Hs|]. split; [reflexivity|].
    intros Hlen. apply unpack_le32_range in Hs.
    cbn [f_read fst]. rewrite length_firstn, length_skipn. lia.
  - exact unpack_krnl_framed.
Qed.

End KrnlUnpackFacts.

Lemma unpack_krnl_checks_two_magics_witness :
  Rockchip.unpack_rockchip_krnl_bootimg
    (b_lit "KRNL" ++ [x03; x00; x00; x00] ++ [x1f; x8b; x08] ++ [xde; xad; xbe; xef])
    (s_lit "out") =
  Ok ({| Rockchip.boot_magic := s_lit "KRNL"; Rockchip.image_dir := s_lit "out" |},
      [x1f; x8b; x08]).
Proof.
  apply (proj2 (proj2 (proj2 unpack_krnl_checks_two_magics))); reflexivity.
Defined.

(** ** The attribute table: [unpack] writes it, [pack] applies it *)

Section AttrFacts.
Import Cpio Pipeline.

Definition PERM_BITS : Z := 0x1FF.     (* 0o777 *)
Definition SPECIAL_BITS : Z := 0xE00.  (* 0o7000: setuid, setgid, sticky *)
Definition TYPE_BITS : Z := 0xF000.    (* 0o170000 *)

Lemma land_lor_land (p live a c : Z) :
  Z.land (Z.lor p (Z.land live a)) c =
  Z.lor (Z.land p c) (Z.land live (Z.land a c)).
Proof. now rewrite Z.land_lor_distr_l, Z.land_assoc. Qed.

Lemma perm_only (p : Z) :
  0 <= p <= PERM_BITS ->
  Z.land p PERM_BITS = p /\ Z.land p SPECIAL_BITS = 0 /\ Z.land p TYPE_BITS = 0.
Proof.
  intros Hp. unfold PERM_BITS in *.
  assert (H : Z.land p 0x1FF = p).
  { change 0x1FF with (Z.ones 9). rewrite Z.land_ones by lia.
    apply Z.mod_small. change (2 ^ 9) with 512. lia. }
  split; [exact H|]. split; rewrite <- H, <- Z.land_assoc; apply Z.land_0_r.
Qed.

Lemma land_perm_range (v : Z) : 0 <= Z.land v PERM_BITS <= PERM_BITS.
Proof.
  unfold PERM_BITS. change 0x1FF with (Z.ones 9). rewrite Z.land_ones by lia.
  pose proof (Z.mod_pos_bound v (2 ^ 9) ltac:(lia)) as H.
  change (2 ^ 9) with 512 in *. change (Z.ones 9) with 511. lia.
Qed.

(** The mode [pack] gives a member: the table's value and, from the live
    entry, everything above the nine permission bits. *)
Definition packed_mode (p live : Z) : Z := Z.lor p (Z.land live 0xFE00).

Lemma packed_mode_bits (p live : Z) :
  Z.land (packed_mode p live) PERM_BITS = Z.land p PERM_BITS /\
  Z.land (packed_mode p live) SPECIAL_BITS =
    Z.lor (Z.land p SPECIAL_BITS) (Z.land live SPECIAL_BITS) /\
  S_IFMT (packed_mode p live) = Z.lor (S_IFMT p) (S_IFMT live).
Proof.
  unfold packed_mode, S_IFMT, PERM_BITS, SPECIAL_BITS. rewrite !land_lor_land.
  change (Z.land 0xFE00 0x1FF) with 0. change (Z.land 0xFE00 0xE00) with 0xE00.
  change (Z.land 0xFE00 0xF000) with 0xF000.
  rewrite Z.land_0_r, Z.lor_0_r. auto.
Qed.

(** [int(oct(v)[2:], 8) == v] *)
Lemma py_int_oct (v : Z) : 0 <= v -> py_int 8 (skipn 2 (oct v)) = Ok v.
Proof.
  intros Hv. unfold oct.
  replace (v <? 0) with false by (symmetry; apply Z.ltb_ge; lia).
  change (skipn 2 ([] ++ s_lit "0o" ++ ?l)) with l.
  pose proof (py_int_fmt false 8 0 v ltac:(lia) Hv) as H.
  unfold fmt_digits in H.
  replace (v <? 0) with false in H by (symmetry; apply Z.ltb_ge; lia).
  exact H.
Qed.

Lemma track_hardlink_attrs (t : CpioFile) (m : CpioInfo) :
  let m' := (track_hardlink t m).1 in
  name m' = name m /\ uid m' = uid m /\ gid m' = gid m /\
  mtime m' = mtime m /\ mode m' = mode m /\ ino m' = ino m.
Proof.
  unfold track_hardlink. destruct (1 <? nlink m); [|cbn; auto 10].
  destruct (if f_hardlinks t then f_inodes t !! ino m else None); cbn; auto 10.
Qed.

(** The attributes [pack] looks up for an entry. *)
Definition attr_for (ramdisk_files : gmap pystr file_attr) (e : tree_entry) : file_attr :=
  default (if bool_decide (S_IFMT (st_mode (e_stat e)) = S_IFDIR)
           then default_dir_attr else default_file_attr)
          (ramdisk_files !! e_arcname e).

(** The member [pack] builds for an entry. *)
Lemma pack_member_Ok (ramdisk_files : gmap pystr file_attr) (e : tree_entry)
    (ci : CpioInfo) :
  pack_member ramdisk_files e = Ok ci ->
  exists p,
    py_int 8 (a_mode (attr_for ramdisk_files e)) = Ok p /\
    name ci = e_arcname e /\
    uid ci = a_uid (attr_for ramdisk_files e) /\
    gid ci = a_gid (attr_for ramdisk_files e) /\
    mtime ci = a_mtime (attr_for ramdisk_files e) /\
    mode ci = packed_mode p (st_mode (e_stat e)).
Proof.
  unfold pack_member.
  change (default (if isdir (getcpioinfo e) then default_dir_attr
                   else default_file_attr) (ramdisk_files !! e_arcname e))
    with (attr_for ramdisk_files e).
  generalize (attr_for ramdisk_files e). intros a Hci.
  apply bind_Ok in Hci. destruct Hci as (p & Hp & Hci).
  exists p. split; [exact Hp|].
  injection Hci as <-. repeat split; reflexivity.
Qed.

(** One pass of [pack]'s loop adds one member, with the attributes of the
    table and the mode put together from the table and the live entry. *)
Lemma pack_entry_member (ramdisk_files : gmap pystr file_attr) (t : CpioFile)
    (e : tree_entry) (t' : CpioFile) :
  pack_entry ramdisk_files t e = Ok t' ->
  exists p m,
    py_int 8 (a_mode (attr_for ramdisk_files e)) = Ok p /\
    f_members t' = f_members t ++ [m] /\
    name m = e_arcname e /\
    uid m = a_uid (attr_for ramdisk_files e) /\
    gid m = a_gid (attr_for ramdisk_files e) /\
    mtime m = a_mtime (attr_for ramdisk_files e) /\
    mode m = packed_mode p (st_mode (e_stat e)).
Proof.
  unfold pack_entry. intros H.
  apply bind_Ok in H. destruct H as (ci & Hci & H).
  apply pack_member_Ok in Hci.
  destruct Hci as (p & Hp & Hn & Hu & Hg & Ht & Hm).
  assert (Hadd : exists fo, addfile t ci fo = Ok t')
    by (destruct (isreg ci); eexists; exact H).
  clear H. destruct Hadd as [fo Hadd]. apply addfile_Ok in Hadd.
  destruct Hadd as (_ & _ & b & payload & off & _ & _ & ->).
  destruct (track_hardlink_attrs t ci) as (Hn' & Hu' & Hg' & Ht' & Hm' & _).
  cbv zeta in Hn', Hu', Hg', Ht', Hm'.
  exists p, (set_buf (Some b) (track_hardlink t ci).1).
  split; [exact Hp|]. split; [reflexivity|].
  cbn [name uid gid mtime mode set_buf].
  rewrite Hn', Hu', Hg', Ht', Hm'. auto.
Qed.

Lemma merge_attrs_lookup (ramdisk_files extra : gmap pystr file_attr) (k : pystr) :
  merge_attrs ramdisk_files (Some extra) !! k =
  match extra !! k with
  | Some a => Some a
  | None => ramdisk_files !! k
  end.
Proof.
  unfold merge_attrs. rewrite lookup_union.
  destruct (extra !! k), (ramdisk_files !! k); reflexivity.
Qed.

(** C7, amended.  Attribute override precedence in [pack].  The attribute
    table is the merge of the extra overrides over the descriptor's table.
    For every path present in it, [pack] adds a member only if the table's
    mode reads as an octal number [p]; the member's uid, gid and mtime are
    then the table's and its nine permission bits are those of [p],
    whatever the live file system says.  The bits above them are ORed
    together from [p] and the live entry: so are the setuid, setgid and
    sticky bits, and so are the entry-type bits, which are the live entry's
    when [p] holds no entry-type bits or the live entry's own.  When the
    mode is no octal number, [pack] fails with the error of [int].  For an
    absent path the defaults apply: uid and gid 0, mtime 0, mode 755 for a
    directory and 644 otherwise, and the entry type is the live entry's. *)
Theorem pack_attr_precedence :
  (forall (ramdisk_files extra : gmap pystr file_attr) (k : pystr),
     merge_attrs ramdisk_files (Some extra) !! k =
     match extra !! k with Some a => Some a | None => ramdisk_files !! k end) /\
  (forall ramdisk_files : gmap pystr file_attr,
     merge_attrs ramdisk_files None = ramdisk_files) /\
  (forall (table : gmap pystr file_attr) (t : CpioFile) (e : tree_entry)
          (t' : CpioFile) (a : file_attr),
     table !! e_arcname e = Some a ->
     pack_entry table t e = Ok t' ->
     exists p m,
       py_int 8 (a_mode a) = Ok p /\
       f_members t' = f_members t ++ [m] /\ name m = e_arcname e /\
       uid m = a_uid a /\ gid m = a_gid a /\ mtime m = a_mtime a /\
       Z.land (mode m) PERM_BITS = Z.land p PERM_BITS /\
       (0 <= p <= PERM_BITS -> Z.land (mode m) PERM_BITS = p) /\
       Z.land (mode m) SPECIAL_BITS =
         Z.lor (Z.land p SPECIAL_BITS) (Z.land (st_mode (e_stat e)) SPECIAL_BITS) /\
       S_IFMT (mode m) = Z.lor (S_IFMT p) (S_IFMT (st_mode (e_stat e))) /\
       (S_IFMT p = 0 \/ S_IFMT p = S_IFMT (st_mode (e_stat e)) ->
        S_IFMT (mode m) = S_IFMT (st_mode (e_stat e)))) /\
  (forall (table : gmap pystr file_attr) (t : CpioFile) (e : tree_entry)
          (a : file_attr) (x : exn),
     table !! e_arcname e = Some a ->
     py_int 8 (a_mode a) = Raise x ->
     pack_entry table t e = Raise x) /\
  (forall (table : gmap pystr file_attr) (t : CpioFile) (e : tree_entry)
          (t' : CpioFile),
     table !! e_arcname e = None -> pack_entry table t e = Ok t' ->
     exists m,
       f_members t' = f_members t ++ [m] /\ name m = e_arcname e /\
       uid m = 0 /\ gid m = 0 /\ mtime m = 0 /\
       Z.land (mode m) PERM_BITS =
         (if bool_decide (S_IFMT (st_mode (e_stat e)) = S_IFDIR)
          then 493 (* 0o755 *) else 420 (* 0o644 *)) /\
       S_IFMT (mode m) = S_IFMT (st_mode (e_stat e))).
Proof.
  split; [exact merge_attrs_lookup|]. split; [reflexivity|].
  split; [|split].
  - intros table t e t' a Ha H.
    apply pack_entry_member in H.
    destruct H as (p & m & Hp & Hm & Hn & Hu & Hg & Ht & Hmode).
    unfold attr_for in *. rewrite Ha in *. cbn [default from_option id] in *.
    destruct (packed_mode_bits p (st_mode (e_stat e))) as (Hperm & Hspec & Htype).
    exists p, m. rewrite Hmode.
    repeat (split; [assumption|]). split; [|split; [exact Hspec|split; [exact Htype|]]].
    + intros Hr. rewrite Hperm. apply perm_only. exact Hr.
    + intros [Hz|Hz]; rewrite Htype, Hz; [apply Z.lor_0_l|apply Z.lor_diag].
  - intros table t e a x Ha Hx. unfold pack_entry, pack_member.
    rewrite Ha. cbn [default from_option id]. rewrite Hx. reflexivity.
  - intros table t e t' Ha H.
    apply pack_entry_member in H.
    destruct H as (p & m & Hp & Hm & Hn & Hu & Hg & Ht & Hmode).
    unfold attr_for in *. rewrite Ha in *. cbn [default from_option id] in *.
    destruct (packed_mode_bits p (st_mode (e_stat e))) as (Hperm & _ & Htype).
    exists m. rewrite Hmode, Hperm, Htype.
    destruct (bool_decide (S_IFMT (st_mode (e_stat e)) = S_IFDIR));
      cbn in Hp, Hu, Hg, Ht; injection Hp as <-;
      repeat (split; [assumption|]); split; reflexivity.
Qed.

End AttrFacts.

(** A table with one path, and the live entry of that path, whose owner,
    time and permission bits differ from the table's. *)
Definition sample_table : gmap pystr Pipeline.file_attr :=
  {[ s_lit "init" :=
       {| Pipeline.a_uid := 0; Pipeline.a_gid := 2000;
          Pipeline.a_mode := s_lit "750"; Pipeline.a_mtime := 1 |} ]}.

Definition sample_entry : Pipeline.tree_entry := {|
  Pipeline.e_arcname := s_lit "init";
  Pipeline.e_stat := {|
    Pipeline.st_mode := 0x81FF (* 0o100777 *); Pipeline.st_ino := 99;
    Pipeline.st_dev_major := 8; Pipeline.st_dev_minor := 1;
    Pipeline.st_nlink := 1; Pipeline.st_uid := 1000; Pipeline.st_gid := 1000;
    Pipeline.st_size := 2; Pipeline.st_mtime := 1700000000;
    Pipeline.st_rdev_major := 0; Pipeline.st_rdev_minor := 0 |};
  Pipeline.e_readlink := [];
  Pipeline.e_content := b_lit "hi" |}.

Definition sample_packed : Cpio.CpioFile :=
  match Pipeline.pack_entry sample_table Cpio.CpioFile_init_w sample_entry with
  | Ok t => t
  | Raise _ => Cpio.CpioFile_init_w
  end.

(** The same path with a mode that holds entry-type bits, those of a
    directory: the text [40755], as an extra override can give it. *)
Definition typed_attr : Pipeline.file_attr :=
  {| Pipeline.a_uid := 0; Pipeline.a_gid := 0;
     Pipeline.a_mode := s_lit "40755"; Pipeline.a_mtime := 0 |}.

Definition typed_table : gmap pystr Pipeline.file_attr :=
  {[ s_lit "init" := typed_attr ]}.

(** C7, as stated, fails: the path is in the table and the live entry is a
    regular file, and the packed member's entry-type bits are not the live
    entry's but a socket's, 0o140000: the table's 0o040000 ORed with the
    live 0o100000. *)
Lemma pack_type_bits_counterexample :
  typed_table !! Pipeline.e_arcname sample_entry = Some typed_attr /\
  Cpio.S_IFMT (Pipeline.st_mode (Pipeline.e_stat sample_entry)) = Cpio.S_IFREG /\
  exists t' m,
    Pipeline.pack_entry typed_table Cpio.CpioFile_init_w sample_entry = Ok t' /\
    Cpio.f_members t' = [m] /\
    Cpio.mode m = 0xC1ED (* 0o140755 *) /\
    Cpio.S_IFMT (Cpio.mode m) = 0xC000 (* 0o140000, S_IFSOCK *) /\
    Cpio.S_IFMT (Cpio.mode m) <>
      Cpio.S_IFMT (Pipeline.st_mode (Pipeline.e_stat sample_entry)).
Proof.
  split; [vm_compute; reflexivity|]. split; [reflexivity|].
  destruct (Pipeline.pack_entry typed_table Cpio.CpioFile_init_w sample_entry)
    as [t'|x] eqn:E; [|vm_compute in E; discriminate E].
  assert (Hm : Cpio.f_members t' =
               match Pipeline.pack_entry typed_table Cpio.CpioFile_init_w sample_entry
               with Ok t => Cpio.f_members t | Raise _ => [] end)
    by (rewrite E; reflexivity).
  vm_compute in Hm.
  match type of Hm with _ = [?m0] => exists t', m0 end.
  split; [reflexivity|]. split; [exact Hm|].
  split; [reflexivity|]. split; [reflexivity|]. vm_compute. discriminate.
Qed.

Lemma pack_attr_precedence_witness :
  exists m,
    Cpio.f_members sample_packed = [m] /\
    Cpio.uid m = 0 /\ Cpio.gid m = 2000 /\ Cpio.mtime m = 1 /\
    Z.land (Cpio.mode m) PERM_BITS = 488 (* 0o750 *) /\
    Cpio.S_IFMT (Cpio.mode m) = Cpio.S_IFREG.
Proof.
  assert (Ha : sample_table !! Pipeline.e_arcname sample_entry =
               Some {| Pipeline.a_uid := 0; Pipeline.a_gid := 2000;
                       Pipeline.a_mode := s_lit "750"; Pipeline.a_mtime := 1 |})
    by (vm_compute; reflexivity).
  assert (H : Pipeline.pack_entry sample_table Cpio.CpioFile_init_w sample_entry =
              Ok sample_packed) by (vm_compute; reflexivity).
  destruct (proj1 (proj2 (proj2 pack_attr_precedence))
              sample_table Cpio.CpioFile_init_w sample_entry sample_packed _
              Ha H)
    as (p & m & Hp & Hm & _ & Hu & Hg & Ht & _ & Hperm & _ & _ & Htype).
  assert (Hp' : p = 488) by (vm_compute in Hp; congruence). subst p.
  exists m. split; [exact Hm|]. split; [exact Hu|]. split; [exact Hg|].
  split; [exact Ht|]. split.
  - apply Hperm. unfold PERM_BITS. lia.
  - rewrite Htype; [reflexivity|]. left. reflexivity.
Defined.

(** ** The descriptor's table keeps the low nine mode bits *)

Section DescriptorFacts.
Import Cpio Pipeline.

(** A value found in [dict(pairs)] is the value of one of the pairs. *)
Lemma py_dict_lookup {V} (pairs : list (pystr * V)) (d : gmap pystr V)
    (k : pystr) (v : V) :
  fold_left (fun d kv => <[kv.1 := kv.2]> d) pairs d !! k = Some v ->
  (k, v) ∈ pairs \/ d !! k = Some v.
Proof.
  revert d. induction pairs as [|[k' v'] pairs IH]; intros d H; [now right|].
  cbn [fold_left] in H. apply IH in H. destruct H as [H|H].
  - left. now apply list_elem_of_further.
  - cbn [fst snd] in H. destruct (decide (k' = k)) as [->|Hne].
    + rewrite lookup_insert_eq in H. injection H as ->. left. apply list_elem_of_here.
    + rewrite lookup_insert_ne in H by exact Hne. now right.
Qed.

Lemma ramdisk_files_of_lookup (members : list CpioInfo) (path : pystr) (a : file_attr) :
  ramdisk_files_of members !! path = Some a ->
  exists ci, ci ∈ members /\ name ci = path /\ a = (cpio_info_to_dict ci).2.
Proof.
  unfold ramdisk_files_of, py_dict. intros H.
  apply py_dict_lookup in H. destruct H as [H|H]; [|now rewrite lookup_empty in H].
  apply list_elem_of_In, in_map_iff in H. destruct H as (ci & Heq & Hin).
  apply list_elem_of_In in Hin.
  exists ci. split; [exact Hin|]. unfold cpio_info_to_dict in *.
  injection Heq as -> ->. auto.
Qed.

(** C10.  The descriptor's table records each member's mode as its low
    nine permission bits, [mode & 0o777], printed in octal: reading the
    text back gives exactly these bits, so the setuid, setgid and sticky
    bits of a member are never in the descriptor; and when [pack] applies
    an entry of this table, the member's special bits (like its type bits)
    are those of the live file system entry. *)
Theorem descriptor_mode_is_permission_bits :
  (forall ci : CpioInfo,
     a_mode (cpio_info_to_dict ci).2 = skipn 2 (oct (Z.land (mode ci) PERM_BITS)) /\
     py_int 8 (a_mode (cpio_info_to_dict ci).2) = Ok (Z.land (mode ci) PERM_BITS) /\
     0 <= Z.land (mode ci) PERM_BITS <= PERM_BITS /\
     Z.land (Z.land (mode ci) PERM_BITS) SPECIAL_BITS = 0) /\
  (forall (members : list CpioInfo) (path : pystr) (a : file_attr),
     ramdisk_files_of members !! path = Some a ->
     exists ci, ci ∈ members /\ name ci = path /\ a = (cpio_info_to_dict ci).2) /\
  (forall (members : list CpioInfo) (t : CpioFile) (e : tree_entry)
          (t' : CpioFile) (a : file_attr),
     ramdisk_files_of members !! e_arcname e = Some a ->
     pack_entry (ramdisk_files_of members) t e = Ok t' ->
     exists m ci,
       f_members t' = f_members t ++ [m] /\
       ci ∈ members /\ name ci = e_arcname e /\
       Z.land (mode m) PERM_BITS = Z.land (mode ci) PERM_BITS /\
       Z.land (mode m) SPECIAL_BITS = Z.land (st_mode (e_stat e)) SPECIAL_BITS /\
       S_IFMT (mode m) = S_IFMT (st_mode (e_stat e))).
Proof.
  assert (H1 : forall ci : CpioInfo,
     a_mode (cpio_info_to_dict ci).2 = skipn 2 (oct (Z.land (mode ci) PERM_BITS)) /\
     py_int 8 (a_mode (cpio_info_to_dict ci).2) = Ok (Z.land (mode ci) PERM_BITS) /\
     0 <= Z.land (mode ci) PERM_BITS <= PERM_BITS /\
     Z.land (Z.land (mode ci) PERM_BITS) SPECIAL_BITS = 0).
  { intros ci. pose proof (land_perm_range (mode ci)) as Hr.
    split; [reflexivity|]. split; [|split; [exact Hr|]].
    - apply py_int_oct. lia.
    - apply perm_only. exact Hr. }
  split; [exact H1|]. split; [exact ramdisk_files_of_lookup|].
  intros members t e t' a Ha H.
  destruct (ramdisk_files_of_lookup _ _ _ Ha) as (ci & Hin & Hname & ->).
  destruct (H1 ci) as (_ & Hp & Hr & _).
  apply pack_entry_member in H.
  destruct H as (p & m & Hp' & Hm & _ & _ & _ & _ & Hmode).
  unfold attr_for in Hp'. rewrite Ha in Hp'. cbn [default from_option id] in Hp'.
  assert (p = Z.land (mode ci) PERM_BITS) by congruence. subst p.
  destruct (packed_mode_bits (Z.land (mode ci) PERM_BITS) (st_mode (e_stat e)))
    as (Hperm & Hspecial & Htype).
  destruct (perm_only _ Hr) as (Hpp & Hps & Hpt).
  exists m, ci. rewrite Hmode. split; [exact Hm|]. split; [exact Hin|].
  split; [exact Hname|]. split; [|split].
  - rewrite Hperm. exact Hpp.
  - rewrite Hspecial, Hps. apply Z.lor_0_l.
  - rewrite Htype. unfold S_IFMT at 1. fold TYPE_BITS. rewrite Hpt. apply Z.lor_0_l.
Qed.

(** A setuid program in the archive, and the same path in the work tree
    where the bit is gone. *)
Definition suid_member : CpioInfo :=
  set_mode 0x89ED (* 0o104755 *) (CpioInfo_init (s_lit "init")).

Lemma descriptor_mode_is_permission_bits_witness :
  a_mode (cpio_info_to_dict suid_member).2 = s_lit "755" /\
  forall t',
    pack_entry (ramdisk_files_of [suid_member]) CpioFile_init_w sample_entry = Ok t' ->
    exists m, f_members t' = [m] /\ Z.land (mode m) SPECIAL_BITS = 0.
Proof.
  split; [reflexivity|]. intros t' H.
  destruct (proj2 (proj2 descriptor_mode_is_permission_bits)
              [suid_member] CpioFile_init_w sample_entry t'
              (cpio_info_to_dict suid_member).2 ltac:(vm_compute; reflexivity) H)
    as (m & ci & Hm & _ & _ & _ & Hs & _).
  exists m. split; [exact Hm|]. rewrite Hs. reflexivity.
Defined.

End DescriptorFacts.

(** ** [extractall]: the order of the requests *)

Section ExtractallFacts.
Import Cpio.

(** What the first loop asks for one member. *)
Definition first_pass_request (root : pystr) (m : CpioInfo) : fs_request :=
  if isdir m then Makedirs (path_join root (name m)) 0x1FF (* 0o777 *)
  else ExtractMember m root.

(** The members whose attributes a list of requests sets, in order. *)
Fixpoint attr_members (reqs : list fs_request) : list CpioInfo :=
  match reqs with
  | [] => []
  | SetDirAttrs m _ :: rest => m :: attr_members rest
  | _ :: rest => attr_members rest
  end.

Definition is_SetDirAttrs (r : fs_request) : Prop :=
  exists m p, r = SetDirAttrs m p.

(** [name a >= name b], the order of the last loop. *)
Definition name_ge (a b : CpioInfo) : Prop := str_lt (name a) (name b) = false.
Definition name_le (a b : CpioInfo) : Prop := str_lt (name b) (name a) = false.

Lemma extract_members_spec (root : pystr) (members : list CpioInfo) :
  extract_members root members =
  (map (first_pass_request root) members, List.filter isdir members).
Proof.
  induction members as [|m members IH]; [reflexivity|].
  cbn [extract_members map List.filter]. rewrite IH.
  unfold first_pass_request. destruct (isdir m); reflexivity.
Qed.

Lemma set_directory_attrs_spec (path : pystr) (directories : list CpioInfo) :
  attr_members (set_directory_attrs path directories) = directories /\
  Forall is_SetDirAttrs (set_directory_attrs path directories).
Proof.
  revert path. induction directories as [|d ds IH]; intros path.
  - split; [reflexivity|constructor].
  - cbn [set_directory_attrs attr_members].
    destruct (IH (path_join path (name d))) as [Hm Hf]. split.
    + now rewrite Hm.
    + constructor; [|exact Hf]. eexists _, _. reflexivity.
Qed.

Lemma str_lt_irrefl (a : pystr) : str_lt a a = false.
Proof.
  induction a as [|x a IH]; [reflexivity|].
  cbn [str_lt]. now rewrite N.ltb_irrefl.
Qed.

Lemma str_lt_asym (a b : pystr) : str_lt a b = true -> str_lt b a = false.
Proof.
  revert b. induction a as [|x a IH]; intros [|y b] H; try reflexivity;
    try discriminate H.
  cbn [str_lt] in *.
  destruct (x <? y)%N eqn:Exy; [apply N.ltb_lt in Exy|apply N.ltb_ge in Exy].
  - replace (y <? x)%N with false by (symmetry; apply N.ltb_ge; lia). reflexivity.
  - destruct (y <? x)%N eqn:Eyx; [discriminate H|]. now apply IH.
Qed.

Lemma str_lt_total (a b : pystr) :
  str_lt a b = false -> str_lt b a = false -> a = b.
Proof.
  revert b. induction a as [|x a IH]; intros [|y b] H1 H2; try reflexivity;
    try discriminate.
  cbn [str_lt] in *.
  destruct (x <? y)%N eqn:Exy; [discriminate|apply N.ltb_ge in Exy].
  destruct (y <? x)%N eqn:Eyx; [discriminate|apply N.ltb_ge in Eyx].
  assert (x = y) by lia. subst. f_equal. now apply IH.
Qed.

Lemma str_lt_trans (a b c : pystr) :
  str_lt a b = true -> str_lt b c = true -> str_lt a c = true.
Proof.
  revert b c. induction a as [|x a IH]; intros [|y b] [|z c] H1 H2;
    try reflexivity; try discriminate.
  cbn [str_lt] in *.
  destruct (x <? y)%N eqn:Exy; [apply N.ltb_lt in Exy|apply N.ltb_ge in Exy].
  - destruct (y <? z)%N eqn:Eyz; [apply N.ltb_lt in Eyz|apply N.ltb_ge in Eyz].
    + replace (x <? z)%N with true by (symmetry; apply N.ltb_lt; lia). reflexivity.
    + destruct (z <? y)%N eqn:Ezy; [discriminate|apply N.ltb_ge in Ezy].
      replace (x <? z)%N with true by (symmetry; apply N.ltb_lt; lia). reflexivity.
  - destruct (y <? x)%N eqn:Eyx; [discriminate|apply N.ltb_ge in Eyx].
    assert (x = y) by lia. subst y.
    destruct (x <? z)%N eqn:Exz; [reflexivity|].
    destruct (z <? x)%N eqn:Ezx; [discriminate|]. eapply IH; eassumption.
Qed.

(** [str_lt] decides a strict total order, so "not greater" is
    transitive. *)
Lemma name_le_trans (a b c : CpioInfo) : name_le a b -> name_le b c -> name_le a c.
Proof.
  unfold name_le. intros Hab Hbc.
  destruct (str_lt (name c) (name a)) eqn:Hca; [|reflexivity].
  destruct (str_lt (name a) (name b)) eqn:Hlt.
  - rewrite (str_lt_trans _ _ _ Hca Hlt) in Hbc. discriminate.
  - pose proof (str_lt_total _ _ Hlt Hab) as Heq.
    rewrite <- Heq in Hbc. congruence.
Qed.

Lemma insert_by_name_perm (x : CpioInfo) (l : list CpioInfo) :
  Permutation (insert_by_name x l) (x :: l).
Proof.
  induction l as [|y l IH]; [reflexivity|].
  cbn [insert_by_name]. destruct (str_lt (name x) (name y)); [reflexivity|].
  rewrite IH. apply perm_swap.
Qed.

Lemma insert_by_name_sorted (x : CpioInfo) (l : list CpioInfo) :
  StronglySorted name_le l -> StronglySorted name_le (insert_by_name x l).
Proof.
  induction 1 as [|y l Hs IH Hy]; cbn [insert_by_name].
  - repeat constructor.
  - destruct (str_lt (name x) (name y)) eqn:Hxy.
    + pose proof (str_lt_asym _ _ Hxy) as Hle.
      constructor; [constructor; assumption|].
      constructor; [exact Hle|].
      eapply List.Forall_impl; [|exact Hy].
      intros z Hz. eapply name_le_trans; [exact Hle|exact Hz].
    + constructor; [exact IH|].
      rewrite insert_by_name_perm. constructor; [exact Hxy|exact Hy].
Qed.

Lemma sort_by_name_spec (l : list CpioInfo) :
  Permutation (sort_by_name l) l /\ StronglySorted name_le (sort_by_name l).
Proof.
  unfold sort_by_name.
  assert (H : forall acc, StronglySorted name_le acc ->
            Permutation (fold_left (fun acc x => insert_by_name x acc) l acc) (l ++ acc) /\
            StronglySorted name_le (fold_left (fun acc x => insert_by_name x acc) l acc)).
  { induction l as [|x l IH]; intros acc Hacc; [split; [reflexivity|exact Hacc]|].
    cbn [fold_left].
    destruct (IH (insert_by_name x acc) (insert_by_name_sorted x acc Hacc)) as [Hp Hs].
    split; [|exact Hs].
    rewrite Hp, insert_by_name_perm. cbn [app]. symmetry. apply Permutation_middle. }
  destruct (H [] ltac:(constructor)) as [Hp Hs].
  rewrite app_nil_r in Hp. auto.
Qed.

Lemma StronglySorted_snoc {A} (R : A -> A -> Prop) (l : list A) (x : A) :
  StronglySorted R l -> Forall (fun y => R y x) l -> StronglySorted R (l ++ [x]).
Proof.
  induction 1 as [|y l Hs IH Hy]; intros Hx; cbn [app].
  - repeat constructor.
  - inversion Hx; subst. constructor; [now apply IH|].
    apply Forall_app. split; [exact Hy|]. repeat constructor. assumption.
Qed.

Lemma StronglySorted_rev {A} (R : A -> A -> Prop) (l : list A) :
  StronglySorted R l -> StronglySorted (fun a b => R b a) (rev l).
Proof.
  induction 1 as [|y l Hs IH Hy]; cbn [rev]; [constructor|].
  apply StronglySorted_snoc; [exact IH|].
  apply Forall_forall. intros z Hz.
  apply list_elem_of_In, in_rev, list_elem_of_In in Hz.
  rewrite Forall_forall in Hy. now apply Hy.
Qed.

Lemma extractall_spec (root : pystr) (members : list CpioInfo) :
  extractall root members =
  map (first_pass_request root) members ++
  set_directory_attrs root (rev (sort_by_name (List.filter isdir members))).
Proof. unfold extractall. rewrite extract_members_spec. reflexivity. Qed.

(** A file and two directories. *)
Definition file_f : CpioInfo :=
  set_mode 0x81A4 (* 0o100644 *) (CpioInfo_init (s_lit "f")).
Definition dir_a : CpioInfo :=
  set_mode 0x41ED (* 0o040755 *) (CpioInfo_init (s_lit "a")).
Definition dir_b : CpioInfo :=
  set_mode 0x41C0 (* 0o040700 *) (CpioInfo_init (s_lit "b")).

(** C8, as stated, fails on the archive [f, a/, b/] extracted to [out]:
    the file is extracted before any directory is created, and the
    attributes of [a] are applied to [out/b/a], not to [out/a]. *)
Lemma extractall_counterexample :
  extractall (s_lit "out") [file_f; dir_a; dir_b] =
  [ExtractMember file_f (s_lit "out");
   Makedirs (s_lit "out/a") 0x1FF;
   Makedirs (s_lit "out/b") 0x1FF;
   SetDirAttrs dir_b (s_lit "out/b");
   SetDirAttrs dir_a (s_lit "out/b/a")] /\
  path_join (s_lit "out") (name dir_a) = s_lit "out/a" /\
  s_lit "out/b/a" <> s_lit "out/a".
Proof. split; [reflexivity|]. split; [reflexivity|discriminate]. Qed.

(** C8, amended.  [extractall] goes through the members once, in
    encounter order, creating each directory with the permissive mode
    0o777 and extracting each other member as it comes; afterwards owner,
    modification time and permission bits are applied to the directories,
    each of them once, in reverse lexicographic order of member name. *)
Theorem extractall_order (root : pystr) (members : list CpioInfo) :
  exists attrs : list fs_request,
    extractall root members = map (first_pass_request root) members ++ attrs /\
    Forall is_SetDirAttrs attrs /\
    attr_members attrs = rev (sort_by_name (List.filter isdir members)) /\
    Permutation (attr_members attrs) (List.filter isdir members) /\
    StronglySorted name_ge (attr_members attrs).
Proof.
  exists (set_directory_attrs root (rev (sort_by_name (List.filter isdir members)))).
  destruct (set_directory_attrs_spec root
              (rev (sort_by_name (List.filter isdir members)))) as [Hm Hf].
  destruct (sort_by_name_spec (List.filter isdir members)) as [Hp Hs].
  split; [apply extractall_spec|]. split; [exact Hf|]. split; [exact Hm|].
  rewrite Hm. split.
  - rewrite <- Hp at 2. symmetry. apply Permutation_rev.
  - apply (StronglySorted_rev name_le). exact Hs.
Qed.

End ExtractallFacts.

(** ** The KRNL container: packing and padding *)

Section KrnlPackFacts.
Import Rockchip.

(** [pad] appends the missing NUL bytes and never truncates. *)
Lemma pad_spec (content : bytes) (size : Z) :
  pad content size =
  content ++ repeat NUL (Z.to_nat (size - Z.of_nat (length content))).
Proof.
  funelim (pad content size).
  - match goal with H : (_ <? _) = true |- _ =>
      pose proof (proj1 (Z.ltb_lt _ _) H) as Hlt' end.
    match goal with IH : pad _ _ = _ ++ _ |- _ => rewrite IH end.
    rewrite <- app_assoc, <- repeat_app. f_equal. f_equal.
    rewrite length_app, repeat_length. lia.
  - match goal with H : (_ <? _) = false |- _ =>
      pose proof (proj1 (Z.ltb_ge _ _) H) as Hge' end.
    replace (Z.to_nat (size - Z.of_nat (length content))) with 0%nat by lia.
    symmetry. apply app_nil_r.
Qed.



(** The framing alone goes round: an image made of the magic, the size, a
    gzip payload, the payload's checksum and NUL padding is unpacked to
    the payload, and packing that very payload again, for the image's
    size, gives the image back. *)
Lemma krnl_frame_roundtrip (rd size4 crc4 : bytes) (k : nat) (out : pystr) :
  startswith rd [x1f; x8b] = true ->
  pack_le32 (Z.of_nat (length rd)) = Ok size4 ->
  pack_le32 (rkcrc32 rd) = Ok crc4 ->
  let image := b_lit "KRNL" ++ size4 ++ rd ++ crc4 ++ repeat NUL k in
  unpack_rockchip_krnl_bootimg image out =
    Ok ({| boot_magic := s_lit "KRNL"; image_dir := out |}, rd) /\
  pack_rockchip_krnl_bootimg {| ramdisk_patched := None; ramdisk := Some rd |}
    (Z.of_nat (length image)) = Ok image /\
  pack_rockchip_krnl_bootimg {| ramdisk_patched := Some rd; ramdisk := Some rd |}
    (Z.of_nat (length image)) = Ok image.
Proof.
  intros Hg Hs Hc image.
  split.
  - apply unpack_krnl_framed; assumption.
  - unfold pack_rockchip_krnl_bootimg. cbn [ramdisk_patched ramdisk bind].
    rewrite Hs, Hc. cbn [bind]. rewrite pad_spec. subst image.
    rewrite !length_app, repeat_length.
    replace (Z.to_nat _) with k by lia.
    rewrite <- !app_assoc. auto.
Qed.

(** The image depends on the ramdisk bytes: different ramdisks, different
    images. *)
Lemma krnl_pack_injective (rd1 rd2 : bytes) (n1 n2 : Z) (image : bytes) :
  pack_rockchip_krnl_bootimg {| ramdisk_patched := Some rd1; ramdisk := None |} n1
    = Ok image ->
  pack_rockchip_krnl_bootimg {| ramdisk_patched := Some rd2; ramdisk := None |} n2
    = Ok image ->
  rd1 = rd2.
Proof.
  unfold pack_rockchip_krnl_bootimg. cbn [ramdisk_patched ramdisk bind].
  intros H1 H2.
  apply bind_Ok in H1. destruct H1 as (s1 & Hs1 & H1).
  apply bind_Ok in H1. destruct H1 as (c1 & Hc1 & H1).
  apply bind_Ok in H2. destruct H2 as (s2 & Hs2 & H2).
  apply bind_Ok in H2. destruct H2 as (c2 & Hc2 & H2).
  injection H1 as H1. injection H2 as H2. rewrite pad_spec in H1, H2.
  apply unpack_pack_le32 in Hs1, Hs2.
  destruct Hs1 as (Hu1 & Hl1 & _). destruct Hs2 as (Hu2 & Hl2 & _).
  destruct s1 as [|a0 [|a1 [|a2 [|a3 [|]]]]]; try discriminate Hl1.
  destruct s2 as [|b0 [|b1 [|b2 [|b3 [|]]]]]; try discriminate Hl2.
  rewrite <- H2 in H1. clear H2.
  cbn [b_lit list_byte_of_string app] in H1.
  injection H1 as -> -> -> -> H1.
  rewrite Hu1 in Hu2. injection Hu2 as Hlen. apply Nat2Z.inj in Hlen.
  rewrite <- !app_assoc in H1.
  apply app_inj_1 in H1 as [Hrd _]; [exact Hrd|exact Hlen].
Qed.

End KrnlPackFacts.

(** ** What the repacked archive takes from the live file system *)

Section LiveMetadataFacts.
Import Cpio Pipeline.

Lemma addfile_out_extends (t : CpioFile) (m : CpioInfo) (fileobj : option bytes)
    (t' : CpioFile) :
  addfile t m fileobj = Ok t' -> exists w, f_out t' = f_out t ++ w.
Proof.
  intros H. apply addfile_Ok in H.
  destruct H as (_ & _ & b & payload & off & _ & _ & ->).
  exists (b ++ payload). reflexivity.
Qed.

Lemma pack_entries_out_extends (table : gmap pystr file_attr)
    (files : list tree_entry) (t t' : CpioFile) :
  pack_entries table t files = Ok t' -> exists w, f_out t' = f_out t ++ w.
Proof.
  revert t. induction files as [|e files IH]; intros t H.
  - injection H as <-. exists []. now rewrite app_nil_r.
  - cbn [pack_entries] in H. apply bind_Ok in H. destruct H as (t1 & H1 & H).
    apply IH in H. destruct H as [w2 Hw2].
    unfold pack_entry in H1. apply bind_Ok in H1. destruct H1 as (ci & _ & H1).
    assert (Hw1 : exists w, f_out t1 = f_out t ++ w)
      by (destruct (isreg ci); eapply addfile_out_extends; exact H1).
    destruct Hw1 as [w1 Hw1]. exists (w1 ++ w2).
    now rewrite Hw2, Hw1, app_assoc.
Qed.

(** The first header of the archive [pack] writes carries the inode number
    [lstat] reports for the first entry of the work tree: the attribute
    table has no say in it. *)
Lemma pack_ramdisk_first_inode (ramdisk_files : gmap pystr file_attr)
    (extra : option (gmap pystr file_attr)) (e : tree_entry)
    (files : list tree_entry) (t : CpioFile) :
  fits32 (st_ino (e_stat e)) ->
  pack_ramdisk ramdisk_files extra (e :: files) = Ok t ->
  firstn 14 (f_out t) = fmt_X 6 MAGIC_NEWC ++ fmt_X 8 (st_ino (e_stat e)).
Proof.
  intros Hino H. unfold pack_ramdisk in H.
  apply bind_Ok in H. destruct H as (t2 & H2 & Hclose).
  cbn [pack_entries] in H2. apply bind_Ok in H2. destruct H2 as (t1 & H1 & H2).
  apply pack_entries_out_extends in H2. destruct H2 as [w2 Hw2].
  assert (Hw3 : exists w3, f_out t = f_out t2 ++ w3).
  { unfold close in Hclose. destruct (f_closed t2).
    - injection Hclose as <-. exists []. now rewrite app_nil_r.
    - apply bind_Ok in Hclose. destruct Hclose as (w & _ & Hclose).
      injection Hclose as <-. eexists. reflexivity. }
  destruct Hw3 as [w3 Hw3].
  unfold pack_entry in H1. apply bind_Ok in H1. destruct H1 as (ci & Hci & H1).
  assert (Hci_ino : ino ci = st_ino (e_stat e)).
  { unfold pack_member in Hci. apply bind_Ok in Hci.
    destruct Hci as (p & _ & Hci). injection Hci as <-. reflexivity. }
  assert (Hadd : exists fo, addfile CpioFile_init_w ci fo = Ok t1)
    by (destruct (isreg ci); eexists; exact H1).
  destruct Hadd as [fo Hadd]. apply addfile_Ok in Hadd.
  destruct Hadd as (_ & _ & b & payload & off & Hb & _ & ->).
  destruct (track_hardlink_attrs CpioFile_init_w ci) as (_ & _ & _ & _ & _ & Hi).
  cbv zeta in Hi.
  set (m := (track_hardlink CpioFile_init_w ci).1) in *.
  unfold tobuf in Hb. apply bind_Ok in Hb. destruct Hb as (name_b & _ & Hb).
  destruct (pad_to_word_spec (header_fields m ++ name_b ++ [NUL]))
    as (k & Hpad & _).
  assert (Hbpre : exists rest, b = fmt_X 6 MAGIC_NEWC ++ fmt_X 8 (ino m) ++ rest).
  { destruct (decide (linkname m = [])).
    - assert (Heq : b = pad_to_word (header_fields m ++ name_b ++ [NUL]))
        by congruence.
      rewrite Heq, Hpad. unfold header_fields.
      rewrite <- !app_assoc. eexists. reflexivity.
    - apply bind_Ok in Hb. destruct Hb as (link_b & _ & Hb).
      assert (Heq : b = pad_to_word
                          (pad_to_word (header_fields m ++ name_b ++ [NUL]) ++ link_b))
        by congruence.
      rewrite Heq.
      destruct (pad_to_word_spec
                  (pad_to_word (header_fields m ++ name_b ++ [NUL]) ++ link_b))
        as (k2 & -> & _).
      rewrite Hpad. unfold header_fields. rewrite <- !app_assoc.
      eexists. reflexivity. }
  destruct Hbpre as [rest ->].
  rewrite Hw3, Hw2. cbn [f_out CpioFile_init_w app].
  rewrite Hi, Hci_ino, <- !app_assoc.
  rewrite (app_assoc (fmt_X 6 MAGIC_NEWC)).
  rewrite firstn_app.
  assert (Hlen : length (fmt_X 6 MAGIC_NEWC ++ fmt_X 8 (st_ino (e_stat e))) = 14%nat).
  { rewrite length_app, (length_fmt_X_8 _ Hino). reflexivity. }
  rewrite Hlen, Nat.sub_diag. cbn [firstn]. rewrite app_nil_r.
  rewrite <- Hlen at 1. apply firstn_all.
Qed.

End LiveMetadataFacts.

(** ** Unpack, then pack *)

Section RoundtripFacts.
Import Cpio Pipeline Rockchip Roundtrip.

(** The ramdisk [pack_rockchip_krnl_bootimg] frames is [ramdisk.patched]
    whenever that file exists. *)
Lemma krnl_pack_patched (rd : bytes) (other : option bytes) (n : Z) :
  pack_rockchip_krnl_bootimg {| ramdisk_patched := Some rd; ramdisk := other |} n =
  pack_rockchip_krnl_bootimg {| ramdisk_patched := Some rd; ramdisk := None |} n.
Proof. reflexivity. Qed.

(** What a successful [pack_rockchip_krnl_bootimg] wrote. *)
Lemma krnl_pack_Ok (rd : bytes) (other : option bytes) (n : Z) (image : bytes) :
  pack_rockchip_krnl_bootimg {| ramdisk_patched := Some rd; ramdisk := other |} n
    = Ok image ->
  exists s0 s1 s2 s3 rest,
    unpack_le32 [s0; s1; s2; s3] = Ok (Z.of_nat (length rd)) /\
    image = b_lit "KRNL" ++ [s0; s1; s2; s3] ++ rd ++ rest.
Proof.
  unfold pack_rockchip_krnl_bootimg. cbn [ramdisk_patched ramdisk bind].
  intros H. apply bind_Ok in H. destruct H as (s & Hs & H).
  apply bind_Ok in H. destruct H as (c & Hc & H).
  injection H as H. rewrite pad_spec in H.
  apply unpack_pack_le32 in Hs. destruct Hs as (Hu & Hl & _).
  destruct s as [|s0 [|s1 [|s2 [|s3 [|]]]]]; try discriminate Hl.
  exists s0, s1, s2, s3, (c ++ repeat NUL
    (Z.to_nat (n - Z.of_nat (length (b_lit "KRNL" ++ [s0; s1; s2; s3] ++ rd ++ c))))).
  split; [exact Hu|].
  rewrite <- H. cbn [b_lit list_byte_of_string app].
  rewrite <- ?app_assoc. reflexivity.
Qed.

(** The cpio stream [pack] writes begins with the character ['0'] of the
    magic, whatever the work tree. *)
Lemma tobuf_head (m : CpioInfo) (b : bytes) :
  tobuf m = Ok b -> exists rest, b = x30 :: rest.
Proof.
  unfold tobuf. intros Hb. apply bind_Ok in Hb. destruct Hb as (name_b & _ & Hb).
  destruct (pad_to_word_spec (header_fields m ++ name_b ++ [NUL])) as (k & Hpad & _).
  assert (Hh : exists r, header_fields m = x30 :: r)
    by (unfold header_fields; eexists; reflexivity).
  destruct Hh as [r Hh].
  destruct (decide (linkname m = [])).
  - assert (Heq : b = pad_to_word (header_fields m ++ name_b ++ [NUL])) by congruence.
    rewrite Heq, Hpad, Hh. eexists. reflexivity.
  - apply bind_Ok in Hb. destruct Hb as (link_b & _ & Hb).
    assert (Heq : b = pad_to_word
                        (pad_to_word (header_fields m ++ name_b ++ [NUL]) ++ link_b))
      by congruence.
    rewrite Heq.
    destruct (pad_to_word_spec
                (pad_to_word (header_fields m ++ name_b ++ [NUL]) ++ link_b))
      as (k2 & -> & _).
    rewrite Hpad, Hh. eexists. reflexivity.
Qed.

Lemma pack_ramdisk_out_head (ramdisk_files : gmap pystr file_attr)
    (extra : option (gmap pystr file_attr)) (files : list tree_entry) (t : CpioFile) :
  pack_ramdisk ramdisk_files extra files = Ok t ->
  exists rest, f_out t = x30 :: rest.
Proof.
  unfold pack_ramdisk. intros H.
  apply bind_Ok in H. destruct H as (t2 & H2 & Hclose).
  destruct files as [|e files].
  - injection H2 as <-. unfold close in Hclose. cbn in Hclose.
    injection Hclose as <-. eexists. reflexivity.
  - cbn [pack_entries] in H2. apply bind_Ok in H2. destruct H2 as (t1 & H1 & H2).
    apply pack_entries_out_extends in H2. destruct H2 as [w2 Hw2].
    assert (Hw3 : exists w3, f_out t = f_out t2 ++ w3).
    { unfold close in Hclose. destruct (f_closed t2).
      - injection Hclose as <-. exists []. now rewrite app_nil_r.
      - apply bind_Ok in Hclose. destruct Hclose as (w & _ & Hclose).
        injection Hclose as <-. eexists. reflexivity. }
    destruct Hw3 as [w3 Hw3].
    unfold pack_entry in H1. apply bind_Ok in H1. destruct H1 as (ci & _ & H1).
    assert (Hadd : exists fo, addfile CpioFile_init_w ci fo = Ok t1)
      by (destruct (isreg ci); eexists; exact H1).
    destruct Hadd as [fo Hadd]. apply addfile_Ok in Hadd.
    destruct Hadd as (_ & _ & b & payload & off & Hb & _ & ->).
    apply tobuf_head in Hb. destruct Hb as [rest ->].
    rewrite Hw3, Hw2. cbn [f_out CpioFile_init_w app]. eexists. reflexivity.
Qed.

(** Whatever the host, the ramdisk of the repacked image begins with
    1F 8B 08 08 or with ['0']. *)
Lemma unpack_then_pack_payload (h : host) (image : bytes) (work_dir : pystr)
    (out : bytes) :
  unpack_then_pack h image work_dir = Ok out ->
  exists s0 s1 s2 s3 rest,
    out = b_lit "KRNL" ++ [s0; s1; s2; s3] ++ [x1f; x8b; x08; x08] ++ rest \/
    out = b_lit "KRNL" ++ [s0; s1; s2; s3] ++ x30 :: rest.
Proof.
  unfold unpack_then_pack. intros H.
  apply bind_Ok in H. destruct H as (r & _ & H).
  apply bind_Ok in H. destruct H as (t & Ht & H).
  apply krnl_pack_Ok in H. destruct H as (s0 & s1 & s2 & s3 & rest & _ & ->).
  exists s0, s1, s2, s3.
  destruct (h_gzip h).
  - unfold GzipFile_write. eexists. left. rewrite <- !app_assoc. reflexivity.
  - apply pack_ramdisk_out_head in Ht. destruct Ht as [r' ->].
    eexists. right. reflexivity.
Qed.

Example sample_image_unpacks :
  unpack_rockchip_krnl_bootimg sample_image (s_lit "work") =
  Ok ({| boot_magic := s_lit "KRNL"; image_dir := s_lit "work" |}, sample_ramdisk).
Proof. vm_compute. reflexivity. Qed.

(** C1, as stated, fails on [sample_image], a KRNL image with its right
    checksum and NUL padding whose ramdisk is a gzip member without a file
    name: unpacking and packing it runs through on [sample_host], and on
    no host at all does it give the image back. *)
Lemma unpack_then_pack_counterexample :
  (exists out, unpack_then_pack sample_host sample_image (s_lit "work") = Ok out) /\
  ~ (exists h : host,
       unpack_then_pack h sample_image (s_lit "work") = Ok sample_image).
Proof.
  split.
  - eexists. vm_compute. reflexivity.
  - intros [h H]. apply unpack_then_pack_payload in H.
    destruct H as (s0 & s1 & s2 & s3 & rest & [H|H]);
      apply (f_equal (firstn 12)) in H; vm_compute in H; congruence.
Qed.

(** C1, amended.  For a KRNL image made of the magic, the size, a gzip
    ramdisk of that size, the ramdisk's checksum and NUL padding: unpack
    extracts the ramdisk, and pack, run for the image's recorded size on a
    work directory whose [ramdisk.patched] holds the re-encoded ramdisk,
    writes a file byte-identical to the image, checksum and padding
    included, exactly when the re-encoded ramdisk is byte-identical to the
    original one. *)
Theorem krnl_repack_identical_iff (rd rd' size4 crc4 : bytes) (k : nat)
    (work_dir : pystr) :
  startswith rd [x1f; x8b] = true ->
  pack_le32 (Z.of_nat (length rd)) = Ok size4 ->
  pack_le32 (rkcrc32 rd) = Ok crc4 ->
  let image := b_lit "KRNL" ++ size4 ++ rd ++ crc4 ++ repeat NUL k in
  unpack_rockchip_krnl_bootimg image work_dir =
    Ok ({| boot_magic := s_lit "KRNL"; image_dir := work_dir |}, rd) /\
  (pack_rockchip_krnl_bootimg
     {| ramdisk_patched := Some rd'; ramdisk := Some rd |}
     (Z.of_nat (length image)) = Ok image <-> rd' = rd).
Proof.
  intros Hg Hs Hc image.
  destruct (krnl_frame_roundtrip rd size4 crc4 k work_dir Hg Hs Hc)
    as (Hu & _ & Hp).
  split; [exact Hu|]. split.
  - intros H. rewrite krnl_pack_patched in H, Hp.
    eapply krnl_pack_injective; eassumption.
  - intros ->. exact Hp.
Qed.

Lemma krnl_repack_identical_iff_witness :
  unpack_rockchip_krnl_bootimg sample_image (s_lit "work") =
    Ok ({| boot_magic := s_lit "KRNL"; image_dir := s_lit "work" |}, sample_ramdisk) /\
  pack_rockchip_krnl_bootimg
    {| ramdisk_patched := Some sample_ramdisk; ramdisk := Some sample_ramdisk |}
    (Z.of_nat (length sample_image)) = Ok sample_image.
Proof.
  destruct (krnl_repack_identical_iff sample_ramdisk sample_ramdisk
              [x50; x00; x00; x00] [xa9; x6b; x8a; x62] 36 (s_lit "work")
              eq_refl eq_refl) as [Hu Hiff].
  - vm_compute. reflexivity.
  - split; [exact Hu|]. apply Hiff. reflexivity.
Defined.

End RoundtripFacts.

(** ** Further properties of the KRNL container, the padding and the
    checksum *)

Section ContainerFacts.
Import Rockchip.











End ContainerFacts.

(** ** Further properties of the cpio archive code *)

Section ArchiveFacts.
Import Cpio.






End ArchiveFacts.

(** ** Reading an archive back *)

Section ReaderFacts.
Import Cpio Reader.

(** [_word c] is the one multiple of the word size from [c] to [c + 3]. *)
Lemma _word_unique (c x : Z) : x mod 4 = 0 -> c <= x < c + 4 -> _word c = x.
Proof.
  intros Hx Hc. unfold _word, WORDSIZE.
  pose proof (Z.mod_pos_bound c 4 ltac:(lia)) as Hr.
  pose proof (Z.div_mod c 4 ltac:(lia)) as Hdm.
  pose proof (Z.div_mod x 4 ltac:(lia)) as Hdx.
  destruct (c mod 4 =? 0) eqn:E;
    [apply Z.eqb_eq in E | apply Z.eqb_neq in E]; lia.
Qed.

Lemma _word_0 : _word 0 = 0.
Proof. reflexivity. Qed.

Lemma rstrip_NUL_zeros (k : nat) : rstrip_NUL (repeat NUL k) = [].
Proof.
  induction k as [|k IH]; [reflexivity|].
  cbn [repeat rstrip_NUL]. rewrite IH. now rewrite decide_True.
Qed.

(** Stripping takes the NUL bytes behind a text that has none. *)
Lemma rstrip_NUL_app (s : bytes) (k : nat) :
  Forall (fun c => c <> NUL) s -> rstrip_NUL (s ++ repeat NUL k) = s.
Proof.
  induction 1 as [|c s Hc Hs IH]; [apply rstrip_NUL_zeros|].
  cbn [app rstrip_NUL]. rewrite IH.
  destruct s; [now rewrite decide_False|reflexivity].
Qed.

Lemma utf8_decode_ascii (s : pystr) :
  Forall (fun c => (c < 128)%N) s -> utf8_decode (map chr s) = Some s.
Proof.
  induction 1 as [|c s Hc Hs IH]; [reflexivity|].
  cbn [map utf8_decode]. rewrite to_N_chr by lia.
  replace (c <? 128)%N with true by (symmetry; apply N.ltb_lt; exact Hc).
  now rewrite IH.
Qed.

Lemma read_at_app (pre x rest : bytes) (o n : Z) :
  o = Z.of_nat (length pre) -> n = Z.of_nat (length x) ->
  read_at (pre ++ x ++ rest) o n = x.
Proof.
  intros -> ->. unfold read_at.
  replace (Z.of_nat (length x) <? 0) with false
    by (symmetry; apply Z.ltb_ge; lia).
  rewrite !Nat2Z.id, skipn_app, skipn_all, Nat.sub_diag. cbn [app].
  rewrite skipn_O, firstn_app, firstn_all, Nat.sub_diag. cbn [firstn]. apply app_nil_r.
Qed.

(** What [frombuf] reads in a header. *)
Definition parsed (m : CpioInfo) : CpioInfo := {|
  ino := ino m; mode := mode m; uid := uid m; gid := gid m; nlink := nlink m;
  mtime := mtime m; size := size_field m; devmajor := devmajor m;
  devminor := devminor m; rdevmajor := rdevmajor m; rdevminor := rdevminor m;
  namesize := Z.of_nat (length (name m)) + 1; check := check m; name := [];
  linkname := []; offset := 0; offset_data := 0;
  buf := Some (header_fields m) |}.

Lemma frombuf_header_fields (m : CpioInfo) :
  header_fits m -> frombuf (header_fields m) = Ok (parsed m).
Proof.
  intros Hfit. pose proof (length_header_fields m Hfit) as Hlen.
  destruct Hfit as (H1 & H2 & H3 & H4 & H5 & H6 & H7 & H8 & H9 & H10 & H11 &
                    H12 & H13).
  destruct (slices_of_fields
              (fmt_X 6 MAGIC_NEWC) (fmt_X 8 (ino m)) (fmt_X 8 (mode m))
              (fmt_X 8 (uid m)) (fmt_X 8 (gid m)) (fmt_X 8 (nlink m))
              (fmt_X 8 (mtime m)) (fmt_X 8 (size_field m)) (fmt_X 8 (devmajor m))
              (fmt_X 8 (devminor m)) (fmt_X 8 (rdevmajor m))
              (fmt_X 8 (rdevminor m))
              (fmt_X 8 (Z.of_nat (length (name m)) + 1))
              (fmt_X 8 (check m)))
    as (S1 & S2 & S3 & S4 & S5 & S6 & S7 & S8 & S9 & S10 & S11 & S12 & S13 & S0);
    try (apply length_fmt_X_8; assumption); [reflexivity|].
  change (fmt_X 6 MAGIC_NEWC ++ fmt_X 8 (ino m) ++ fmt_X 8 (mode m) ++
          fmt_X 8 (uid m) ++ fmt_X 8 (gid m) ++ fmt_X 8 (nlink m) ++
          fmt_X 8 (mtime m) ++ fmt_X 8 (size_field m) ++ fmt_X 8 (devmajor m) ++
          fmt_X 8 (devminor m) ++ fmt_X 8 (rdevmajor m) ++
          fmt_X 8 (rdevminor m) ++ fmt_X 8 (Z.of_nat (length (name m)) + 1) ++
          fmt_X 8 (check m)) with (header_fields m) in *.
  rewrite firstn_all2 in * by (rewrite Hlen; unfold HEADERSIZE_SVR4; lia).
  rewrite firstn_all2 in S13 by (rewrite length_fmt_X_8 by assumption; lia).
  unfold frombuf.
  rewrite S1, S2, S3, S4, S5, S6, S7, S8, S9, S10, S11, S12, S13.
  rewrite !py_int_fmt_X by (unfold fits32 in *; lia).
  reflexivity.
Qed.

Lemma size_field_no_link (m : CpioInfo) : linkname m = [] -> size_field m = size m.
Proof.
  intros Hl. unfold size_field. rewrite decide_True by exact Hl. rewrite Hl.
  destruct (size m =? 0) eqn:E; [apply Z.eqb_eq in E; simpl; lia|reflexivity].
Qed.

Lemma chr_not_NUL (s : pystr) :
  Forall (fun c => (0 < c < 128)%N) s -> Forall (fun c => c <> NUL) (map chr s).
Proof.
  intros H. apply List.Forall_map. eapply List.Forall_impl; [|exact H].
  intros c Hc Heq. cbv beta in Hc.
  apply (f_equal Byte.to_N) in Heq. rewrite to_N_chr in Heq by lia.
  change (Byte.to_N NUL) with 0%N in Heq. lia.
Qed.

Lemma ascii_small (s : pystr) :
  Forall (fun c => (0 < c < 128)%N) s -> Forall (fun c => (c < 128)%N) s.
Proof. apply List.Forall_impl. intros c Hc. cbv beta in Hc. lia. Qed.

(** The two reads of [__next__] on a header that [tobuf] wrote, for a
    member without a link name: the 110 bytes of the fields, and the name
    with its NUL bytes, as long as the name-length field says. *)
Lemma read_header_written (m : CpioInfo) (b pre rest : bytes) (o : Z) :
  linkname m = [] -> header_fits m ->
  Forall (fun c => (0 < c < 128)%N) (name m) ->
  tobuf m = Ok b -> o = Z.of_nat (length pre) ->
  Z.of_nat (length (header_fields m)) = Z.of_nat HEADERSIZE_SVR4 /\
  firstn HEADERSIZE_SVR4 b = header_fields m /\
  read_at (pre ++ b ++ rest) o (Z.of_nat HEADERSIZE_SVR4) = header_fields m /\
  _word (Z.of_nat HEADERSIZE_SVR4 + (Z.of_nat (length (name m)) + 1)) =
    Z.of_nat (length b) /\
  exists k : nat,
    read_at (pre ++ b ++ rest) (o + Z.of_nat HEADERSIZE_SVR4)
            (Z.of_nat (length b) - Z.of_nat HEADERSIZE_SVR4) =
      map chr (name m) ++ repeat NUL (S k) /\
    Z.of_nat (length b) =
      Z.of_nat HEADERSIZE_SVR4 + Z.of_nat (length (name m)) + 1 + Z.of_nat k.
Proof.
  intros Hl Hfit Hname Hb ->.
  pose proof (length_header_fields m Hfit) as Hlen.
  destruct (tobuf_ascii_name m b Hl Hfit (ascii_small _ Hname) Hb)
    as (k & -> & Hk & Hmod).
  assert (Hlb : Z.of_nat (length (header_fields m ++ map chr (name m) ++
                                  [NUL] ++ repeat NUL k)) =
                Z.of_nat HEADERSIZE_SVR4 + Z.of_nat (length (name m)) + 1 +
                Z.of_nat k).
  { rewrite !length_app, Hlen, length_map, repeat_length.
    cbn [length]. lia. }
  split; [now rewrite Hlen|]. split.
  { rewrite firstn_app, <- Hlen, firstn_all, Nat.sub_diag. cbn [firstn].
    apply app_nil_r. }
  split.
  { rewrite <- !app_assoc. apply read_at_app; [reflexivity|now rewrite Hlen]. }
  split.
  { apply _word_unique; [rewrite Hlb|rewrite Hlb; lia].
    unfold HEADERSIZE_SVR4.
    replace (Z.of_nat 110 + Z.of_nat (length (name m)) + 1 + Z.of_nat k)
      with (110 + Z.of_nat (length (name m)) + 1 + Z.of_nat k) by lia.
    exact Hmod. }
  exists k. split; [|exact Hlb].
  change ([NUL] ++ repeat NUL k) with (repeat NUL (S k)).
  replace (pre ++ (header_fields m ++ map chr (name m) ++ repeat NUL (S k)) ++ rest)
    with ((pre ++ header_fields m) ++
          (map chr (name m) ++ repeat NUL (S k)) ++ rest)
    by (now rewrite <- !app_assoc).
  apply read_at_app.
  - rewrite length_app, Hlen. lia.
  - change ([NUL] ++ repeat NUL k) with (repeat NUL (S k)) in Hlb.
    rewrite Hlb, length_app, length_map, repeat_length. lia.
Qed.

(** A member that [__next__] reads back as [tobuf] wrote it: no link
    name, not a symbolic link, fields that fit their eight digits, and a
    name of ASCII characters other than NUL that is not the trailer's. *)
Definition readable (m : CpioInfo) : Prop :=
  linkname m = [] /\ issym m = false /\ header_fits m /\
  Forall (fun c => (0 < c < 128)%N) (name m) /\
  map chr (name m) <> TRAILER_NAME.

(** The member read at offset [o] from the header [b] of [m]. *)
Definition as_read (o : Z) (b : bytes) (m : CpioInfo) : CpioInfo := {|
  ino := ino m; mode := mode m; uid := uid m; gid := gid m; nlink := nlink m;
  mtime := mtime m; size := size m; devmajor := devmajor m;
  devminor := devminor m; rdevmajor := rdevmajor m; rdevminor := rdevminor m;
  namesize := Z.of_nat (length (name m)) + 1; check := check m;
  name := name m; linkname := []; offset := o;
  offset_data := o + Z.of_nat (length b);
  buf := Some (firstn HEADERSIZE_SVR4 b) |}.

Lemma read_member_written (m : CpioInfo) (b pre rest : bytes) (o : Z) :
  readable m -> tobuf m = Ok b -> o = Z.of_nat (length pre) ->
  read_member (pre ++ b ++ rest) o (header_fields m) =
  (o + Z.of_nat (length b) + _word (size m), Ok (Some (as_read o b m))).
Proof.
  intros (Hl & Hsym & Hfit & Hname & Htr) Hb Ho.
  destruct (read_header_written m b pre rest o Hl Hfit Hname Hb Ho)
    as (Hlen & Hfirst & _ & Hword & k & Hread & Hlb).
  unfold read_member. rewrite (frombuf_header_fields m Hfit).
  cbv beta iota zeta. change (namesize (parsed m)) with
    (Z.of_nat (length (name m)) + 1).
  rewrite Hlen, Hword, Hread.
  rewrite (rstrip_NUL_app _ _ (chr_not_NUL _ Hname)).
  rewrite decide_False by exact Htr.
  unfold decode. rewrite (utf8_decode_ascii _ (ascii_small _ Hname)).
  change (issym (set_offset o (set_name (name m) (parsed m)))) with (issym m).
  rewrite Hsym. unfold proc_member.
  cbn [size set_offset set_name set_offset_data parsed].
  rewrite (size_field_no_link m Hl).
  assert (Hsz : 0 <= size m).
  { destruct Hfit as (_ & _ & _ & _ & _ & _ & Hs & _).
    rewrite (size_field_no_link m Hl) in Hs. apply Hs. }
  assert (Heq : set_offset_data (o + Z.of_nat (length b))
                  (set_offset o (set_name (name m) (parsed m))) = as_read o b m).
  { unfold as_read, set_offset_data, set_offset, set_name, parsed.
    rewrite (size_field_no_link m Hl), Hfirst. reflexivity. }
  rewrite Heq.
  destruct (0 <? size m) eqn:E; [reflexivity|].
  apply Z.ltb_ge in E. replace (size m) with 0 by lia.
  rewrite _word_0, Z.add_0_r. reflexivity.
Qed.

(** A reader in the middle of an archive: open, nothing kept in
    [firstmember]. *)
Definition reader_at (content : bytes) (members : list CpioInfo) (o : Z)
    (loaded : bool) : CpioReader :=
  {| r_fileobj := content; r_closed := false; r_members := members;
     r_loaded := loaded; r_offset := o; r_firstmember := None |}.

Lemma header_fields_cons (m : CpioInfo) :
  exists c hf, header_fields m = c :: hf.
Proof. unfold header_fields. eexists _, _. reflexivity. Qed.

Lemma next_member_written (m : CpioInfo) (b pre rest : bytes)
    (members : list CpioInfo) (loaded : bool) :
  readable m -> tobuf m = Ok b ->
  next (reader_at (pre ++ b ++ rest) members (Z.of_nat (length pre)) loaded) =
  Done (Some (as_read (Z.of_nat (length pre)) b m),
        reader_at (pre ++ b ++ rest)
          (members ++ [as_read (Z.of_nat (length pre)) b m])
          (Z.of_nat (length pre) + Z.of_nat (length b) + _word (size m))
          loaded).
Proof.
  intros Hm Hb. pose proof Hm as (Hl & _ & Hfit & Hname & _).
  destruct (read_header_written m b pre rest _ Hl Hfit Hname Hb eq_refl)
    as (_ & _ & Hread & _).
  unfold next, reader_at.
  cbn [r_closed r_firstmember r_offset r_fileobj r_members r_loaded].
  replace (Z.of_nat (length pre) <? 0) with false
    by (symmetry; apply Z.ltb_ge; lia).
  rewrite Hread.
  rewrite (read_member_written m b pre rest _ Hm Hb eq_refl).
  destruct (header_fields_cons m) as (c & hf & ->). reflexivity.
Qed.

Lemma trailer_header_fits : header_fits trailer.
Proof.
  unfold header_fits, fits32.
  repeat split; (vm_compute; reflexivity) || (vm_compute; discriminate).
Qed.

Lemma trailer_name_chars : Forall (fun c => (0 < c < 128)%N) (name trailer).
Proof. repeat constructor. Qed.

Lemma next_trailer (tb pre rest : bytes) (members : list CpioInfo)
    (loaded : bool) :
  tobuf trailer = Ok tb ->
  next (reader_at (pre ++ tb ++ rest) members (Z.of_nat (length pre)) loaded) =
  Done (None,
        reader_at (pre ++ tb ++ rest) members
          (Z.of_nat (length pre) + Z.of_nat (length tb)) loaded).
Proof.
  intros Hb.
  destruct (read_header_written trailer tb pre rest _ eq_refl
              trailer_header_fits trailer_name_chars Hb eq_refl)
    as (Hlen & _ & Hread & Hword & k & Hname & _).
  unfold next, reader_at.
  cbn [r_closed r_firstmember r_offset r_fileobj r_members r_loaded].
  replace (Z.of_nat (length pre) <? 0) with false
    by (symmetry; apply Z.ltb_ge; lia).
  rewrite Hread.
  assert (Hrm : read_member (pre ++ tb ++ rest) (Z.of_nat (length pre))
                  (header_fields trailer) =
                (Z.of_nat (length pre) + Z.of_nat (length tb), Ok None)).
  { unfold read_member. rewrite (frombuf_header_fields _ trailer_header_fits).
    cbv beta iota zeta.
    change (namesize (parsed trailer)) with
      (Z.of_nat (length (name trailer)) + 1).
    rewrite Hlen, Hword, Hname.
    rewrite (rstrip_NUL_app _ _ (chr_not_NUL _ trailer_name_chars)).
    now rewrite decide_True by reflexivity. }
  rewrite Hrm.
  destruct (header_fields_cons trailer) as (c & hf & ->). reflexivity.
Qed.

(** A member as [addfile] wrote it: the member, the bytes of its header
    and its data with the padding behind. *)
Definition written : Type := CpioInfo * bytes * bytes.

Definition stream (rs : list written) : bytes :=
  concat (map (fun r : written => r.1.2 ++ r.2) rs).

Fixpoint read_list (o : Z) (rs : list written) : list CpioInfo :=
  match rs with
  | [] => []
  | r :: rs' =>
      as_read o r.1.2 r.1.1 ::
      read_list (o + Z.of_nat (length r.1.2) + Z.of_nat (length r.2)) rs'
  end.

Definition well_written (r : written) : Prop :=
  readable r.1.1 /\ tobuf r.1.1 = Ok r.1.2 /\
  Z.of_nat (length r.2) = _word (size r.1.1).

Lemma _load_member (fuel : nat) (t t' : CpioReader) (m : CpioInfo) :
  next t = Done (Some m, t') -> _load (S fuel) t = _load fuel t'.
Proof. intros H. cbn [_load]. now rewrite H. Qed.

Lemma _load_none (fuel : nat) (content : bytes) (members : list CpioInfo)
    (o o' : Z) (loaded : bool) :
  next (reader_at content members o loaded) =
    Done (None, reader_at content members o' loaded) ->
  _load (S fuel) (reader_at content members o loaded) =
  Some (Done (reader_at content members o' true)).
Proof. intros H. cbn [_load]. now rewrite H. Qed.

(** [_load] on members written one after the other and a trailer: it reads
    every member, stops at the trailer and looks at nothing behind it. *)
Lemma load_written (rs : list written) (tb pre rest : bytes)
    (members : list CpioInfo) :
  Forall well_written rs -> tobuf trailer = Ok tb ->
  _load (S (length rs))
    (reader_at (pre ++ stream rs ++ tb ++ rest) members
       (Z.of_nat (length pre)) false) =
  Some (Done (reader_at (pre ++ stream rs ++ tb ++ rest)
                (members ++ read_list (Z.of_nat (length pre)) rs)
                (Z.of_nat (length pre) + Z.of_nat (length (stream rs)) +
                 Z.of_nat (length tb)) true)).
Proof.
  intros Hrs Htb. revert pre members.
  induction Hrs as [|[[m b] p] rs (Hm & Hb & Hp) Hrs IH]; intros pre members.
  - cbn [length stream map concat app read_list].
    rewrite (_load_none _ _ _ _ _ _ (next_trailer tb pre rest members false Htb)).
    rewrite app_nil_r. do 3 f_equal. lia.
  - cbn [fst snd] in Hm, Hb, Hp.
    change (stream ((m, b, p) :: rs)) with ((b ++ p) ++ stream rs).
    cbn [length].
    replace (pre ++ ((b ++ p) ++ stream rs) ++ tb ++ rest)
      with (pre ++ b ++ (p ++ stream rs ++ tb ++ rest))
      by (now rewrite <- !app_assoc).
    rewrite (_load_member _ _ _ _
               (next_member_written m b pre _ members false Hm Hb)).
    replace (pre ++ b ++ p ++ stream rs ++ tb ++ rest)
      with ((pre ++ b ++ p) ++ stream rs ++ tb ++ rest)
      by (now rewrite <- !app_assoc).
    replace (Z.of_nat (length pre) + Z.of_nat (length b) + _word (size m))
      with (Z.of_nat (length (pre ++ b ++ p)))
      by (rewrite !length_app; lia).
    rewrite IH. cbn [read_list fst snd].
    assert (E1 : Z.of_nat (length (pre ++ b ++ p)) =
                 Z.of_nat (length pre) + Z.of_nat (length b) +
                 Z.of_nat (length p)) by (rewrite !length_app; lia).
    rewrite E1. do 2 f_equal. unfold reader_at.
    f_equal; [now rewrite <- app_assoc|rewrite !length_app; lia].
Qed.

Lemma next_first (content : bytes) (members : list CpioInfo) (o : Z)
    (loaded : bool) (m : CpioInfo) :
  next {| r_fileobj := content; r_closed := false; r_members := members;
          r_loaded := loaded; r_offset := o; r_firstmember := Some m |} =
  Done (Some m, reader_at content members o loaded).
Proof. reflexivity. Qed.

Lemma next_eof (content : bytes) (members : list CpioInfo) (loaded : bool) :
  next (reader_at content members (Z.of_nat (length content)) loaded) =
  Done (None, reader_at content members (Z.of_nat (length content)) loaded).
Proof.
  unfold next, reader_at.
  cbn [r_closed r_firstmember r_offset r_fileobj r_members r_loaded].
  replace (Z.of_nat (length content) <? 0) with false
    by (symmetry; apply Z.ltb_ge; lia).
  unfold read_at. rewrite Nat2Z.id, skipn_all. reflexivity.
Qed.

(** Opening and listing an archive made of written members and a trailer.
    What follows the trailer is not looked at when there is a member. *)
Lemma getmembers_written (rs : list written) (tb rest : bytes) :
  Forall well_written rs -> tobuf trailer = Ok tb ->
  rs <> [] \/ rest = [] ->
  exists tr tr',
    CpioFile_init_r (stream rs ++ tb ++ rest) = Done tr /\
    getmembers (S (length rs)) tr = Some (Done (read_list 0 rs, tr')) /\
    r_members tr' = read_list 0 rs /\ r_loaded tr' = true.
Proof.
  intros Hrs Htb Hne. destruct rs as [|[[m b] p] rs].
  - destruct Hne as [Hne| ->]; [contradiction|].
    cbn [stream map concat app length read_list]. rewrite app_nil_r.
    pose proof (next_trailer tb [] [] [] false Htb) as Hn.
    cbn [app length] in Hn. rewrite app_nil_r in Hn.
    change (Z.of_nat 0) with 0 in Hn. rewrite Z.add_0_l in Hn.
    unfold CpioFile_init_r. fold (reader_at tb [] 0 false). rewrite Hn.
    eexists _, _. split; [reflexivity|].
    unfold getmembers.
    cbn [reader_at r_closed r_loaded r_fileobj r_members r_offset r_firstmember].
    fold (reader_at tb [] (Z.of_nat (length tb)) false).
    rewrite (_load_none _ _ _ _ _ _ (next_eof tb [] false)).
    split; [reflexivity|]. split; reflexivity.
  - clear Hne. inversion Hrs as [|r rs' (Hm & Hb & Hp) Hrs']; subst.
    cbn [fst snd] in Hm, Hb, Hp.
    change (stream ((m, b, p) :: rs)) with ((b ++ p) ++ stream rs).
    pose proof (next_member_written m b [] (p ++ stream rs ++ tb ++ rest)
                  [] false Hm Hb) as Hn.
    cbn [app length] in Hn. change (Z.of_nat 0) with 0 in Hn.
    rewrite Z.add_0_l in Hn.
    replace (((b ++ p) ++ stream rs) ++ tb ++ rest)
      with (b ++ p ++ stream rs ++ tb ++ rest) by (now rewrite <- !app_assoc).
    unfold CpioFile_init_r.
    fold (reader_at (b ++ p ++ stream rs ++ tb ++ rest) [] 0 false).
    rewrite Hn.
    eexists _, _. split; [reflexivity|].
    unfold getmembers.
    cbn [reader_at r_closed r_loaded r_fileobj r_members r_offset r_firstmember].
    cbn [length]. rewrite (_load_member _ _ _ _ (next_first _ _ _ _ _)).
    replace (b ++ p ++ stream rs ++ tb ++ rest)
      with ((b ++ p) ++ stream rs ++ tb ++ rest) by (now rewrite <- !app_assoc).
    replace (Z.of_nat (length b) + _word (size m))
      with (Z.of_nat (length (b ++ p))) by (rewrite length_app; lia).
    rewrite (load_written rs tb (b ++ p) rest _ Hrs' Htb).
    cbn [read_list fst snd app]. rewrite Z.add_0_l.
    replace (Z.of_nat (length (b ++ p)))
      with (Z.of_nat (length b) + Z.of_nat (length p))
      by (rewrite length_app; lia).
    split; [reflexivity|]. split; reflexivity.
Qed.

End ReaderFacts.
